(** * Fire and smoke detection front end (main.py): model and properties

    The program is a thin orchestration loop around three external
    libraries (OpenCV, the detection model, simpleaudio) and the operating
    system.  The development models

    - Python strings and the path functions [fix_path] relies on, as
      [posixpath] defines them (the program's own hint, [chmod +r], is a
      POSIX one);
    - the outside world as a record [World] of oracles, one per external
      service, together with a fault oracle that decides which external
      call raises, given by the finite list of the calls that do;
    - the interpreter state as a heap of image arrays (so that aliasing is
      visible), a queue of pending key presses and the trace of external
      calls made so far;
    - the functions of main.py as computations in a state-and-exception
      monad over that state.  *)

From Stdlib Require Import String Ascii List ZArith QArith Bool Arith Lia.
From Stdlib Require Import DecimalString.
Import ListNotations.

Local Close Scope Q_scope.
Local Open Scope string_scope.
Local Open Scope list_scope.

(** ** Python strings

    A [str] is modelled by [string]; a character is a code point below 256. *)

Module PyStr.
Local Open Scope string_scope.

Definition LF : ascii := "010"%char.
Definition backslash : ascii := "\"%char.

(** [str.isspace] on one character, for code points below 256:
    TAB..CR, FS..US, SPACE, NEL and NBSP. *)
Definition isspace (c : ascii) : bool :=
  let n := nat_of_ascii c in
  (((9 <=? n) && (n <=? 13)) || ((28 <=? n) && (n <=? 32))
   || (n =? 133) || (n =? 160))%nat.

(** [s.lstrip(chars)] and [s.rstrip(chars)], the set [chars] given as a
    predicate. *)
Fixpoint lstrip_by (p : ascii -> bool) (s : string) : string :=
  match s with
  | EmptyString => EmptyString
  | String c s' => if p c then lstrip_by p s' else s
  end.

Fixpoint rstrip_by (p : ascii -> bool) (s : string) : string :=
  match s with
  | EmptyString => EmptyString
  | String c s' =>
      match rstrip_by p s' with
      | EmptyString => if p c then EmptyString else String c EmptyString
      | r => String c r
      end
  end.

(** [s.strip()] *)
Definition strip (s : string) : string := rstrip_by isspace (lstrip_by isspace s).

(** [s.replace(old, new)] for a one-character [old]. *)
Fixpoint replace (old : ascii) (new : string) (s : string) : string :=
  match s with
  | EmptyString => EmptyString
  | String c s' =>
      if Ascii.eqb c old then new ++ replace old new s'
      else String c (replace old new s')
  end.

(** [s.startswith(pre)] *)
Fixpoint startswith (pre s : string) : bool :=
  match pre with
  | EmptyString => true
  | String a pre' =>
      match s with
      | EmptyString => false
      | String b s' => Ascii.eqb a b && startswith pre' s'
      end
  end.

(** [s.endswith(c)] for a one-character suffix. *)
Fixpoint endswith_char (c : ascii) (s : string) : bool :=
  match s with
  | EmptyString => false
  | String d EmptyString => Ascii.eqb d c
  | String _ s' => endswith_char c s'
  end.

(** [s.split(c)] for a one-character separator: never the empty list. *)
Fixpoint split (c : ascii) (s : string) : list string :=
  match s with
  | EmptyString => [EmptyString]
  | String d s' =>
      if Ascii.eqb d c then EmptyString :: split c s'
      else match split c s' with
           | [] => [String d EmptyString]
           | w :: ws => String d w :: ws
           end
  end.

(** [c.join(parts)] *)
Fixpoint join (c : string) (parts : list string) : string :=
  match parts with
  | [] => EmptyString
  | [p] => p
  | p :: ps => p ++ c ++ join c ps
  end.

(** [(s[:i], s[i:])] for [i = s.find(c)], or [(s, '')] when [c] does not
    occur in [s]. *)
Fixpoint break_at (c : ascii) (s : string) : string * string :=
  match s with
  | EmptyString => (EmptyString, EmptyString)
  | String d s' =>
      if Ascii.eqb d c then (EmptyString, s)
      else let (a, b) := break_at c s' in (String d a, b)
  end.

(** [s[s.rfind(c) + 1:]] *)
Fixpoint after_last (c : ascii) (s : string) : string :=
  match s with
  | EmptyString => EmptyString
  | String d s' =>
      if existsb (Ascii.eqb c) (list_ascii_of_string s') then after_last c s'
      else if Ascii.eqb d c then s' else s
  end.

Definition is_empty (s : string) : bool :=
  match s with EmptyString => true | _ => false end.

(** [x or y] on strings: the empty string is falsy. *)
Definition or_else (x y : string) : string := if is_empty x then y else x.

(** [str(n)] for a non-negative integer. *)
Definition of_nat (n : nat) : string := NilZero.string_of_uint (Nat.to_uint n).

Fixpoint repeat_str (s : string) (n : nat) : string :=
  match n with O => EmptyString | S n' => s ++ repeat_str s n' end.

End PyStr.

(** ** posixpath

    The pure part of the path functions; [expanduser] and [abspath] consult
    the environment and are defined with the world below. *)

Module PosixPath.
Import PyStr.
Local Open Scope string_scope.

Definition sep : ascii := "/"%char.

Definition isabs (p : string) : bool := startswith "/" p.

(** [os.path.join(a, b)] *)
Definition join2 (a b : string) : string :=
  if startswith "/" b then b
  else if is_empty a || endswith_char sep a then a ++ b
  else a ++ "/" ++ b.

(** One round of the component loop of [normpath]. *)
Definition norm_step (initial_slashes : nat) (new_comps : list string) (comp : string)
  : list string :=
  if is_empty comp || String.eqb comp "." then new_comps
  else if negb (String.eqb comp "..")
          || ((initial_slashes =? 0)%nat && match new_comps with [] => true | _ => false end)
          || match new_comps with
             | [] => false
             | _ => String.eqb (last new_comps EmptyString) ".."
             end
       then (new_comps ++ [comp])%list
       else removelast new_comps.

(** [os.path.normpath] *)
Definition normpath (path : string) : string :=
  if is_empty path then "." else
  let initial_slashes :=
    if startswith "/" path then
      if startswith "//" path && negb (startswith "///" path) then 2%nat else 1%nat
    else 0%nat in
  let comps := split sep path in
  let new_comps := fold_left (norm_step initial_slashes) comps [] in
  let path := join "/" new_comps in
  let path := repeat_str "/" initial_slashes ++ path in
  or_else path ".".

(** [os.path.basename] *)
Definition basename (p : string) : string := after_last sep p.

End PosixPath.

(** ** Images

    A frame is an array of shape (h, w, 3) of 8-bit channels, kept as its
    rows of pixels together with the width; a pixel is in OpenCV's channel
    order (blue, green, red). *)

Definition Pixel : Type := (Z * Z * Z)%type.

Record ndarray : Type := mk_ndarray { nd_w : nat; nd_rows : list (list Pixel) }.

Definition nd_h (a : ndarray) : nat := length (nd_rows a).

(** Every row has the declared width. *)
Definition nd_wf (a : ndarray) : Prop := Forall (fun row => length row = nd_w a) (nd_rows a).

Definition nd_empty : ndarray := mk_ndarray 0 [].

(** [np.zeros((h, w, 3), dtype=np.uint8)] *)
Definition np_zeros (h w : nat) : ndarray :=
  mk_ndarray w (repeat (repeat (0, 0, 0)%Z w) h).

(** [a[:] = c] *)
Definition nd_fill (c : Pixel) (a : ndarray) : ndarray :=
  mk_ndarray (nd_w a) (map (map (fun _ => c)) (nd_rows a)).

Fixpoint mapi_from {A B : Type} (f : nat -> A -> B) (i : nat) (l : list A) : list B :=
  match l with
  | [] => []
  | x :: l' => f i x :: mapi_from f (S i) l'
  end.

(** Drawing with one colour: the pixels of [a] whose offset from the origin
    [(x, y)] is inked take the colour, the others keep theirs.  OpenCV's
    default line type (LINE_8) does not blend. *)
Definition nd_draw (ink : Z -> Z -> bool) (x y : Z) (color : Pixel) (a : ndarray) : ndarray :=
  mk_ndarray (nd_w a)
    (mapi_from (fun r row =>
       mapi_from (fun c p =>
         if ink (Z.of_nat c - x)%Z (Z.of_nat r - y)%Z then color else p) 0 row)
       0 (nd_rows a)).

(** ** The outside world *)

(** One detection of the model: corners of the box, class and confidence. *)
Record Box : Type := mk_Box { box_xyxy : Z * Z * Z * Z; box_cls : nat; box_conf : Q }.

(** What [model(frame)[0]] holds: the frame it was computed from and the
    boxes. *)
Record Results : Type := mk_Results { orig_img : ndarray; boxes : list Box }.

(** The message of a raised [Exception].  Asynchronous interrupts, which
    are not instances of [Exception], are outside this sequential model. *)
Definition Exception : Type := string.

Definition ref : Type := nat.

(** The external calls main.py makes, with their arguments. *)
Inductive Call : Type :=
| os_getcwd
| pwd_getpwuid
| pwd_getpwnam (name : string)
| os_path_exists (path : string)
| os_access_R_OK (path : string)
| stdout (line : string)
| cv2_namedWindow (window_name : string) (flags : Z)
| cv2_resizeWindow (window_name : string) (width height : Z)
| cv2_imread (path : string)
| cv2_VideoCapture (path : string)
| cap_isOpened
| cap_read
| cap_release
| cv2_putText (img : ref) (text : string) (org : Z * Z) (font : Z) (scale : Q)
              (color : Pixel) (thickness : Z)
| cv2_imshow (window_name : string) (image : ref)
| cv2_waitKey (delay : Z)
| cv2_destroyAllWindows
| model_call (frame : ref)
| results_plot
| sa_from_wave_file (file : string)
| wave_obj_play
| play_obj_wait_done.

(** An entry of the trace: a call that returned, or one that raised. *)
Inductive Entry : Type :=
| Done (c : Call)
| Failed (c : Call) (e : Exception).

Record World : Type := mk_World {
  (** [os.environ.get('HOME')] *)
  environ_HOME : option string;
  (** [pwd.getpwuid(os.getuid()).pw_dir]; [None] stands for [KeyError] *)
  pw_dir_uid : option string;
  (** [pwd.getpwnam(name).pw_dir]; [None] stands for [KeyError] *)
  pw_dir_nam : string -> option string;
  (** what [os.getcwd()] returns *)
  cwd : string;
  path_exists : string -> bool;
  access_R_OK : string -> bool;
  (** the decoded image of a file, if it decodes *)
  image_file : string -> option ndarray;
  (** the frames of a video file, if it opens *)
  video_file : string -> option (list ndarray);
  (** [cv2.getTextSize(text, font, scale, thickness)]: ((width, height), baseline) *)
  getTextSize : string -> Z -> Q -> Z -> (Z * Z) * Z;
  (** the glyph rasteriser behind [cv2.putText]: which offsets from the
      text origin are inked *)
  text_ink : string -> Z -> Q -> Z -> Z -> Z -> bool;
  (** the detection model and the box renderer of its results *)
  detect : ndarray -> list Box;
  plot_boxes : ndarray -> list Box -> ndarray;
  (** the external calls that raise: [(n, e)] says that the call made when
      the trace has [n] entries raises [e].  A run that ends makes finitely
      many calls; the list is finite, so that it can be decided whether any
      later call fails, which the wait loop of image mode depends on *)
  faults : list (nat * Exception)
}.

(** [fault env n = Some e]: the external call made when the trace has [n]
    entries raises [e]. *)
Definition fault (env : World) (n : nat) : option Exception :=
  match find (fun p => Nat.eqb (fst p) n) (faults env) with
  | Some p => Some (snd p)
  | None => None
  end.

(** The number of entries of the trace from which on no call raises. *)
Definition fault_end (env : World) : nat :=
  fold_right (fun p m => Nat.max (S (fst p)) m) 0 (faults env).

(** ** Interpreter state and the monad of effects *)

Record State : Type := mk_State {
  heap : list ndarray;   (** the image arrays allocated so far *)
  keys : list Z;         (** results of the coming [cv2.waitKey] polls *)
  trace : list Entry     (** external calls so far, oldest first *)
}.

Inductive Outcome (A : Type) : Type :=
| Return (a : A)
| Raise (e : Exception)
| Diverge.

Arguments Return {A} a.
Arguments Raise {A} e.
Arguments Diverge {A}.

Definition M (A : Type) : Type := State -> Outcome A * State.

Definition ret {A : Type} (a : A) : M A := fun s => (Return a, s).

Definition bind {A B : Type} (c : M A) (k : A -> M B) : M B :=
  fun s =>
    match c s with
    | (Return a, s') => k a s'
    | (Raise e, s') => (Raise e, s')
    | (Diverge, s') => (Diverge, s')
    end.

Definition raise {A : Type} (e : Exception) : M A := fun s => (Raise e, s).

Definition diverge {A : Type} : M A := fun s => (Diverge, s).

(** [try: body  except Exception as e: handler(e)] *)
Definition try_except {A : Type} (body : M A) (handler : Exception -> M A) : M A :=
  fun s =>
    match body s with
    | (Raise e, s') => handler e s'
    | r => r
    end.

Declare Scope py_scope.
Delimit Scope py_scope with py.
Notation "x <- c ;; k" := (bind c (fun x => k))
  (at level 61, c at next level, right associativity) : py_scope.
Notation "c ;; k" := (bind c (fun _ => k))
  (at level 61, right associativity) : py_scope.
Local Open Scope py_scope.

Fixpoint for_each {A : Type} (l : list A) (body : A -> M unit) : M unit :=
  match l with
  | [] => ret tt
  | x :: l' => body x ;; for_each l' body
  end.

(** [enumerate(l)] *)
Definition enumerate {A : Type} (l : list A) : list (nat * A) :=
  combine (seq 0 (length l)) l.

Definition record (en : Entry) (s : State) : State :=
  mk_State (heap s) (keys s) (trace s ++ [en]).

(** A call that cannot fail: it is recorded and returns. *)
Definition log (c : Call) : M unit := fun s => (Return tt, record (Done c) s).

(** [id(a)]-style allocation of a new array. *)
Definition alloc (a : ndarray) : M ref :=
  fun s => (Return (length (heap s)), mk_State (heap s ++ [a]) (keys s) (trace s)).

Definition load (r : ref) : M ndarray := fun s => (Return (nth r (heap s) nd_empty), s).

Fixpoint set_nth {A : Type} (i : nat) (x : A) (l : list A) : list A :=
  match l, i with
  | [], _ => []
  | _ :: l', O => x :: l'
  | y :: l', S i' => y :: set_nth i' x l'
  end.

(** In-place update of the array behind a reference. *)
Definition modify (r : ref) (f : ndarray -> ndarray) : M unit :=
  fun s => (Return tt,
            mk_State (set_nth r (f (nth r (heap s) nd_empty)) (heap s)) (keys s) (trace s)).

(** The next key of the queue; when the queue is empty no key is pressed
    and [cv2.waitKey] answers -1. *)
Definition next_key : M Z :=
  fun s =>
    match keys s with
    | [] => (Return (-1)%Z, s)
    | k :: ks => (Return k, mk_State (heap s) ks (trace s))
    end.

Definition run {A : Type} (c : M A) (s : State) : Outcome A * State := c s.

Definition initial (pending_keys : list Z) : State := mk_State [] pending_keys [].

(** ** main.py *)

Section Program.

Local Open Scope string_scope.

Variable env : World.

(** An external call that may fail: the fault oracle decides.  The calls
    that only work on arrays in memory ([np.zeros], [np.vstack],
    [cv2.getTextSize], [cv2.putText]), [print] and [os.path.exists] are
    taken not to fail. *)
Definition ext (c : Call) : M unit :=
  fun s =>
    match fault env (length (trace s)) with
    | Some e => (Raise e, record (Failed c e) s)
    | None => (Return tt, record (Done c) s)
    end.

Definition print (line : string) : M unit := log (stdout line).

(** *** Library calls *)

(** [os.path.expanduser] of posixpath. *)
Definition expanduser (path : string) : M string :=
  match path with
  | String "~" rest =>
      let (name, tail) := PyStr.break_at PosixPath.sep rest in
      userhome <-
        (if PyStr.is_empty name then
           match environ_HOME env with
           | Some home => ret (Some home)
           | None => ext pwd_getpwuid ;; ret (pw_dir_uid env)
           end
         else ext (pwd_getpwnam name) ;; ret (pw_dir_nam env name)) ;;
      match userhome with
      | None => ret path
      | Some userhome =>
          let userhome := PyStr.rstrip_by (Ascii.eqb "/") userhome in
          ret (PyStr.or_else (userhome ++ tail) "/")
      end
  | _ => ret path
  end.

(** [os.path.abspath] of posixpath. *)
Definition abspath (path : string) : M string :=
  path <- (if PosixPath.isabs path then ret path
           else ext os_getcwd ;; ret (PosixPath.join2 (cwd env) path)) ;;
  ret (PosixPath.normpath path).

(** [os.path.exists(path)]: it answers [False] on any error of the
    underlying [stat], and so never raises. *)
Definition os_path_exists_ (path : string) : M bool :=
  log (os_path_exists path) ;; ret (path_exists env path).

(** [os.access(path, os.R_OK)] *)
Definition os_access (path : string) : M bool :=
  ext (os_access_R_OK path) ;; ret (access_R_OK env path).

Definition FONT_HERSHEY_SIMPLEX : Z := 0.
Definition WINDOW_NORMAL : Z := 0.

(** [cv2.putText(img, text, org, font, scale, color, thickness)] draws in
    place on [img]. *)
Definition putText (img : ref) (text : string) (org : Z * Z) (font : Z) (scale : Q)
           (color : Pixel) (thickness : Z) : M unit :=
  log (cv2_putText img text org font scale color thickness) ;;
  modify img (nd_draw (text_ink env text font scale thickness) (fst org) (snd org) color).

(** [np.vstack((a, b))]: a new array, [a] above [b]. *)
Definition np_vstack (a b : ref) : M ref :=
  x <- load a ;;
  y <- load b ;;
  if (nd_w x =? nd_w y)%nat then alloc (mk_ndarray (nd_w x) (nd_rows x ++ nd_rows y)%list)
  else raise "all the input array dimensions except for the concatenation axis must match exactly".

(** [cv2.imread(path)]: a new array, or [None]. *)
Definition imread (path : string) : M (option ref) :=
  ext (cv2_imread path) ;;
  match image_file env path with
  | None => ret None
  | Some a => r <- alloc a ;; ret (Some r)
  end.

(** [model(frame)[0]] *)
Definition model (frame : ref) : M Results :=
  ext (model_call frame) ;;
  a <- load frame ;;
  ret (mk_Results a (detect env a)).

(** [res.plot()]: a new array. *)
Definition plot (res : Results) : M ref :=
  ext results_plot ;;
  alloc (plot_boxes env (orig_img res) (boxes res)).

Definition imshow (window_name : string) (image : ref) : M unit :=
  ext (cv2_imshow window_name image).

Definition waitKey (delay : Z) : M Z :=
  ext (cv2_waitKey delay) ;;
  next_key.

(** *** The functions of main.py *)

Definition create_window (window_name : string) (width height : Z) : M string :=
  ext (cv2_namedWindow window_name WINDOW_NORMAL) ;;
  ext (cv2_resizeWindow window_name width height) ;;
  ret window_name.

(** The default arguments of [create_window]. *)
Definition default_window_name : string := "Fire and Smoke Detection System".
Definition default_width : Z := 1280.
Definition default_height : Z := 720.

Definition add_status_bar (image : ref) (status_text : string) (is_alert : bool) : M ref :=
  img <- load image ;;
  let w := nd_w img in
  status_bar <- alloc (np_zeros 60 w) ;;
  text_color <-
    (if is_alert then
       modify status_bar (nd_fill (0, 0, 255)%Z) ;; ret (255, 255, 255)%Z
     else
       modify status_bar (nd_fill (0, 255, 0)%Z) ;; ret (0, 0, 0)%Z) ;;
  let font := FONT_HERSHEY_SIMPLEX in
  let font_scale := 1%Q in
  let thickness := 2%Z in
  let text_size := fst (getTextSize env status_text font font_scale thickness) in
  let text_x := ((Z.of_nat w - fst text_size) / 2)%Z in
  let text_y := ((60 + snd text_size) / 2)%Z in
  putText status_bar status_text (text_x, text_y) font font_scale text_color thickness ;;
  np_vstack image status_bar.

Definition add_info_overlay (image : ref) (info_text : string) : M ref :=
  let font := FONT_HERSHEY_SIMPLEX in
  let font_scale := (6 # 10)%Q in
  let thickness := 1%Z in
  let padding := 10%Z in
  for_each (enumerate (PyStr.split PyStr.LF info_text)) (fun '(i, line) =>
    let y := (30 + Z.of_nat i * 25)%Z in
    putText image line (padding, y) font font_scale (255, 255, 255)%Z (thickness + 1)%Z ;;
    putText image line (padding, y) font font_scale (0, 0, 0)%Z thickness) ;;
  ret image.

Definition play_alarm : M unit :=
  try_except
    (ext (sa_from_wave_file "test.wav") ;;
     ext wave_obj_play ;;
     ext play_obj_wait_done)
    (fun e => print ("Error playing alarm: " ++ e)).

Definition fix_path (path : string) : M string :=
  let path := PyStr.strip path in
  let path := PyStr.replace PyStr.backslash EmptyString path in
  path <- expanduser path ;;
  path <- abspath path ;;
  ret path.

Definition check_permission (path : string) : M (bool * option string) :=
  try_except
    (fixed_path <- fix_path path ;;
     print ("Trying to access: " ++ fixed_path) ;;
     e <- os_path_exists_ fixed_path ;;
     if negb e then
       print ("File not found: " ++ fixed_path) ;;
       print "Please check if the path is correct and the file exists" ;;
       ret (false, None)
     else
       a <- os_access fixed_path ;;
       if negb a then
         print ("Cannot access file: " ++ fixed_path) ;;
         print ("Try running: chmod +r '" ++ fixed_path ++ "'") ;;
         ret (false, None)
       else ret (true, Some fixed_path))
    (fun e =>
       print ("Error checking file: " ++ e) ;;
       ret (false, None)).

(** Lines 97-108 of [process_image] and 142-153 of [process_video]: the
    same statements up to the names of the variables and the text of the
    overlay.  The result is the image to display. *)
Definition detect_and_annotate (frame : ref) (info_text : string) : M ref :=
  res <- model frame ;;
  let fire_detected := (0 <? length (boxes res))%nat in
  annotated <- plot res ;;
  annotated <- add_info_overlay annotated info_text ;;
  if fire_detected then
    display <- add_status_bar annotated "FIRE/SMOKE DETECTED!" true ;;
    play_alarm ;;
    ret display
  else
    add_status_bar annotated "No Fire Detected" false.

(** [while True: key = cv2.waitKey(1) & 0xFF; if key == 27: break], for a
    given number of rounds.  [wait_for_escape] gives the loop one round per
    pending key and one per call that may still raise: when the rounds are
    used up, no key is pending, every later poll answers -1 and none of
    them raises, so the loop never ends. *)
Fixpoint poll_escape (rounds : nat) : M unit :=
  match rounds with
  | O => diverge
  | S rounds' =>
      key <- waitKey 1 ;;
      if (Z.land key 255 =? 27)%Z then ret tt else poll_escape rounds'
  end.

Definition wait_for_escape : M unit :=
  fun s => poll_escape (length (keys s) + (fault_end env - length (trace s))) s.

Definition process_image (image_path : string) : M unit :=
  permission_result <- check_permission image_path ;;
  match permission_result with
  | (false, _) => ret tt
  | (true, None) => ret tt   (* not reachable: [True] comes with a path *)
  | (true, Some fixed_path) =>
      window_name <- create_window default_window_name default_width default_height ;;
      try_except
        (print ("Loading image from: " ++ fixed_path) ;;
         img <- imread fixed_path ;;
         match img with
         | None => print ("Error: Unable to load image from " ++ fixed_path)
         | Some img =>
             let info_text :=
               "File: " ++ PosixPath.basename fixed_path
               ++ String PyStr.LF "Press 'ESC' to exit" in
             display_img <- detect_and_annotate img info_text ;;
             imshow window_name display_img ;;
             wait_for_escape ;;
             ext cv2_destroyAllWindows
         end)
        (fun e => print ("Error processing image: " ++ e))
  end.

(** The [while True] loop of [process_video] over the frames the capture
    still holds; [cap.read()] hands out the next one, or reports the end
    of the stream. *)
Fixpoint video_loop (fixed_path window_name : string) (frames : list ndarray)
         (frame_count : nat) : M unit :=
  ext cap_read ;;
  match frames with
  | [] => ret tt
  | a :: frames' =>
      frame <- alloc a ;;
      let frame_count := S frame_count in
      let info_text :=
        "File: " ++ PosixPath.basename fixed_path
        ++ String PyStr.LF ("Frame: " ++ PyStr.of_nat frame_count
        ++ String PyStr.LF "Press 'ESC' to exit") in
      display_frame <- detect_and_annotate frame info_text ;;
      imshow window_name display_frame ;;
      key <- waitKey 1 ;;
      if (key =? 27)%Z then ret tt
      else video_loop fixed_path window_name frames' frame_count
  end.

Definition process_video (video_path : string) : M unit :=
  permission_result <- check_permission video_path ;;
  match permission_result with
  | (false, _) => ret tt
  | (true, None) => ret tt   (* not reachable: [True] comes with a path *)
  | (true, Some fixed_path) =>
      window_name <- create_window default_window_name default_width default_height ;;
      try_except
        (ext (cv2_VideoCapture fixed_path) ;;
         let cap := video_file env fixed_path in
         ext cap_isOpened ;;
         match cap with
         | None => print ("Error: Unable to open video from " ++ fixed_path)
         | Some frames =>
             video_loop fixed_path window_name frames 0 ;;
             ext cap_release ;;
             ext cv2_destroyAllWindows
         end)
        (fun e => print ("Error processing video: " ++ e))
  end.

End Program.

(** ** A small concrete world

    Used to run the program: a home directory with one image and one
    two-frame clip, a block font (a text is a bar one pixel per character
    wide and as many rows as the stroke is thick on either side of the
    baseline), and a detector that reports one box exactly when the first
    pixel of the frame is not black. *)

Module Demo.
Local Open Scope string_scope.

Definition dark : ndarray := np_zeros 32 16.
Definition bright : ndarray := nd_fill (200, 200, 200)%Z (np_zeros 32 16).

Definition block_size (text : string) (font : Z) (scale : Q) (thickness : Z)
  : (Z * Z) * Z :=
  ((Z.of_nat (String.length text), 1%Z), 0%Z).

Definition block_ink (text : string) (font : Z) (scale : Q) (thickness : Z)
           (dx dy : Z) : bool :=
  ((0 <=? dx) && (dx <? Z.of_nat (String.length text))
   && (- thickness <? dy) && (dy <? thickness))%Z.

Definition first_pixel (a : ndarray) : Pixel :=
  match nd_rows a with
  | (p :: _) :: _ => p
  | _ => (0, 0, 0)%Z
  end.

Definition detector (a : ndarray) : list Box :=
  match first_pixel a with
  | (0, 0, 0)%Z => []
  | _ => [mk_Box (0, 0, 8, 8)%Z 0 (9 # 10)%Q]
  end.

Definition world (faults : list (nat * Exception)) : World :=
  {| environ_HOME := Some "/home/user";
     pw_dir_uid := Some "/home/user";
     pw_dir_nam := fun name => if String.eqb name "root" then Some "/root" else None;
     cwd := "/home/user/firealarm";
     path_exists := fun p =>
       String.eqb p "/home/user/clips/fire.mp4" || String.eqb p "/home/user/clips/fire.jpg"
       || String.eqb p "/home/user/clips/notes.txt";
     access_R_OK := fun p =>
       String.eqb p "/home/user/clips/fire.mp4" || String.eqb p "/home/user/clips/fire.jpg"
       || String.eqb p "/home/user/clips/notes.txt";
     image_file := fun p =>
       if String.eqb p "/home/user/clips/fire.jpg" then Some bright else None;
     video_file := fun p =>
       if String.eqb p "/home/user/clips/fire.mp4" then Some [dark; bright] else None;
     getTextSize := block_size;
     text_ink := block_ink;
     detect := detector;
     plot_boxes := fun a _ => a;
     faults := faults |}.

Definition no_fault : list (nat * Exception) := [].

(** The call made when the trace has [n] entries raises [e]. *)
Definition fault_at (n : nat) (e : Exception) : list (nat * Exception) := [(n, e)].

End Demo.

(** ** Observations on traces *)

Definition call_of (en : Entry) : Call :=
  match en with Done c => c | Failed c _ => c end.

(** An invocation of [play_alarm] starts by loading the clip, whether the
    load succeeds or not. *)
Definition is_alarm_call (en : Entry) : bool :=
  match call_of en with
  | sa_from_wave_file _ => true
  | _ => false
  end.

(** How often the alarm player was invoked along a trace. *)
Definition alarm_calls (t : list Entry) : nat := length (filter is_alarm_call t).

(** The last entry of a trace, if any. *)
Definition last_entry (t : list Entry) : option Entry :=
  match rev t with
  | [] => None
  | en :: _ => Some en
  end.

(** A call that creates or sizes the display window. *)
Definition is_window_call (en : Entry) : bool :=
  match call_of en with
  | cv2_namedWindow _ _ | cv2_resizeWindow _ _ _ => true
  | _ => false
  end.

(** The colours of the status bar: background and text. *)
Definition BGR_red : Pixel := (0, 0, 255)%Z.
Definition BGR_green : Pixel := (0, 255, 0)%Z.
Definition BGR_white : Pixel := (255, 255, 255)%Z.
Definition BGR_black : Pixel := (0, 0, 0)%Z.

Definition pixel (a : ndarray) (c r : nat) : Pixel :=
  nth c (nth r (nd_rows a) []) (0, 0, 0)%Z.

(** One line of the information overlay on an array: the white outline
    stroke, then the black fill stroke. *)
Definition overlay_line (env : World) (a : ndarray) (il : nat * string) : ndarray :=
  let y := (30 + Z.of_nat (fst il) * 25)%Z in
  nd_draw (text_ink env (snd il) 0 (6 # 10)%Q 1) 10 y (0, 0, 0)%Z
    (nd_draw (text_ink env (snd il) 0 (6 # 10)%Q 2) 10 y (255, 255, 255)%Z a).

(** The array after all the lines of [info_text] were drawn on it. *)
Definition overlay_picture (env : World) (info_text : string) (a : ndarray) : ndarray :=
  fold_left (overlay_line env) (enumerate (PyStr.split PyStr.LF info_text)) a.

Definition is_putText (en : Entry) : Prop :=
  match en with
  | Done (cv2_putText _ _ _ _ _ _ _) => True
  | _ => False
  end.


(** [resizeWindow] returned: [create_window] went through. *)
Definition window_created (t : list Entry) : bool :=
  existsb (fun en => match en with
                     | Done (cv2_resizeWindow _ _ _) => true
                     | _ => false
                     end) t.

(** The capture did not open: [process_video] said so. *)
Definition open_failed (t : list Entry) : bool :=
  existsb (fun en => match en with
                     | Done (stdout line) =>
                         PyStr.startswith "Error: Unable to open video from " line
                     | _ => false
                     end) t.

(** The handler of [process_video] ran. *)
Definition handler_entered (t : list Entry) : bool :=
  existsb (fun en => match en with
                     | Done (stdout line) => PyStr.startswith "Error processing video: " line
                     | _ => false
                     end) t.

(** Every character of [s] satisfies [f]. *)
Definition all_chars (f : ascii -> bool) (s : string) : bool :=
  forallb f (list_ascii_of_string s).

(** A character other than the separator of paths. *)
Definition not_sep (d : ascii) : bool := negb (Ascii.eqb d PosixPath.sep).

(** A component of a normal path: a name that is not empty, is neither
    [.] nor [..] and holds no separator. *)
Definition is_plain (c : string) : bool :=
  negb (PyStr.is_empty c) && negb (String.eqb c ".") && negb (String.eqb c "..")
  && all_chars not_sep c.

(** An existence or readability check. *)
Definition is_file_check (en : Entry) : bool :=
  match call_of en with
  | os_path_exists _ | os_access_R_OK _ => true
  | _ => false
  end.

(** The path an existence or readability check is about. *)
Definition checked_path (en : Entry) : option string :=
  match call_of en with
  | os_path_exists p | os_access_R_OK p => Some p
  | _ => None
  end.

(** ** Further definitions: observations, webcam mode and the menu *)

(** No external call raises. *)
Definition fault_free (env : World) : Prop := forall n, fault env n = None.

(** The two strokes [add_info_overlay] draws for line number [i]: the
    white outline, two pixels thick, then the black fill. *)
Definition overlay_line_calls (image : ref) (il : nat * string) : list Entry :=
  let y := (30 + Z.of_nat (fst il) * 25)%Z in
  [Done (cv2_putText image (snd il) (10, y)%Z 0 (6 # 10)%Q (255, 255, 255)%Z 2);
   Done (cv2_putText image (snd il) (10, y)%Z 0 (6 # 10)%Q (0, 0, 0)%Z 1)].

(** The drawing calls of [add_info_overlay], line by line. *)
Definition overlay_calls (image : ref) (info_text : string) : list Entry :=
  flat_map (overlay_line_calls image) (enumerate (PyStr.split PyStr.LF info_text)).

(** The three calls of an alarm that plays to its end. *)
Definition alarm_ok_calls : list Entry :=
  [Done (sa_from_wave_file "test.wav"); Done wave_obj_play; Done play_obj_wait_done].

(** The decision of the orchestrator on one frame. *)
Definition fire_detected (env : World) (a : ndarray) : bool :=
  (0 <? length (detect env a))%nat.

(** The frames the loop of video mode gets to display when no call fails:
    all of them, up to and including the one after which [cv2.waitKey]
    answers 27. *)
Fixpoint shown (frames : list ndarray) (ks : list Z) : list ndarray :=
  match frames with
  | [] => []
  | a :: frames' =>
      a :: match ks with
           | [] => shown frames' []
           | k :: ks' => if (k =? 27)%Z then [] else shown frames' ks'
           end
  end.

(** The text video mode lays over frame number [frame_count]. *)
Definition video_info_text (fixed_path : string) (frame_count : nat) : string :=
  ("File: " ++ PosixPath.basename fixed_path
   ++ String PyStr.LF ("Frame: " ++ PyStr.of_nat frame_count
   ++ String PyStr.LF "Press 'ESC' to exit"))%string.

(** The texts of the fill strokes (thickness 1) along a trace: the lines
    of the overlays, in the order they were drawn. *)
Definition fill_texts (t : list Entry) : list string :=
  flat_map (fun en => match en with
                      | Done (cv2_putText _ text _ _ _ _ 1%Z) => [text]
                      | _ => []
                      end) t.

(** How many frames were handed to [cv2.imshow]. *)
Definition imshow_calls (t : list Entry) : nat :=
  length (filter (fun en => match en with
                            | Done (cv2_imshow _ _) => true
                            | _ => false
                            end) t).

(** [keeps n Q c]: run from a heap of at least [n] images, [c] leaves the
    first [n] of them as they are, and what it returns satisfies [Q]. *)
Definition keeps (n : nat) {A : Type} (Q : A -> Prop) (c : M A) : Prop :=
  forall s, n <= length (heap s) ->
    n <= length (heap (snd (c s)))
    /\ firstn n (heap (snd (c s))) = firstn n (heap s)
    /\ forall a, fst (c s) = Return a -> Q a.

(** ** Webcam mode and the menu

    The default camera is a parameter: [None] when it cannot be opened,
    otherwise the frames it delivers until a read fails.  A camera that
    delivers for ever to a user who never presses escape is a run that
    does not end; it has no counterpart here.  The standard input is the
    list of the reads still to come. *)

(** One read of the standard input by [input]: a line, without its end, or
    the exception the read raises, as [UnicodeDecodeError] on bytes that
    are no text in the encoding of the console. *)
Inductive Input : Type :=
| Line (text : string)
| ReadError (e : Exception).

Section Menu.

Local Open Scope string_scope.

Variable env : World.
Variable camera : option (list ndarray).

(** The [while True] loop of [process_webcam]: the loop of video mode with
    another first line of the overlay. *)
Fixpoint webcam_loop (window_name : string) (frames : list ndarray) (frame_count : nat)
  : M unit :=
  ext env cap_read ;;
  match frames with
  | [] => ret tt
  | a :: frames' =>
      frame <- alloc a ;;
      let frame_count := S frame_count in
      let info_text :=
        "Webcam Feed"
        ++ String PyStr.LF ("Frame: " ++ PyStr.of_nat frame_count
        ++ String PyStr.LF "Press 'ESC' to exit") in
      display_frame <- detect_and_annotate env frame info_text ;;
      imshow env window_name display_frame ;;
      key <- waitKey env 1 ;;
      if (key =? 27)%Z then ret tt
      else webcam_loop window_name frames' frame_count
  end.

(** [cv2.VideoCapture(0)]: the device index is recorded as the text of the
    call's argument. *)
Definition process_webcam : M unit :=
  window_name <- create_window env default_window_name default_width default_height ;;
  try_except
    (ext env (cv2_VideoCapture (PyStr.of_nat 0)) ;;
     let cap := camera in
     ext env cap_isOpened ;;
     match cap with
     | None => print "Error: Unable to access webcam"
     | Some frames =>
         webcam_loop window_name frames 0 ;;
         ext env cap_release ;;
         ext env cv2_destroyAllWindows
     end)
    (fun e => print ("Error accessing webcam: " ++ e)).

(** The six lines [main] prints at the top of every round. *)
Definition print_menu : M unit :=
  print (String PyStr.LF "Fire and Smoke Detection System") ;;
  print (PyStr.repeat_str "-" 30) ;;
  print "1. Process image" ;;
  print "2. Process video" ;;
  print "3. Use webcam" ;;
  print "4. Quit".

(** What [input] raises at the end of the standard input. *)
Definition EOFError : Exception := "EOF when reading a line".

(** [main]: each [input(prompt)] writes the prompt to the standard output
    and makes the next read of [stdin]: it returns the line, or raises the
    exception of the read, or raises [EOFError] when the input has ended.
    Nothing in [main] catches these. *)
Fixpoint main (stdin : list Input) : M unit :=
  print_menu ;;
  log (stdout "Enter your choice (1-4): ") ;;
  match stdin with
  | [] => raise EOFError
  | ReadError e :: _ => raise e
  | Line line :: stdin1 =>
      let choice := PyStr.strip line in
      if String.eqb choice "1" then
        log (stdout "Enter image path: ") ;;
        match stdin1 with
        | [] => raise EOFError
        | ReadError e :: _ => raise e
        | Line path :: stdin2 => process_image env path ;; main stdin2
        end
      else if String.eqb choice "2" then
        log (stdout "Enter video path: ") ;;
        match stdin1 with
        | [] => raise EOFError
        | ReadError e :: _ => raise e
        | Line path :: stdin2 => process_video env path ;; main stdin2
        end
      else if String.eqb choice "3" then
        process_webcam ;; main stdin1
      else if String.eqb choice "4" then
        print "Exiting program..."
      else
        print "Invalid choice. Please enter a number between 1-4." ;; main stdin1
  end.

End Menu.

(** The lines of the menu and the prompt, as entries of the trace. *)
Definition menu_entries : list Entry :=
  [Done (stdout (String PyStr.LF "Fire and Smoke Detection System"));
   Done (stdout "------------------------------");
   Done (stdout "1. Process image");
   Done (stdout "2. Process video");
   Done (stdout "3. Use webcam");
   Done (stdout "4. Quit");
   Done (stdout "Enter your choice (1-4): ")].

(** A call of the path resolver: a lookup or a check in the file system. *)
Definition is_resolver_call (en : Entry) : bool :=
  match call_of en with
  | os_getcwd | pwd_getpwuid | pwd_getpwnam _ | os_path_exists _ | os_access_R_OK _ => true
  | _ => false
  end.

(** A prompt of [main]. *)
Definition is_prompt (en : Entry) : bool :=
  match en with
  | Done (stdout line) =>
      String.eqb line "Enter your choice (1-4): "
      || String.eqb line "Enter image path: "
      || String.eqb line "Enter video path: "
  | _ => false
  end.

(** ** Reasoning about computations *)

(** [emits P c]: from every state [c] ends (it returns or raises), and
    what it adds to the trace are entries that satisfy [P]. *)
Definition emits {A : Type} (P : Entry -> Prop) (c : M A) : Prop :=
  forall s, exists out s' new,
    c s = (out, s') /\ trace s' = trace s ++ new /\ Forall P new /\ out <> Diverge.

Section Emits.

Variable env : World.
Variable P : Entry -> Prop.

Lemma emits_ret {A : Type} (a : A) : emits P (ret a).
Proof.
  intros s. exists (Return a), s, []. rewrite app_nil_r.
  repeat split; auto; discriminate.
Qed.

Lemma emits_raise {A : Type} (e : Exception) : emits P (@raise A e).
Proof.
  intros s. exists (Raise e), s, []. rewrite app_nil_r.
  repeat split; auto; discriminate.
Qed.

Lemma emits_bind {A B : Type} (c : M A) (k : A -> M B) :
  emits P c -> (forall a, emits P (k a)) -> emits P (bind c k).
Proof.
  intros Hc Hk s. unfold bind.
  destruct (Hc s) as (out & s1 & n1 & E1 & T1 & F1 & D1). rewrite E1.
  destruct out as [a | e | ].
  - destruct (Hk a s1) as (out2 & s2 & n2 & E2 & T2 & F2 & D2).
    exists out2, s2, (n1 ++ n2). rewrite T2, T1, app_assoc.
    repeat split; auto. apply Forall_app; auto.
  - exists (Raise e), s1, n1. repeat split; auto; discriminate.
  - contradiction.
Qed.

Lemma emits_try_except {A : Type} (body : M A) (handler : Exception -> M A) :
  emits P body -> (forall e, emits P (handler e)) -> emits P (try_except body handler).
Proof.
  intros Hc Hk s. unfold try_except.
  destruct (Hc s) as (out & s1 & n1 & E1 & T1 & F1 & D1). rewrite E1.
  destruct out as [a | e | ].
  - exists (Return a), s1, n1. repeat split; auto; discriminate.
  - destruct (Hk e s1) as (out2 & s2 & n2 & E2 & T2 & F2 & D2).
    exists out2, s2, (n1 ++ n2). rewrite T2, T1, app_assoc.
    repeat split; auto. apply Forall_app; auto.
  - contradiction.
Qed.

Lemma emits_ext (c : Call) :
  P (Done c) -> (forall e, P (Failed c e)) -> emits P (ext env c).
Proof.
  intros Hd Hf s. unfold ext.
  destruct (fault env (length (trace s))) as [e | ].
  - exists (Raise e), (record (Failed c e) s), [Failed c e].
    repeat split; auto; discriminate.
  - exists (Return tt), (record (Done c) s), [Done c].
    repeat split; auto; discriminate.
Qed.

Lemma emits_log (c : Call) : P (Done c) -> emits P (log c).
Proof.
  intros Hd s. exists (Return tt), (record (Done c) s), [Done c].
  repeat split; auto; discriminate.
Qed.

Lemma emits_print (line : string) : P (Done (stdout line)) -> emits P (print line).
Proof. apply emits_log. Qed.

Lemma emits_alloc (a : ndarray) : emits P (alloc a).
Proof.
  intros s. eexists _, _, []. unfold alloc. split; [reflexivity | ].
  simpl. rewrite app_nil_r. repeat split; auto; discriminate.
Qed.

Lemma emits_load (r : ref) : emits P (load r).
Proof.
  intros s. eexists _, _, []. unfold load. split; [reflexivity | ].
  rewrite app_nil_r. repeat split; auto; discriminate.
Qed.

Lemma emits_modify (r : ref) (f : ndarray -> ndarray) : emits P (modify r f).
Proof.
  intros s. eexists _, _, []. unfold modify. split; [reflexivity | ].
  simpl. rewrite app_nil_r. repeat split; auto; discriminate.
Qed.

Lemma emits_next_key : emits P next_key.
Proof.
  intros s. unfold next_key. destruct (keys s) as [ | k ks].
  - exists (Return (-1)%Z), s, []. rewrite app_nil_r.
    repeat split; auto; discriminate.
  - exists (Return k), (mk_State (heap s) ks (trace s)), []. simpl.
    rewrite app_nil_r. repeat split; auto; discriminate.
Qed.

Lemma emits_for_each {A : Type} (l : list A) (body : A -> M unit) :
  (forall x, emits P (body x)) -> emits P (for_each l body).
Proof.
  intros Hb. induction l as [ | x l IH]; simpl.
  - apply emits_ret.
  - apply emits_bind; auto.
Qed.

End Emits.

(** Decomposes a computation along its binds and reads each external call
    off the predicate. *)
Ltac emit_steps :=
  repeat first
    [ apply emits_ret | apply emits_raise | apply emits_alloc | apply emits_load
    | apply emits_modify | apply emits_next_key
    | apply emits_bind; [ | intros ? ]
    | apply emits_try_except; [ | intros ? ]
    | apply emits_for_each; intros ?
    | apply emits_ext; [ | intros ? ]
    | apply emits_print | apply emits_log
    | match goal with
      | |- emits _ (if ?b then _ else _) => destruct b
      | |- emits _ (match ?o with Some _ => _ | None => _ end) => destruct o
      | |- emits _ (let (_, _) := ?p in _) => destruct p
      | |- emits _ (let '(_, _) := ?p in _) => destruct p
      end ].

Section EmitsProgram.

Variable env : World.
Variable P : Entry -> Prop.

(** The calls [fix_path] makes: the lookups behind [expanduser] and
    [abspath]. *)
Hypothesis P_resolver : forall c,
  match c with
  | os_getcwd | pwd_getpwuid | pwd_getpwnam _ => True
  | _ => False
  end -> P (Done c) /\ forall e, P (Failed c e).

Lemma emits_expanduser (path : string) : emits P (expanduser env path).
Proof.
  unfold expanduser.
  destruct path as [ | a rest]; [apply emits_ret | ].
  destruct a as [[] [] [] [] [] [] [] []]; try apply emits_ret.
  destruct (PyStr.break_at PosixPath.sep rest) as [name tail].
  emit_steps; apply P_resolver; exact I.
Qed.

Lemma emits_abspath (path : string) : emits P (abspath env path).
Proof. unfold abspath. emit_steps; apply P_resolver; exact I. Qed.

Lemma emits_fix_path (path : string) : emits P (fix_path env path).
Proof.
  unfold fix_path. apply emits_bind; [apply emits_expanduser | intros p1].
  apply emits_bind; [apply emits_abspath | intros p2]. apply emits_ret.
Qed.

End EmitsProgram.

(** ** Stepping through a computation *)

Lemma bind_return {A B : Type} (c : M A) (k : A -> M B) (s s1 : State) (a : A) :
  c s = (Return a, s1) -> bind c k s = k a s1.
Proof. intros E. unfold bind. rewrite E. reflexivity. Qed.

Lemma bind_raise {A B : Type} (c : M A) (k : A -> M B) (s s1 : State) (e : Exception) :
  c s = (Raise e, s1) -> bind c k s = (Raise e, s1).
Proof. intros E. unfold bind. rewrite E. reflexivity. Qed.

Lemma ext_done (env : World) (c : Call) (s : State) :
  fault env (length (trace s)) = None -> ext env c s = (Return tt, record (Done c) s).
Proof. intros F. unfold ext. rewrite F. reflexivity. Qed.

Lemma ext_failed (env : World) (c : Call) (s : State) (e : Exception) :
  fault env (length (trace s)) = Some e -> ext env c s = (Raise e, record (Failed c e) s).
Proof. intros F. unfold ext. rewrite F. reflexivity. Qed.

Lemma create_window_done (env : World) (name : string) (w h : Z) (s : State) :
  fault env (length (trace s)) = None ->
  fault env (1 + length (trace s)) = None ->
  create_window env name w h s =
    (Return name,
     mk_State (heap s) (keys s)
       (trace s ++ [Done (cv2_namedWindow name 0); Done (cv2_resizeWindow name w h)])).
Proof.
  intros F0 F1. unfold create_window.
  rewrite (bind_return _ _ _ _ _ (ext_done env _ s F0)).
  erewrite bind_return.
  2:{ apply ext_done. unfold record; simpl. rewrite length_app, Nat.add_comm. exact F1. }
  unfold ret, record; simpl. rewrite <- app_assoc. reflexivity.
Qed.

(** ** Arrays and the heap *)

Lemma mapi_from_length {A B : Type} (f : nat -> A -> B) (l : list A) (i : nat) :
  length (mapi_from f i l) = length l.
Proof. revert i. induction l as [ | x l IH]; intros i; simpl; auto. Qed.

Lemma nth_mapi_from {A B : Type} (f : nat -> A -> B) (l : list A) (i n : nat) (d : B) (d' : A) :
  n < length l -> nth n (mapi_from f i l) d = f (i + n) (nth n l d').
Proof.
  revert i n. induction l as [ | x l IH]; intros i n H; simpl in *; [lia | ].
  destruct n as [ | n].
  - rewrite Nat.add_0_r. reflexivity.
  - rewrite IH by lia. f_equal. lia.
Qed.

Lemma nth_set_nth_same {A : Type} (l : list A) (i : nat) (x d : A) :
  i < length l -> nth i (set_nth i x l) d = x.
Proof.
  revert i. induction l as [ | y l IH]; intros i H; simpl in *; [lia | ].
  destruct i; simpl; [reflexivity | apply IH; lia].
Qed.

Lemma nth_set_nth_other {A : Type} (l : list A) (i j : nat) (x d : A) :
  i <> j -> nth j (set_nth i x l) d = nth j l d.
Proof.
  revert i j. induction l as [ | y l IH]; intros i j H; simpl.
  - destruct i; reflexivity.
  - destruct i, j; simpl; try reflexivity; try lia. apply IH. lia.
Qed.

Lemma set_nth_length {A : Type} (l : list A) (i : nat) (x : A) :
  length (set_nth i x l) = length l.
Proof.
  revert i. induction l as [ | y l IH]; intros i; simpl.
  - destruct i; reflexivity.
  - destruct i; simpl; auto.
Qed.

Lemma set_nth_last {A : Type} (l : list A) (x y : A) :
  set_nth (length l) y (l ++ [x]) = l ++ [y].
Proof. induction l as [ | z l IH]; simpl; [reflexivity | rewrite IH; reflexivity]. Qed.

Lemma nth_last {A : Type} (l : list A) (x d : A) : nth (length l) (l ++ [x]) d = x.
Proof. rewrite nth_middle. reflexivity. Qed.

Lemma run_ret {A : Type} (a : A) (s : State) : ret a s = (Return a, s).
Proof. reflexivity. Qed.

Lemma run_alloc (a : ndarray) (s : State) :
  alloc a s = (Return (length (heap s)), mk_State (heap s ++ [a]) (keys s) (trace s)).
Proof. reflexivity. Qed.

Lemma run_load (r : ref) (s : State) : load r s = (Return (nth r (heap s) nd_empty), s).
Proof. reflexivity. Qed.

Lemma run_modify (r : ref) (f : ndarray -> ndarray) (s : State) :
  modify r f s =
    (Return tt,
     mk_State (set_nth r (f (nth r (heap s) nd_empty)) (heap s)) (keys s) (trace s)).
Proof. reflexivity. Qed.

Lemma run_log (c : Call) (s : State) :
  log c s = (Return tt, mk_State (heap s) (keys s) (trace s ++ [Done c])).
Proof. reflexivity. Qed.

Lemma bind_assoc {A B C : Type} (c : M A) (k1 : A -> M B) (k2 : B -> M C) (s : State) :
  bind (bind c k1) k2 s = bind c (fun a => bind (k1 a) k2) s.
Proof. unfold bind. destruct (c s) as [[a | e | ] s1]; reflexivity. Qed.

(** One step of a computation whose head is a primitive that cannot fail. *)
Ltac step :=
  first
    [ rewrite bind_assoc
    | erewrite bind_return
        by first [ apply run_alloc | apply run_load | apply run_modify | apply run_log
                 | apply run_ret ] ];
  cbn [heap keys trace].

Ltac step_in H :=
  first
    [ rewrite bind_assoc in H
    | erewrite bind_return in H
        by first [ apply run_alloc | apply run_load | apply run_modify | apply run_log
                 | apply run_ret ] ];
  cbn [heap keys trace] in H.

(** ** The alarm player *)

(** Every run of [play_alarm]: the possible failures of its three calls. *)
Lemma play_alarm_run (env : World) (s : State) :
  exists new,
    run (play_alarm env) s = (Return tt, mk_State (heap s) (keys s) (trace s ++ new))
    /\ alarm_calls new = 1
    /\ (forall c e, In (Failed c e) new ->
          last_entry new = Some (Done (stdout ("Error playing alarm: " ++ e)%string))).
Proof.
  unfold run, play_alarm, try_except, bind, ext, print, log, record; simpl.
  destruct (fault env (length (trace s))) as [e1 | ] eqn:F1.
  { eexists [_; _]. simpl. rewrite <- app_assoc. split; [reflexivity | ].
    split; [reflexivity | ].
    intros c e [H | [H | []]]; inversion H; subst; reflexivity. }
  simpl. destruct (fault env (length (trace s ++ [_]))) as [e2 | ] eqn:F2.
  { eexists [_; _; _]. simpl. repeat rewrite <- app_assoc. split; [reflexivity | ].
    split; [reflexivity | ].
    intros c e [H | [H | [H | []]]]; inversion H; subst; reflexivity. }
  simpl. destruct (fault env (length ((trace s ++ [_]) ++ [_]))) as [e3 | ] eqn:F3.
  { eexists [_; _; _; _]. simpl. repeat rewrite <- app_assoc. split; [reflexivity | ].
    split; [reflexivity | ].
    intros c e [H | [H | [H | [H | []]]]]; inversion H; subst; reflexivity. }
  eexists [_; _; _]. simpl. repeat rewrite <- app_assoc. split; [reflexivity | ].
  split; [reflexivity | ].
  intros c e [H | [H | [H | []]]]; inversion H.
Qed.

(** C8: [play_alarm] never aborts its caller.  From every state and under
    every fault oracle it returns normally, leaves the heap and the key
    queue alone, and when one of its calls raised [e] its last action is
    to print the message of [e]. *)
Theorem play_alarm_never_raises (env : World) (s : State) :
  exists new,
    run (play_alarm env) s = (Return tt, mk_State (heap s) (keys s) (trace s ++ new))
    /\ alarm_calls new = 1
    /\ (forall c e, In (Failed c e) new ->
          last_entry new = Some (Done (stdout ("Error playing alarm: " ++ e)%string))).
Proof. exact (play_alarm_run env s). Qed.


(** ** Strings and paths *)

Example strip_example :
  PyStr.strip "  ~/My\ Videos/fire.mp4 " = "~/My\ Videos/fire.mp4".
Proof. reflexivity. Qed.

Example normpath_example :
  PosixPath.normpath "/home/u//clips/./a/../fire.mp4" = "/home/u/clips/fire.mp4".
Proof. reflexivity. Qed.

Example normpath_dotdot : PosixPath.normpath "../../x/.." = "../..".
Proof. reflexivity. Qed.

Example normpath_two_slashes : PosixPath.normpath "//a/../.." = "//".
Proof. reflexivity. Qed.

Example basename_example : PosixPath.basename "/home/u/clips/fire.mp4" = "fire.mp4".
Proof. reflexivity. Qed.

Example split_example : PyStr.split "/" "a//b/" = ["a"; EmptyString; "b"; EmptyString].
Proof. reflexivity. Qed.

Example expanduser_other_user :
  run (fix_path (Demo.world Demo.no_fault) "~root/x") (initial [])
  = (Return "/root/x", mk_State [] [] [Done (pwd_getpwnam "root")]).
Proof. reflexivity. Qed.

Example fix_path_relative :
  run (fix_path (Demo.world Demo.no_fault) "../clips/fire.jpg") (initial [])
  = (Return "/home/user/clips/fire.jpg", mk_State [] [] [Done os_getcwd]).
Proof. reflexivity. Qed.

Section Strip.

Variable f : ascii -> bool.

Lemma lstrip_by_split (s : string) :
  exists l, s = (l ++ PyStr.lstrip_by f s)%string /\ all_chars f l = true.
Proof.
  induction s as [ | c s IH]; cbn [PyStr.lstrip_by].
  - exists EmptyString. split; reflexivity.
  - destruct (f c) eqn:Fc.
    + destruct IH as (l & E & A). exists (String c l). split.
      * cbn [append]. rewrite <- E. reflexivity.
      * unfold all_chars in *. cbn [list_ascii_of_string forallb]. rewrite Fc, A.
        reflexivity.
    + exists EmptyString. split; reflexivity.
Qed.

Lemma rstrip_by_split (s : string) :
  exists r, s = (PyStr.rstrip_by f s ++ r)%string /\ all_chars f r = true.
Proof.
  induction s as [ | c s IH]; cbn [PyStr.rstrip_by].
  - exists EmptyString. split; reflexivity.
  - destruct IH as (r & E & A).
    destruct (PyStr.rstrip_by f s) as [ | d t] eqn:R.
    + cbn [append] in E. subst r. destruct (f c) eqn:Fc.
      * exists (String c s). split; [reflexivity | ].
        unfold all_chars in *. cbn [list_ascii_of_string forallb]. rewrite Fc, A.
        reflexivity.
      * exists s. split; [reflexivity | exact A].
    + exists r. split; [ | exact A]. cbn [append]. rewrite E at 1. reflexivity.
Qed.

Lemma lstrip_by_length (s : string) :
  String.length (PyStr.lstrip_by f s) <= String.length s.
Proof.
  induction s as [ | c s IH]; cbn [PyStr.lstrip_by]; [lia | ].
  destruct (f c); cbn [String.length]; lia.
Qed.

Lemma lstrip_by_idem (s : string) :
  PyStr.lstrip_by f (PyStr.lstrip_by f s) = PyStr.lstrip_by f s.
Proof.
  induction s as [ | c s IH]; cbn [PyStr.lstrip_by]; [reflexivity | ].
  destruct (f c) eqn:Fc; [exact IH | ]. cbn [PyStr.lstrip_by]. rewrite Fc. reflexivity.
Qed.

Lemma rstrip_by_idem (s : string) :
  PyStr.rstrip_by f (PyStr.rstrip_by f s) = PyStr.rstrip_by f s.
Proof.
  induction s as [ | c s IH]; cbn [PyStr.rstrip_by]; [reflexivity | ].
  destruct (PyStr.rstrip_by f s) as [ | d t] eqn:R.
  - destruct (f c) eqn:Fc; cbn [PyStr.rstrip_by]; [reflexivity | ].
    rewrite Fc. reflexivity.
  - cbn [PyStr.rstrip_by] in *. rewrite IH. reflexivity.
Qed.

(** Stripping on the right does not bring a strippable character to the
    front. *)
Lemma lstrip_by_rstrip_by (s : string) :
  PyStr.lstrip_by f s = s ->
  PyStr.lstrip_by f (PyStr.rstrip_by f s) = PyStr.rstrip_by f s.
Proof.
  destruct s as [ | c s]; [reflexivity | ]. cbn [PyStr.lstrip_by].
  destruct (f c) eqn:Fc.
  - intros E. pose proof (lstrip_by_length s) as L. rewrite E in L.
    cbn [String.length] in L. lia.
  - intros _. cbn [PyStr.rstrip_by].
    destruct (PyStr.rstrip_by f s); rewrite ?Fc; cbn [PyStr.lstrip_by]; rewrite Fc;
      reflexivity.
Qed.

End Strip.

(** [s.strip()] removes a run of whitespace at either end and leaves a
    string with no whitespace at either end. *)
Lemma strip_spec (s : string) :
  (exists l r, s = (l ++ PyStr.strip s ++ r)%string
               /\ all_chars PyStr.isspace l = true /\ all_chars PyStr.isspace r = true)
  /\ PyStr.lstrip_by PyStr.isspace (PyStr.strip s) = PyStr.strip s
  /\ PyStr.rstrip_by PyStr.isspace (PyStr.strip s) = PyStr.strip s.
Proof.
  unfold PyStr.strip. repeat split.
  - destruct (lstrip_by_split PyStr.isspace s) as (l & El & Al).
    destruct (rstrip_by_split PyStr.isspace (PyStr.lstrip_by PyStr.isspace s))
      as (r & Er & Ar).
    exists l, r. rewrite <- Er. auto.
  - apply lstrip_by_rstrip_by. apply lstrip_by_idem.
  - apply rstrip_by_idem.
Qed.

(** [s.replace(c, '')] keeps the characters other than [c], in order. *)
Lemma replace_by_empty (c : ascii) (s : string) :
  list_ascii_of_string (PyStr.replace c EmptyString s)
  = filter (fun d => negb (Ascii.eqb d c)) (list_ascii_of_string s).
Proof.
  induction s as [ | d s IH]; cbn [PyStr.replace list_ascii_of_string filter];
    [reflexivity | ].
  destruct (Ascii.eqb d c); cbn [negb append list_ascii_of_string].
  - exact IH.
  - rewrite IH. reflexivity.
Qed.

Lemma replace_by_empty_absent (c : ascii) (s : string) :
  ~ In c (list_ascii_of_string (PyStr.replace c EmptyString s)).
Proof.
  rewrite replace_by_empty. intros H. apply filter_In in H. destruct H as [_ H].
  rewrite Ascii.eqb_refl in H. discriminate H.
Qed.

Lemma normpath_isabs (p : string) :
  PosixPath.isabs p = true -> PosixPath.isabs (PosixPath.normpath p) = true.
Proof.
  unfold PosixPath.isabs, PosixPath.normpath. intros A.
  destruct p as [ | c p]; [discriminate A | ]. cbn [PyStr.is_empty].
  rewrite A.
  destruct (PyStr.startswith "//" (String c p) && negb (PyStr.startswith "///" (String c p)));
    reflexivity.
Qed.

Lemma join2_isabs (a b : string) :
  PosixPath.isabs a = true -> PosixPath.isabs (PosixPath.join2 a b) = true.
Proof.
  unfold PosixPath.isabs, PosixPath.join2. intros A.
  destruct (PyStr.startswith "/" b) eqn:B; [exact B | ].
  destruct a as [ | c a]; [discriminate A | ].
  destruct (PyStr.is_empty (String c a) || PyStr.endswith_char PosixPath.sep (String c a));
    exact A.
Qed.

(** ** The path resolver *)

Lemma fix_path_ends (env : World) (path : string) (s : State) :
  exists out s', fix_path env path s = (out, s') /\ out <> Diverge.
Proof.
  destruct (emits_fix_path env (fun _ => True)
              (fun c _ => conj I (fun _ => I)) path s)
    as (out & s' & new & E & _ & _ & D).
  exists out, s'. auto.
Qed.

(** What [check_permission] does once [fix_path] has returned [fixed]. *)
Lemma check_permission_after_fix (env : World) (path fixed : string) (s s1 : State) :
  fix_path env path s = (Return fixed, s1) ->
  check_permission env path s =
    if negb (path_exists env fixed) then
      (Return (false, None),
       mk_State (heap s1) (keys s1)
         (trace s1 ++ [Done (stdout ("Trying to access: " ++ fixed)%string);
                       Done (os_path_exists fixed);
                       Done (stdout ("File not found: " ++ fixed)%string);
                       Done (stdout "Please check if the path is correct and the file exists")]))
    else
      match fault env (2 + length (trace s1)) with
      | Some e =>
          (Return (false, None),
           mk_State (heap s1) (keys s1)
             (trace s1 ++ [Done (stdout ("Trying to access: " ++ fixed)%string);
                           Done (os_path_exists fixed);
                           Failed (os_access_R_OK fixed) e;
                           Done (stdout ("Error checking file: " ++ e)%string)]))
      | None =>
          if negb (access_R_OK env fixed) then
            (Return (false, None),
             mk_State (heap s1) (keys s1)
               (trace s1 ++ [Done (stdout ("Trying to access: " ++ fixed)%string);
                             Done (os_path_exists fixed);
                             Done (os_access_R_OK fixed);
                             Done (stdout ("Cannot access file: " ++ fixed)%string);
                             Done (stdout ("Try running: chmod +r '" ++ fixed ++ "'")%string)]))
          else
            (Return (true, Some fixed),
             mk_State (heap s1) (keys s1)
               (trace s1 ++ [Done (stdout ("Trying to access: " ++ fixed)%string);
                             Done (os_path_exists fixed);
                             Done (os_access_R_OK fixed)]))
      end.
Proof.
  intros E.
  unfold check_permission, try_except, os_path_exists_, os_access, print.
  erewrite bind_return by exact E.
  repeat step.
  destruct (path_exists env fixed); cbn [negb].
  - rewrite !bind_assoc. unfold bind at 1, ext.
    cbn [trace]. rewrite !length_app. cbn [length].
    replace (length (trace s1) + 1 + 1) with (2 + length (trace s1)) by lia.
    destruct (fault env (2 + length (trace s1))) as [e | ].
    + unfold bind, log, ret, record; cbn [heap keys trace]. rewrite <- !app_assoc.
      reflexivity.
    + unfold record; cbn [heap keys trace]. step.
      destruct (access_R_OK env fixed); cbn [negb]; repeat step;
        unfold ret; rewrite <- !app_assoc; reflexivity.
  - repeat step. unfold ret. rewrite <- !app_assoc. reflexivity.
Qed.

Lemma check_permission_fix_raises (env : World) (path : string) (e : Exception)
      (s s1 : State) :
  fix_path env path s = (Raise e, s1) ->
  check_permission env path s =
    (Return (false, None), record (Done (stdout ("Error checking file: " ++ e)%string)) s1).
Proof.
  intros E. unfold check_permission, try_except, bind. rewrite E. reflexivity.
Qed.

(** C9: no exception escapes the resolver.  For every input and every
    world, fault oracle included, [check_permission] returns a pair; the
    boolean is false exactly with a null path; it is true only with the
    normalized path, which then exists and is readable; an exception
    raised during normalization, or by the readability check, is turned
    into [(False, None)] and a printed message. *)
Theorem check_permission_no_exception (env : World) (path : string) (s : State) :
  exists b p s',
    run (check_permission env path) s = (Return (b, p), s')
    /\ (b = false -> p = None)
    /\ (b = true ->
        exists fixed s1,
          run (fix_path env path) s = (Return fixed, s1) /\ p = Some fixed
          /\ path_exists env fixed = true /\ access_R_OK env fixed = true)
    /\ (forall e s1,
          run (fix_path env path) s = (Raise e, s1) ->
          b = false
          /\ s' = record (Done (stdout ("Error checking file: " ++ e)%string)) s1)
    /\ (forall fixed s1 e,
          run (fix_path env path) s = (Return fixed, s1) ->
          path_exists env fixed = true ->
          fault env (2 + length (trace s1)) = Some e ->
          b = false
          /\ last_entry (trace s')
             = Some (Done (stdout ("Error checking file: " ++ e)%string))).
Proof.
  unfold run.
  destruct (fix_path_ends env path s) as (out & s1 & E & D).
  destruct out as [fixed | e | ]; [ | | contradiction].
  - rewrite (check_permission_after_fix env path fixed s s1 E).
    destruct (path_exists env fixed) eqn:Ex; cbn [negb];
      [destruct (fault env (2 + length (trace s1))) as [e | ] eqn:F;
         [ | destruct (access_R_OK env fixed) eqn:Ac; cbn [negb]] | ];
      (eexists _, _, _; split; [reflexivity | ]);
      (split; [intros H; try discriminate H; reflexivity | ]);
      (split; [intros H; try discriminate H | ]);
      try (split; [intros e' s2 H; rewrite E in H; discriminate H | ]);
      try (intros fixed' s2 e' H Hx Hf; rewrite E in H; injection H as <- <-).
    + rewrite F in Hf. injection Hf as <-. split; [reflexivity | ].
      unfold last_entry; cbn [trace]. rewrite rev_app_distr. reflexivity.
    + exists fixed, s1. auto.
    + rewrite F in Hf. discriminate Hf.
    + rewrite F in Hf. discriminate Hf.
    + rewrite Ex in Hx. discriminate Hx.
  - rewrite (check_permission_fix_raises env path e s s1 E).
    eexists _, _, _. split; [reflexivity | ].
    split; [reflexivity | ].
    split; [discriminate | ].
    split.
    + intros e' s2 H. rewrite E in H. inversion H. auto.
    + intros fixed s2 e' H. rewrite E in H. discriminate H.
Qed.

Lemma resolver_calls_no_window (c : Call) :
  match c with
  | os_getcwd | pwd_getpwuid | pwd_getpwnam _ => True
  | _ => False
  end ->
  is_window_call (Done c) = false /\ forall e, is_window_call (Failed c e) = false.
Proof. destruct c; intros H; try contradiction; split; reflexivity. Qed.

Lemma emits_check_permission_no_window (env : World) (path : string) :
  emits (fun en => is_window_call en = false) (check_permission env path).
Proof.
  unfold check_permission, os_path_exists_, os_access.
  apply emits_try_except; [ | intros e; emit_steps; reflexivity].
  apply emits_bind; [apply emits_fix_path; exact resolver_calls_no_window | intros fixed].
  emit_steps; reflexivity.
Qed.

(** C6: a path whose normalized form does not exist is rejected with
    [(False, None)] and the "file not found" guidance; video mode then
    returns at once, and nothing it did up to there created a window. *)
Theorem missing_path_is_rejected (env : World) (path fixed : string) (s s1 : State) :
  run (fix_path env path) s = (Return fixed, s1) ->
  path_exists env fixed = false ->
  let guidance :=
    [Done (stdout ("Trying to access: " ++ fixed)%string);
     Done (os_path_exists fixed);
     Done (stdout ("File not found: " ++ fixed)%string);
     Done (stdout "Please check if the path is correct and the file exists")] in
  let s' := mk_State (heap s1) (keys s1) (trace s1 ++ guidance) in
  run (check_permission env path) s = (Return (false, None), s')
  /\ run (process_video env path) s = (Return tt, s')
  /\ exists new, trace s' = trace s ++ new /\ Forall (fun en => is_window_call en = false) new.
Proof.
  intros E Ex guidance s'. unfold run in *.
  assert (C : check_permission env path s = (Return (false, None), s')).
  { rewrite (check_permission_after_fix env path fixed s s1 E), Ex. reflexivity. }
  split; [exact C | ]. split.
  - unfold process_video, bind. rewrite C. reflexivity.
  - destruct (emits_fix_path env (fun en => is_window_call en = false)
                resolver_calls_no_window path s)
      as (out & s2 & new & E2 & T & F & _).
    rewrite E in E2. inversion E2; subst out s2.
    exists (new ++ guidance). unfold s'; simpl. rewrite T, app_assoc. split; [reflexivity | ].
    apply Forall_app. split; [exact F | ].
    repeat constructor.
Qed.

Lemma missing_path_is_rejected_witness :
  let env := Demo.world Demo.no_fault in
  let s' := mk_State [] []
    [Done (stdout "Trying to access: /home/user/clips/missing.mp4");
     Done (os_path_exists "/home/user/clips/missing.mp4");
     Done (stdout "File not found: /home/user/clips/missing.mp4");
     Done (stdout "Please check if the path is correct and the file exists")] in
  run (check_permission env " ~/clips/missing.mp4") (initial []) = (Return (false, None), s')
  /\ run (process_video env " ~/clips/missing.mp4") (initial []) = (Return tt, s')
  /\ exists new, trace s' = trace (initial []) ++ new
                 /\ Forall (fun en => is_window_call en = false) new.
Proof.
  exact (missing_path_is_rejected (Demo.world Demo.no_fault) " ~/clips/missing.mp4"
           "/home/user/clips/missing.mp4" (initial []) (initial []) eq_refl eq_refl).
Defined.


Lemma resolver_calls_no_check (c : Call) :
  match c with
  | os_getcwd | pwd_getpwuid | pwd_getpwnam _ => True
  | _ => False
  end ->
  is_file_check (Done c) = false /\ forall e, is_file_check (Failed c e) = false.
Proof. destruct c; intros H; try contradiction; split; reflexivity. Qed.

Lemma abspath_isabs (env : World) (p r : string) (s s' : State) :
  PosixPath.isabs (cwd env) = true ->
  abspath env p s = (Return r, s') -> PosixPath.isabs r = true.
Proof.
  intros A E. unfold abspath in E.
  destruct (PosixPath.isabs p) eqn:P.
  - erewrite bind_return in E by apply run_ret. injection E as <- <-.
    apply normpath_isabs. exact P.
  - rewrite bind_assoc in E. unfold bind, ext in E.
    destruct (fault env (length (trace s))); [discriminate E | ].
    injection E as <- <-. apply normpath_isabs, join2_isabs. exact A.
Qed.

Lemma bind_ret_r {A : Type} (c : M A) (s : State) : bind c (fun a => ret a) s = c s.
Proof. unfold bind, ret. destruct (c s) as [[a | e | ] s1]; reflexivity. Qed.

(** ** Components of paths *)

Lemma split_no_sep (c : string) :
  all_chars not_sep c = true -> PyStr.split PosixPath.sep c = [c].
Proof.
  unfold all_chars, not_sep. induction c as [ | d c IH]; intros H; [reflexivity | ].
  cbn [list_ascii_of_string forallb] in H. apply andb_prop in H. destruct H as [D H].
  cbn [PyStr.split]. apply negb_true_iff in D. rewrite D, (IH H). reflexivity.
Qed.

Lemma split_app_sep (c r : string) :
  all_chars not_sep c = true ->
  PyStr.split PosixPath.sep (c ++ String PosixPath.sep r)%string
  = c :: PyStr.split PosixPath.sep r.
Proof.
  unfold all_chars, not_sep. induction c as [ | d c IH]; intros H.
  - cbn [append PyStr.split]. rewrite Ascii.eqb_refl. reflexivity.
  - cbn [list_ascii_of_string forallb] in H. apply andb_prop in H. destruct H as [D H].
    cbn [append PyStr.split]. apply negb_true_iff in D. rewrite D, (IH H). reflexivity.
Qed.

Lemma is_plain_not_sep (c : string) : is_plain c = true -> all_chars not_sep c = true.
Proof. unfold is_plain. intros H. apply andb_prop in H. apply H. Qed.

Lemma split_join (comps : list string) :
  comps <> [] ->
  Forall (fun c => is_plain c = true) comps ->
  PyStr.split PosixPath.sep (PyStr.join "/" comps) = comps.
Proof.
  induction comps as [ | c comps IH]; intros N P; [contradiction | ].
  inversion P as [ | ? ? Pc P']; subst.
  destruct comps as [ | c' comps].
  - cbn [PyStr.join]. apply split_no_sep, is_plain_not_sep, Pc.
  - change (PyStr.join "/" (c :: c' :: comps))
      with (c ++ String PosixPath.sep (PyStr.join "/" (c' :: comps)))%string.
    rewrite split_app_sep by (apply is_plain_not_sep, Pc).
    rewrite IH; [reflexivity | discriminate | exact P'].
Qed.

Lemma norm_step_plain (k : nat) (acc : list string) (c : string) :
  is_plain c = true -> PosixPath.norm_step k acc c = acc ++ [c].
Proof.
  unfold is_plain, PosixPath.norm_step. intros H.
  apply andb_prop in H. destruct H as [H _].
  apply andb_prop in H. destruct H as [H D2].
  apply andb_prop in H. destruct H as [E D1].
  apply negb_true_iff in E, D1. rewrite E, D1, D2. reflexivity.
Qed.

Lemma fold_norm_step_plain (k : nat) (comps acc : list string) :
  Forall (fun c => is_plain c = true) comps ->
  fold_left (PosixPath.norm_step k) comps acc = acc ++ comps.
Proof.
  revert acc. induction comps as [ | c comps IH]; intros acc P; cbn [fold_left].
  - rewrite app_nil_r. reflexivity.
  - inversion P as [ | ? ? Pc P']; subst.
    rewrite (norm_step_plain k acc c Pc), (IH _ P'), <- app_assoc. reflexivity.
Qed.

Lemma plain_head (c : string) :
  is_plain c = true -> exists d c', c = String d c' /\ Ascii.eqb d PosixPath.sep = false.
Proof.
  intros H. pose proof (is_plain_not_sep c H) as S. unfold is_plain in H.
  destruct c as [ | d c']; [discriminate H | ].
  exists d, c'. split; [reflexivity | ].
  unfold all_chars, not_sep in S. cbn [list_ascii_of_string forallb] in S.
  apply andb_prop in S. destruct S as [S _]. apply negb_true_iff in S. exact S.
Qed.

Lemma join_plain_relative (comps : list string) :
  Forall (fun c => is_plain c = true) comps ->
  PyStr.startswith "/" (PyStr.join "/" comps) = false.
Proof.
  intros P. destruct comps as [ | c comps]; [reflexivity | ].
  inversion P as [ | ? ? Pc P']; subst.
  destruct (plain_head c Pc) as (d & c' & -> & D).
  assert (E : exists r, PyStr.join "/" (String d c' :: comps) = String d r).
  { destruct comps; cbn [PyStr.join append]; eexists; reflexivity. }
  destruct E as [r ->]. cbn [PyStr.startswith].
  rewrite Ascii.eqb_sym. change "/"%char with PosixPath.sep. rewrite D. reflexivity.
Qed.

(** A normal absolute path is its own normal form. *)
Lemma normpath_normal (comps : list string) :
  Forall (fun c => is_plain c = true) comps ->
  PosixPath.normpath (String "/" (PyStr.join "/" comps)) = String "/" (PyStr.join "/" comps).
Proof.
  intros P. unfold PosixPath.normpath. cbn [PyStr.is_empty].
  change (PyStr.startswith "/" (String "/" (PyStr.join "/" comps))) with true.
  change (PyStr.startswith "//" (String "/" (PyStr.join "/" comps)))
    with (PyStr.startswith "/" (PyStr.join "/" comps)).
  rewrite (join_plain_relative comps P). cbn [andb].
  change (PyStr.split PosixPath.sep (String "/" (PyStr.join "/" comps)))
    with (EmptyString :: PyStr.split PosixPath.sep (PyStr.join "/" comps)).
  destruct comps as [ | c comps].
  - reflexivity.
  - rewrite split_join by (discriminate || exact P).
    remember (c :: comps) as l eqn:El.
    cbn [fold_left]. change (PosixPath.norm_step 1 [] EmptyString) with (@nil string).
    rewrite (fold_norm_step_plain 1 _ [] P). cbn [app PyStr.repeat_str append].
    subst l. reflexivity.
Qed.

Lemma append_assoc (a b c : string) : ((a ++ b) ++ c = a ++ (b ++ c))%string.
Proof. induction a as [ | d a IH]; [reflexivity | ]. cbn [append]. rewrite IH. reflexivity. Qed.

Lemma join_app (a b : list string) :
  a <> [] -> b <> [] ->
  PyStr.join "/" (a ++ b) = (PyStr.join "/" a ++ "/" ++ PyStr.join "/" b)%string.
Proof.
  intros Na Nb. induction a as [ | x a IH]; [contradiction | ].
  destruct a as [ | y a].
  - cbn [app]. destruct b; [contradiction | reflexivity].
  - change ((x :: y :: a) ++ b) with (x :: (y :: a) ++ b).
    change (PyStr.join "/" (x :: (y :: a) ++ b))
      with (x ++ "/" ++ PyStr.join "/" ((y :: a) ++ b))%string.
    rewrite IH by discriminate.
    change (PyStr.join "/" (x :: y :: a)) with (x ++ "/" ++ PyStr.join "/" (y :: a))%string.
    rewrite !append_assoc. reflexivity.
Qed.

Lemma endswith_char_app (c : ascii) (a b : string) :
  b <> EmptyString -> PyStr.endswith_char c (a ++ b)%string = PyStr.endswith_char c b.
Proof.
  intros N. induction a as [ | d a IH]; [reflexivity | ].
  cbn [append PyStr.endswith_char]. rewrite IH.
  destruct (a ++ b)%string eqn:E; [ | reflexivity].
  destruct a; [cbn [append] in E; contradiction | discriminate E].
Qed.

Lemma endswith_plain (c : string) :
  is_plain c = true -> PyStr.endswith_char PosixPath.sep c = false.
Proof.
  intros H. apply is_plain_not_sep in H. unfold all_chars, not_sep in H.
  induction c as [ | d c IH]; [reflexivity | ].
  cbn [list_ascii_of_string forallb] in H. apply andb_prop in H. destruct H as [D H].
  apply negb_true_iff in D. cbn [PyStr.endswith_char].
  destruct c; [exact D | apply IH, H].
Qed.

Lemma endswith_join_plain (comps : list string) :
  comps <> [] ->
  Forall (fun c => is_plain c = true) comps ->
  PyStr.endswith_char PosixPath.sep (String "/" (PyStr.join "/" comps)) = false.
Proof.
  intros N P.
  assert (J : PyStr.endswith_char PosixPath.sep (PyStr.join "/" comps) = false
              /\ PyStr.join "/" comps <> EmptyString).
  { induction comps as [ | c comps IH]; [contradiction | ].
    inversion P as [ | ? ? Pc P']; subst.
    destruct comps as [ | c' comps].
    - cbn [PyStr.join]. split; [apply endswith_plain, Pc | ].
      destruct (plain_head c Pc) as (d & c0 & -> & _). discriminate.
    - destruct (IH ltac:(discriminate) P') as [E Ne].
      change (PyStr.join "/" (c :: c' :: comps))
        with (c ++ ("/" ++ PyStr.join "/" (c' :: comps)))%string.
      split.
      + rewrite endswith_char_app by discriminate.
        change ("/" ++ PyStr.join "/" (c' :: comps))%string
          with (String "/" (PyStr.join "/" (c' :: comps))).
        cbn [PyStr.endswith_char].
        destruct (PyStr.join "/" (c' :: comps)); [contradiction | exact E].
      + destruct (plain_head c Pc) as (d & c0 & -> & _). discriminate. }
  destruct J as [E Ne]. cbn [PyStr.endswith_char].
  destruct (PyStr.join "/" comps); [contradiction | exact E].
Qed.

(** [join] of a normal working directory and a normal relative path. *)
Lemma join2_normal (dirs names : list string) :
  names <> [] ->
  Forall (fun c => is_plain c = true) dirs ->
  Forall (fun c => is_plain c = true) names ->
  PosixPath.join2 (String "/" (PyStr.join "/" dirs)) (PyStr.join "/" names)
  = String "/" (PyStr.join "/" (dirs ++ names)).
Proof.
  intros N Pd Pn. unfold PosixPath.join2.
  rewrite (join_plain_relative names Pn). cbn [PyStr.is_empty orb].
  destruct dirs as [ | d dirs].
  - reflexivity.
  - rewrite endswith_join_plain by (discriminate || exact Pd).
    rewrite join_app by (discriminate || exact N). reflexivity.
Qed.

Lemma split_parts_no_sep (s : string) :
  Forall (fun c => all_chars not_sep c = true) (PyStr.split PosixPath.sep s).
Proof.
  induction s as [ | d s IH]; cbn [PyStr.split].
  - repeat constructor.
  - destruct (Ascii.eqb d PosixPath.sep) eqn:D.
    + constructor; [reflexivity | exact IH].
    + destruct (PyStr.split PosixPath.sep s) as [ | w ws].
      * repeat constructor. unfold all_chars, not_sep.
        cbn [list_ascii_of_string forallb]. rewrite D. reflexivity.
      * inversion IH as [ | ? ? Hw Hws]; subst. constructor; [ | exact Hws].
        unfold all_chars, not_sep in *. cbn [list_ascii_of_string forallb].
        rewrite D, Hw. reflexivity.
Qed.

Lemma Forall_removelast {A : Type} (P : A -> Prop) (l : list A) :
  Forall P l -> Forall P (removelast l).
Proof.
  induction l as [ | x l IH]; intros H; [exact H | ].
  inversion H as [ | ? ? Hx Hl]; subst. cbn [removelast].
  destruct l; [constructor | constructor; [exact Hx | apply IH, Hl]].
Qed.

Lemma last_plain (acc : list string) :
  acc <> [] -> Forall (fun c => is_plain c = true) acc ->
  String.eqb (last acc EmptyString) ".." = false.
Proof.
  intros N P. induction acc as [ | x acc IH]; [contradiction | ].
  inversion P as [ | ? ? Hx Hacc]; subst.
  destruct acc as [ | y acc].
  - cbn [last]. unfold is_plain in Hx.
    apply andb_prop in Hx. destruct Hx as [Hx _].
    apply andb_prop in Hx. destruct Hx as [_ Hx]. apply negb_true_iff in Hx. exact Hx.
  - apply (IH ltac:(discriminate) Hacc).
Qed.

Lemma norm_step_keeps_plain (k : nat) (acc : list string) (c : string) :
  k <> 0 ->
  Forall (fun c => is_plain c = true) acc ->
  all_chars not_sep c = true ->
  Forall (fun c => is_plain c = true) (PosixPath.norm_step k acc c).
Proof.
  intros K P S. unfold PosixPath.norm_step.
  destruct (PyStr.is_empty c || String.eqb c ".") eqn:E1; [exact P | ].
  apply orb_false_elim in E1. destruct E1 as [E D1].
  destruct (String.eqb c "..") eqn:D2; cbn [negb orb].
  - apply Nat.eqb_neq in K. rewrite K. cbn [andb orb].
    destruct acc as [ | x acc]; [constructor | ].
    rewrite last_plain by (discriminate || exact P).
    apply Forall_removelast, P.
  - apply Forall_app. split; [exact P | ]. constructor; [ | constructor].
    unfold is_plain. rewrite E, D1, D2, S. reflexivity.
Qed.

Lemma fold_norm_step_keeps_plain (k : nat) (comps acc : list string) :
  k <> 0 ->
  Forall (fun c => is_plain c = true) acc ->
  Forall (fun c => all_chars not_sep c = true) comps ->
  Forall (fun c => is_plain c = true) (fold_left (PosixPath.norm_step k) comps acc).
Proof.
  intros K. revert acc. induction comps as [ | c comps IH]; intros acc P S; [exact P | ].
  inversion S as [ | ? ? Sc S']; subst. cbn [fold_left].
  apply IH; [apply norm_step_keeps_plain; assumption | exact S'].
Qed.

(** The normal form of an absolute path: one or two slashes, then plain
    components with one slash between them. *)
Lemma normpath_abs_normal (p : string) :
  PosixPath.isabs p = true ->
  exists slashes comps,
    PosixPath.normpath p = (slashes ++ PyStr.join "/" comps)%string
    /\ (slashes = "/" \/ slashes = "//")
    /\ Forall (fun c => is_plain c = true) comps.
Proof.
  unfold PosixPath.isabs, PosixPath.normpath. intros A.
  destruct p as [ | d p]; [discriminate A | ]. cbn [PyStr.is_empty]. rewrite A.
  destruct (PyStr.startswith "//" (String d p) && negb (PyStr.startswith "///" (String d p))).
  - exists "//", (fold_left (PosixPath.norm_step 2) (PyStr.split PosixPath.sep (String d p)) []).
    split; [reflexivity | ]. split; [right; reflexivity | ].
    apply fold_norm_step_keeps_plain; [discriminate | constructor | apply split_parts_no_sep].
  - exists "/", (fold_left (PosixPath.norm_step 1) (PyStr.split PosixPath.sep (String d p)) []).
    split; [reflexivity | ]. split; [left; reflexivity | ].
    apply fold_norm_step_keeps_plain; [discriminate | constructor | apply split_parts_no_sep].
Qed.

(** ** The absolute path *)

Lemma abspath_absolute (env : World) (p : string) (s : State) :
  PosixPath.isabs p = true ->
  abspath env p s = (Return (PosixPath.normpath p), s).
Proof. intros A. unfold abspath. rewrite A. reflexivity. Qed.

Lemma abspath_relative (env : World) (p : string) (s : State) :
  PosixPath.isabs p = false ->
  cwd env <> EmptyString ->
  fault env (length (trace s)) = None ->
  abspath env p s
  = (Return (PosixPath.normpath
               ((if PyStr.endswith_char "/" (cwd env) then cwd env else cwd env ++ "/")
                ++ p)%string),
     record (Done os_getcwd) s).
Proof.
  intros A N F. unfold abspath. rewrite A, bind_assoc.
  rewrite (bind_return _ _ _ _ _ (ext_done env _ s F)).
  unfold bind, ret, PosixPath.join2. unfold PosixPath.isabs in A. rewrite A.
  destruct (cwd env) as [ | d c] eqn:C; [contradiction | ]. cbn [PyStr.is_empty orb].
  unfold PosixPath.sep. destruct (PyStr.endswith_char "/" (String d c)); [reflexivity | ].
  rewrite append_assoc. reflexivity.
Qed.

Lemma abspath_result (env : World) (p r : string) (s s' : State) :
  PosixPath.isabs (cwd env) = true ->
  abspath env p s = (Return r, s') ->
  exists q, PosixPath.isabs q = true /\ r = PosixPath.normpath q.
Proof.
  intros A E. unfold abspath in E.
  destruct (PosixPath.isabs p) eqn:P.
  - erewrite bind_return in E by apply run_ret. injection E as <- <-.
    exists p. split; [exact P | reflexivity].
  - rewrite bind_assoc in E. unfold bind, ext in E.
    destruct (fault env (length (trace s))); [discriminate E | ].
    injection E as <- <-. eexists. split; [ | reflexivity]. apply join2_isabs. exact A.
Qed.

(** ** The home shorthand *)

Lemma break_at_app (name tail : string) :
  all_chars not_sep name = true ->
  tail = EmptyString \/ PyStr.startswith "/" tail = true ->
  PyStr.break_at PosixPath.sep (name ++ tail)%string = (name, tail).
Proof.
  unfold all_chars, not_sep. intros S T. induction name as [ | d name IH].
  - cbn [append]. destruct T as [-> | T]; [reflexivity | ].
    destruct tail as [ | c tail]; [discriminate T | ].
    cbn [PyStr.startswith] in T. apply andb_prop in T. destruct T as [T _].
    apply Ascii.eqb_eq in T. subst c. reflexivity.
  - cbn [list_ascii_of_string forallb] in S. apply andb_prop in S. destruct S as [D S].
    apply negb_true_iff in D. cbn [append PyStr.break_at]. rewrite D, (IH S). reflexivity.
Qed.

(** What [expanduser] does with a leading [~]: every case. *)
Lemma expanduser_tilde (env : World) (name tail : string) (k : string -> M string)
      (s : State) :
  all_chars not_sep name = true ->
  tail = EmptyString \/ PyStr.startswith "/" tail = true ->
  let cleaned := ("~" ++ name ++ tail)%string in
  let under home := PyStr.or_else (PyStr.rstrip_by (Ascii.eqb "/") home ++ tail) "/" in
  (name = EmptyString ->
   forall home, environ_HOME env = Some home ->
     bind (expanduser env cleaned) k s = k (under home) s)
  /\ (name = EmptyString ->
      environ_HOME env = None ->
      bind (expanduser env cleaned) k s
      = bind (ext env pwd_getpwuid)
          (fun _ => k (match pw_dir_uid env with
                       | Some home => under home
                       | None => cleaned
                       end)) s)
  /\ (name <> EmptyString ->
      bind (expanduser env cleaned) k s
      = bind (ext env (pwd_getpwnam name))
          (fun _ => k (match pw_dir_nam env name with
                       | Some home => under home
                       | None => cleaned
                       end)) s).
Proof.
  intros S T cleaned under. subst cleaned.
  change ("~" ++ name ++ tail)%string with (String "~" (name ++ tail)).
  unfold expanduser. rewrite (break_at_app name tail S T).
  split; [ | split].
  - intros -> home H. cbn [PyStr.is_empty]. rewrite H.
    rewrite bind_assoc. erewrite bind_return by apply run_ret.
    erewrite bind_return by apply run_ret. reflexivity.
  - intros -> H. cbn [PyStr.is_empty]. rewrite H. rewrite !bind_assoc.
    destruct (fault env (length (trace s))) as [e | ] eqn:F.
    + rewrite !(bind_raise _ _ _ _ _ (ext_failed env _ s e F)). reflexivity.
    + rewrite !(bind_return _ _ _ _ _ (ext_done env _ s F)).
      erewrite bind_return by apply run_ret.
      destruct (pw_dir_uid env); erewrite bind_return by apply run_ret; reflexivity.
  - intros N. destruct name as [ | d name]; [contradiction | ]. cbn [PyStr.is_empty].
    rewrite !bind_assoc.
    destruct (fault env (length (trace s))) as [e | ] eqn:F.
    + rewrite !(bind_raise _ _ _ _ _ (ext_failed env _ s e F)). reflexivity.
    + rewrite !(bind_return _ _ _ _ _ (ext_done env _ s F)).
      erewrite bind_return by apply run_ret.
      destruct (pw_dir_nam env (String d name)); erewrite bind_return by apply run_ret;
        reflexivity.
Qed.

Lemma expanduser_no_tilde (env : World) (p : string) (s : State) :
  PyStr.startswith "~" p = false -> expanduser env p s = (Return p, s).
Proof.
  intros H. unfold expanduser. destruct p as [ | d p]; [reflexivity | ].
  cbn [PyStr.startswith] in H. rewrite andb_true_r in H.
  destruct (Ascii.eqb_spec "~"%char d) as [<- | N]; [discriminate H | ].
  destruct d as [[] [] [] [] [] [] [] []]; try reflexivity. contradiction N. reflexivity.
Qed.

Lemma lstrip_by_fixed_head (f : ascii -> bool) (c : ascii) (rest : string) :
  PyStr.lstrip_by f (String c rest) = String c rest -> f c = false.
Proof.
  cbn [PyStr.lstrip_by]. destruct (f c); [ | reflexivity]. intros H.
  pose proof (lstrip_by_length f rest) as L. rewrite H in L. cbn [String.length] in L. lia.
Qed.

Lemma rstrip_by_fixed_last (f : ascii -> bool) (init : string) (c : ascii) :
  PyStr.rstrip_by f (init ++ String c EmptyString)%string
  = (init ++ String c EmptyString)%string ->
  f c = false.
Proof.
  induction init as [ | d init IH]; cbn [append PyStr.rstrip_by].
  - destruct (f c); [discriminate | reflexivity].
  - destruct (PyStr.rstrip_by f (init ++ String c EmptyString)) as [ | x r] eqn:R.
    + intros H. destruct (f d); [discriminate H | ].
      injection H as H. destruct init; discriminate H.
    + intros H. injection H as H. apply IH. exact H.
Qed.

(** The trimmed string has no whitespace at either end. *)
Lemma strip_ends (s : string) :
  (forall c rest, PyStr.strip s = String c rest -> PyStr.isspace c = false)
  /\ (forall init c, PyStr.strip s = (init ++ String c EmptyString)%string ->
                     PyStr.isspace c = false).
Proof.
  destruct (strip_spec s) as (_ & L & R). split.
  - intros c rest E. rewrite E in L. apply (lstrip_by_fixed_head _ _ _ L).
  - intros init c E. rewrite E in R. apply (rstrip_by_fixed_last _ _ _ R).
Qed.

(** Every string with a leading [~] is [~], a name without a slash, and a
    tail that is empty or starts with a slash. *)
Lemma tilde_decompose (p : string) :
  PyStr.startswith "~" p = true ->
  exists name tail,
    p = ("~" ++ name ++ tail)%string
    /\ all_chars not_sep name = true
    /\ (tail = EmptyString \/ PyStr.startswith "/" tail = true).
Proof.
  destruct p as [ | t rest]; [discriminate | ]. cbn [PyStr.startswith].
  rewrite andb_true_r. intros H. apply Ascii.eqb_eq in H. subst t.
  assert (D : exists name tail,
             rest = (name ++ tail)%string
             /\ all_chars not_sep name = true
             /\ (tail = EmptyString \/ PyStr.startswith "/" tail = true)).
  { induction rest as [ | d rest IH].
    - exists EmptyString, EmptyString. auto.
    - destruct (Ascii.eqb d PosixPath.sep) eqn:D.
      + apply Ascii.eqb_eq in D. subst d. exists EmptyString, (String PosixPath.sep rest).
        split; [reflexivity | ]. split; [reflexivity | right; reflexivity].
      + destruct IH as (name & tail & -> & S & T). exists (String d name), tail.
        split; [reflexivity | ]. split; [ | exact T].
        unfold all_chars, not_sep in *. cbn [list_ascii_of_string forallb].
        rewrite D, S. reflexivity. }
  destruct D as (name & tail & -> & S & T). exists name, tail. auto.
Qed.

Lemma rstrip_by_keep (c : ascii) (a : string) :
  PyStr.endswith_char c a = false ->
  a <> EmptyString ->
  PyStr.rstrip_by (Ascii.eqb c) a = a.
Proof.
  induction a as [ | d a IH]; intros E N; [contradiction | ].
  cbn [PyStr.rstrip_by]. destruct a as [ | d' a].
  - cbn [PyStr.endswith_char] in E. cbn [PyStr.rstrip_by].
    rewrite Ascii.eqb_sym, E. reflexivity.
  - cbn [PyStr.endswith_char] in E. rewrite IH by (exact E || discriminate). reflexivity.
Qed.

Lemma append_nil_r (a : string) : (a ++ EmptyString)%string = a.
Proof. induction a as [ | d a IH]; [reflexivity | ]. cbn [append]. rewrite IH. reflexivity. Qed.

(** The home shorthand under a normal home directory. *)
Lemma under_normal_home (dirs names : list string) :
  Forall (fun c => is_plain c = true) dirs ->
  Forall (fun c => is_plain c = true) names ->
  PyStr.or_else
    (PyStr.rstrip_by (Ascii.eqb "/") (String "/" (PyStr.join "/" dirs))
     ++ match names with
        | [] => EmptyString
        | _ => String "/" (PyStr.join "/" names)
        end) "/"
  = String "/" (PyStr.join "/" (dirs ++ names)).
Proof.
  intros Pd Pn. destruct dirs as [ | d dirs].
  - cbn [PyStr.join PyStr.rstrip_by Ascii.eqb Bool.eqb app append].
    destruct names; reflexivity.
  - rewrite rstrip_by_keep;
      [ | apply (endswith_join_plain (d :: dirs)); [discriminate | exact Pd] | discriminate].
    destruct names as [ | n names].
    + rewrite append_nil_r, app_nil_r. reflexivity.
    + rewrite join_app by discriminate. reflexivity.
Qed.

(** The whitespace characters below 256: TAB, LF, VT, FF, CR, FS, GS, RS,
    US, SPACE, NEL and NBSP. *)
Lemma isspace_codes (c : ascii) :
  PyStr.isspace c
  = existsb (Nat.eqb (nat_of_ascii c)) [9; 10; 11; 12; 13; 28; 29; 30; 31; 32; 133; 160].
Proof. destruct c as [[] [] [] [] [] [] [] []]; reflexivity. Qed.

(** Two leading slashes are kept, three or more are one. *)
Lemma normpath_slashes (comps : list string) :
  comps <> [] ->
  Forall (fun c => is_plain c = true) comps ->
  PosixPath.normpath ("//" ++ PyStr.join "/" comps) = ("//" ++ PyStr.join "/" comps)%string
  /\ PosixPath.normpath ("///" ++ PyStr.join "/" comps) = String "/" (PyStr.join "/" comps).
Proof.
  intros N P. pose proof (join_plain_relative comps P) as R.
  pose proof (split_join comps N P) as S.
  split; unfold PosixPath.normpath; cbn [append PyStr.is_empty].
  - change (PyStr.startswith "/" (String "/" (String "/" (PyStr.join "/" comps))))
      with true.
    change (PyStr.startswith "//" (String "/" (String "/" (PyStr.join "/" comps))))
      with true.
    change (PyStr.startswith "///" (String "/" (String "/" (PyStr.join "/" comps))))
      with (PyStr.startswith "/" (PyStr.join "/" comps)).
    rewrite R. cbn [negb andb].
    change (PyStr.split PosixPath.sep (String "/" (String "/" (PyStr.join "/" comps))))
      with (EmptyString :: EmptyString :: PyStr.split PosixPath.sep (PyStr.join "/" comps)).
    rewrite S. remember comps as l eqn:El in |- *. cbn [fold_left].
    change (PosixPath.norm_step 2 [] EmptyString) with (@nil string).
    subst l. rewrite (fold_norm_step_plain _ _ [] P). reflexivity.
  - change (PyStr.startswith "/"
              (String "/" (String "/" (String "/" (PyStr.join "/" comps))))) with true.
    change (PyStr.startswith "//"
              (String "/" (String "/" (String "/" (PyStr.join "/" comps))))) with true.
    change (PyStr.startswith "///"
              (String "/" (String "/" (String "/" (PyStr.join "/" comps))))) with true.
    cbn [negb andb].
    change (PyStr.split PosixPath.sep
              (String "/" (String "/" (String "/" (PyStr.join "/" comps)))))
      with (EmptyString :: EmptyString :: EmptyString
            :: PyStr.split PosixPath.sep (PyStr.join "/" comps)).
    rewrite S. remember comps as l eqn:El in |- *. cbn [fold_left].
    change (PosixPath.norm_step 1 [] EmptyString) with (@nil string).
    subst l. rewrite (fold_norm_step_plain _ _ [] P). reflexivity.
Qed.

(** C5: [fix_path] trims, removes the backslashes, expands the home
    shorthand and makes the path absolute, in this order.  The trimmed
    string is the input without the whitespace at its two ends, and has
    none left there (whitespace being the twelve characters below 256
    that Python counts as such); the
    cleaned string is the trimmed one without its backslashes; [fix_path]
    is [expanduser] and then [abspath] of the cleaned string.  A cleaned
    string without a leading [~] goes to [abspath] as it is.  A cleaned
    string [~] or [~/rest] resolves as the home directory of the user
    followed by the rest, when that directory is known: it is [HOME], or
    the entry of the user in the password database when [HOME] is unset;
    [~name] or [~name/rest] resolves as the home directory of the user
    [name] when the password database knows that user; in the other cases
    the [~] is kept.  With a normal home directory in [HOME], [~] comes out
    as that directory and [~/] followed by plain names as the names under
    it.  An absolute path is normalized; a relative one is put
    after the working directory, with one slash between them, and
    normalized.  When the working directory is absolute the result is
    absolute and normal: one or two slashes, then components that are
    neither empty nor [.] nor [..].  A relative path of plain names comes
    out under a normal working directory with nothing else changed, and a
    normal absolute path comes out as it is, also with two slashes at its
    start, while three are made one.  The existence and
    readability checks of [check_permission] come after all this and are
    about the normalized path. *)
Theorem fix_path_normalizes (env : World) (path : string) (s : State) :
  let stripped := PyStr.strip path in
  let cleaned := PyStr.replace PyStr.backslash EmptyString stripped in
  (* trimming *)
  ((exists l r, path = (l ++ stripped ++ r)%string
                /\ all_chars PyStr.isspace l = true /\ all_chars PyStr.isspace r = true)
   /\ PyStr.lstrip_by PyStr.isspace stripped = stripped
   /\ PyStr.rstrip_by PyStr.isspace stripped = stripped)
  /\ ((forall c rest, stripped = String c rest -> PyStr.isspace c = false)
      /\ (forall init c, stripped = (init ++ String c EmptyString)%string ->
                         PyStr.isspace c = false)
      /\ (forall c, PyStr.isspace c
                    = existsb (Nat.eqb (nat_of_ascii c))
                        [9; 10; 11; 12; 13; 28; 29; 30; 31; 32; 133; 160]))
  (* backslashes *)
  /\ (list_ascii_of_string cleaned
      = filter (fun d => negb (Ascii.eqb d PyStr.backslash)) (list_ascii_of_string stripped)
      /\ ~ In PyStr.backslash (list_ascii_of_string cleaned))
  (* then the home shorthand, then the absolute path *)
  /\ run (fix_path env path) s
     = run (expanded <- expanduser env cleaned ;; abspath env expanded) s
  (* the home shorthand: no leading ~, and every case of a leading ~ *)
  /\ (PyStr.startswith "~" cleaned = false ->
      run (fix_path env path) s = run (abspath env cleaned) s)
  /\ (PyStr.startswith "~" cleaned = true ->
      exists name tail,
        cleaned = ("~" ++ name ++ tail)%string
        /\ all_chars not_sep name = true
        /\ (tail = EmptyString \/ PyStr.startswith "/" tail = true))
  /\ (forall name tail,
        cleaned = ("~" ++ name ++ tail)%string ->
        all_chars not_sep name = true ->
        tail = EmptyString \/ PyStr.startswith "/" tail = true ->
        let under home :=
          PyStr.or_else (PyStr.rstrip_by (Ascii.eqb "/") home ++ tail) "/" in
        (name = EmptyString ->
         forall home, environ_HOME env = Some home ->
           run (fix_path env path) s = run (abspath env (under home)) s)
        /\ (name = EmptyString ->
            environ_HOME env = None ->
            run (fix_path env path) s
            = run (ext env pwd_getpwuid ;;
                   abspath env (match pw_dir_uid env with
                                | Some home => under home
                                | None => cleaned
                                end)) s)
        /\ (name <> EmptyString ->
            run (fix_path env path) s
            = run (ext env (pwd_getpwnam name) ;;
                   abspath env (match pw_dir_nam env name with
                                | Some home => under home
                                | None => cleaned
                                end)) s))
  (* the home directory of the user, when it is a normal path *)
  /\ (forall dirs,
        cleaned = "~" ->
        environ_HOME env = Some (String "/" (PyStr.join "/" dirs)) ->
        Forall (fun c => is_plain c = true) dirs ->
        run (fix_path env path) s = (Return (String "/" (PyStr.join "/" dirs)), s))
  /\ (forall names dirs,
        cleaned = ("~/" ++ PyStr.join "/" names)%string ->
        names <> [] ->
        Forall (fun c => is_plain c = true) names ->
        environ_HOME env = Some (String "/" (PyStr.join "/" dirs)) ->
        Forall (fun c => is_plain c = true) dirs ->
        run (fix_path env path) s
        = (Return (String "/" (PyStr.join "/" (dirs ++ names))), s))
  (* the absolute path: of an absolute path, and of a relative one *)
  /\ (forall p s0,
        PosixPath.isabs p = true ->
        run (abspath env p) s0 = (Return (PosixPath.normpath p), s0))
  /\ (forall p s0,
        PosixPath.isabs p = false ->
        cwd env <> EmptyString ->
        fault env (length (trace s0)) = None ->
        run (abspath env p) s0
        = (Return (PosixPath.normpath
                     ((if PyStr.endswith_char "/" (cwd env) then cwd env
                       else cwd env ++ "/") ++ p)%string),
           record (Done os_getcwd) s0))
  (* the result is absolute and normal when the working directory is absolute *)
  /\ (PosixPath.isabs (cwd env) = true ->
      forall fixed s1,
        run (fix_path env path) s = (Return fixed, s1) ->
        PosixPath.isabs fixed = true
        /\ exists slashes comps,
             fixed = (slashes ++ PyStr.join "/" comps)%string
             /\ (slashes = "/" \/ slashes = "//")
             /\ Forall (fun c => is_plain c = true) comps)
  (* plain names: under the working directory, or unchanged *)
  /\ (forall names dirs,
        cleaned = PyStr.join "/" names ->
        names <> [] ->
        Forall (fun c => is_plain c = true) names ->
        PyStr.startswith "~" cleaned = false ->
        cwd env = String "/" (PyStr.join "/" dirs) ->
        Forall (fun c => is_plain c = true) dirs ->
        fault env (length (trace s)) = None ->
        run (fix_path env path) s
        = (Return (String "/" (PyStr.join "/" (dirs ++ names))), record (Done os_getcwd) s))
  /\ (forall names,
        cleaned = String "/" (PyStr.join "/" names) ->
        Forall (fun c => is_plain c = true) names ->
        run (fix_path env path) s = (Return cleaned, s))
  /\ (forall names,
        names <> [] ->
        Forall (fun c => is_plain c = true) names ->
        (cleaned = ("//" ++ PyStr.join "/" names)%string ->
         run (fix_path env path) s = (Return cleaned, s))
        /\ (cleaned = ("///" ++ PyStr.join "/" names)%string ->
            run (fix_path env path) s = (Return (String "/" (PyStr.join "/" names)), s)))
  (* the file checks come after, and are about the normalized path *)
  /\ (forall fixed s1,
        run (fix_path env path) s = (Return fixed, s1) ->
        exists before result s2 after,
          trace s1 = trace s ++ before
          /\ Forall (fun en => is_file_check en = false) before
          /\ run (check_permission env path) s = (Return result, s2)
          /\ trace s2 = trace s1 ++ after
          /\ Forall (fun en => is_file_check en = true -> checked_path en = Some fixed) after).
Proof.
  intros stripped cleaned. unfold run.
  split; [apply strip_spec | ].
  split; [split; [apply strip_ends | split; [apply strip_ends | apply isspace_codes]] | ].
  split; [split; [apply replace_by_empty | apply replace_by_empty_absent] | ].
  assert (Eq : fix_path env path s
               = bind (expanduser env cleaned) (fun expanded => abspath env expanded) s).
  { unfold fix_path. fold stripped. fold cleaned. unfold bind at 1 3.
    destruct (expanduser env cleaned s) as [[p | e | ] s1]; try reflexivity.
    apply bind_ret_r. }
  assert (NoTilde : PyStr.startswith "~" cleaned = false ->
                    fix_path env path s = abspath env cleaned s).
  { intros H. rewrite Eq.
    apply (bind_return _ _ _ _ _ (expanduser_no_tilde env cleaned s H)). }
  split; [exact Eq | ].
  split; [exact NoTilde | ].
  split; [apply tilde_decompose | ].
  split.
  { intros name tail Hc S T. rewrite Eq, Hc.
    exact (expanduser_tilde env name tail (fun expanded => abspath env expanded) s S T). }
  assert (Home : forall names dirs,
             cleaned = ("~" ++ EmptyString
                        ++ match names with
                           | [] => EmptyString
                           | _ => String "/" (PyStr.join "/" names)
                           end)%string ->
             Forall (fun c => is_plain c = true) names ->
             environ_HOME env = Some (String "/" (PyStr.join "/" dirs)) ->
             Forall (fun c => is_plain c = true) dirs ->
             fix_path env path s
             = (Return (String "/" (PyStr.join "/" (dirs ++ names))), s)).
  { intros names dirs Hc Pn Hh Pd. rewrite Eq, Hc.
    destruct (expanduser_tilde env EmptyString
                (match names with
                 | [] => EmptyString
                 | _ => String "/" (PyStr.join "/" names)
                 end) (fun expanded => abspath env expanded) s eq_refl
                ltac:(destruct names; [left | right]; reflexivity)) as (H1 & _).
    rewrite (H1 eq_refl _ Hh), (under_normal_home dirs names Pd Pn).
    rewrite abspath_absolute by reflexivity.
    rewrite normpath_normal by (apply Forall_app; split; assumption). reflexivity. }
  split.
  { intros dirs Hc Hh Pd.
    rewrite (Home [] dirs Hc (Forall_nil _) Hh Pd), app_nil_r. reflexivity. }
  split.
  { intros names dirs Hc N Pn Hh Pd. apply (Home names dirs); try assumption.
    rewrite Hc. destruct names; [contradiction | reflexivity]. }
  split; [intros p s0; apply abspath_absolute | ].
  split; [intros p s0; apply abspath_relative | ].
  split.
  { intros A fixed s1 E. rewrite Eq in E. unfold bind in E.
    destruct (expanduser env cleaned s) as [[p | e | ] s0]; try discriminate E.
    split; [apply (abspath_isabs env p fixed s0 s1 A E) | ].
    destruct (abspath_result env p fixed s0 s1 A E) as (q & Q & ->).
    apply normpath_abs_normal, Q. }
  split.
  { intros names dirs Hc N Pn T C Pd F. rewrite (NoTilde T).
    rewrite abspath_relative;
      [ | rewrite Hc; apply join_plain_relative, Pn | rewrite C; discriminate | exact F].
    f_equal. f_equal.
    assert (J : ((if PyStr.endswith_char "/" (cwd env) then cwd env else cwd env ++ "/")
                 ++ cleaned)%string
                = PosixPath.join2 (cwd env) cleaned).
    { unfold PosixPath.join2. rewrite Hc at 2. rewrite (join_plain_relative names Pn).
      rewrite C. cbn [PyStr.is_empty orb]. unfold PosixPath.sep.
      destruct (PyStr.endswith_char "/" (String "/" (PyStr.join "/" dirs)));
        [reflexivity | apply append_assoc]. }
    rewrite J, C, Hc, (join2_normal dirs names N Pd Pn).
    apply normpath_normal. apply Forall_app. split; assumption. }
  split.
  { intros names Hc Pn.
    assert (T : PyStr.startswith "~" cleaned = false) by (rewrite Hc; reflexivity).
    rewrite (NoTilde T), abspath_absolute by (rewrite Hc; reflexivity).
    rewrite Hc, (normpath_normal names Pn). reflexivity. }
  split.
  { intros names N Pn. destruct (normpath_slashes names N Pn) as [N2 N3].
    split; intros Hc;
      (assert (T : PyStr.startswith "~" cleaned = false) by (rewrite Hc; reflexivity));
      rewrite (NoTilde T), abspath_absolute by (rewrite Hc; reflexivity); rewrite Hc.
    - rewrite N2. reflexivity.
    - rewrite N3. reflexivity. }
  intros fixed s1 E.
  destruct (emits_fix_path env (fun en => is_file_check en = false)
              resolver_calls_no_check path s) as (o & s0 & before & E0 & T & F & _).
  rewrite E in E0. injection E0 as <- <-.
  rewrite (check_permission_after_fix env path fixed s s1 E).
  destruct (path_exists env fixed); cbn [negb];
    [destruct (fault env (2 + length (trace s1)));
       [ | destruct (access_R_OK env fixed); cbn [negb]] | ];
    (eexists before, _, _, _; split; [exact T | ]; split; [exact F | ];
     split; [reflexivity | ]; split; [reflexivity | ];
     repeat (apply Forall_cons;
             [unfold is_file_check, checked_path; cbn [call_of]; intros H;
              first [reflexivity | discriminate H] | ]);
     apply Forall_nil).
Qed.

Lemma fix_path_normalizes_witness :
  let env := Demo.world Demo.no_fault in
  run (fix_path env "  ~/My\ Clips/../cli\ps/fire.mp4 ") (initial [])
  = (Return "/home/user/clips/fire.mp4", initial []).
Proof.
  intros env.
  destruct (fix_path_normalizes env "  ~/My\ Clips/../cli\ps/fire.mp4 " (initial []))
    as (_ & _ & _ & _ & _ & _ & H & _).
  destruct (H EmptyString "/My Clips/../clips/fire.mp4" eq_refl eq_refl
              (or_intror eq_refl)) as (H1 & _).
  rewrite (H1 eq_refl "/home/user" eq_refl).
  reflexivity.
Defined.

(** C5 as stated fails: not every leading [~] resolves to the home
    directory.  Where the home directory is /home/user, the working
    directory /home/user/firealarm and the password database knows root
    only, [~nobody/x.mp4] keeps its [~] and comes out under the working
    directory, and [~root/x.mp4] comes out under the home directory of
    root. *)
Lemma fix_path_tilde_not_home :
  let env := Demo.world Demo.no_fault in
  environ_HOME env = Some "/home/user"
  /\ cwd env = "/home/user/firealarm"
  /\ run (fix_path env "~nobody/x.mp4") (initial [])
     = (Return "/home/user/firealarm/~nobody/x.mp4",
        mk_State [] [] [Done (pwd_getpwnam "nobody"); Done os_getcwd])
  /\ run (fix_path env "~root/x.mp4") (initial [])
     = (Return "/root/x.mp4", mk_State [] [] [Done (pwd_getpwnam "root")]).
Proof. vm_compute. auto. Qed.

(** ** Image mode *)

(** C10: in image mode the window exists before the image is decoded.
    When validation passes, the window calls succeed and the file does not
    decode, [process_image] prints the error and returns: after validation
    the trace holds the two window calls, the decoding and the error
    message, and no call that destroys the window.  When validation fails,
    [process_image] returns in the state validation left, and nothing in
    its trace is a window call. *)
Theorem image_decode_failure_leaves_window (env : World) (path fixed : string)
        (s s1 : State) :
  run (check_permission env path) s = (Return (true, Some fixed), s1) ->
  fault env (length (trace s1)) = None ->
  fault env (1 + length (trace s1)) = None ->
  fault env (3 + length (trace s1)) = None ->
  image_file env fixed = None ->
  run (process_image env path) s =
    (Return tt,
     mk_State (heap s1) (keys s1)
       (trace s1 ++
        [Done (cv2_namedWindow "Fire and Smoke Detection System" 0);
         Done (cv2_resizeWindow "Fire and Smoke Detection System" 1280 720);
         Done (stdout ("Loading image from: " ++ fixed)%string);
         Done (cv2_imread fixed);
         Done (stdout ("Error: Unable to load image from " ++ fixed)%string)]))
  /\ forall path' p s0 s0',
       run (check_permission env path') s0 = (Return (false, p), s0') ->
       run (process_image env path') s0 = (Return tt, s0')
       /\ exists new, trace s0' = trace s0 ++ new
                      /\ Forall (fun en => is_window_call en = false) new.
Proof.
  unfold run. intros C F0 F1 F3 Img. split.
  - unfold process_image. rewrite (bind_return _ _ _ _ _ C). cbv iota beta.
    rewrite (bind_return _ _ _ _ _ (create_window_done env _ _ _ s1 F0 F1)).
    unfold try_except, print.
    erewrite bind_return; [ | reflexivity].
    unfold imread.
    erewrite bind_return.
    2:{ erewrite bind_return.
        2:{ apply ext_done. unfold record; simpl. repeat rewrite length_app. simpl length.
            replace (length (trace s1) + 2 + 1) with (3 + length (trace s1)) by lia.
            exact F3. }
        rewrite Img. reflexivity. }
    unfold log, record; simpl. repeat rewrite <- app_assoc. reflexivity.
  - intros path' p s0 s0' C'. split.
    + unfold process_image. rewrite (bind_return _ _ _ _ _ C'). reflexivity.
    + destruct (emits_check_permission_no_window env path' s0)
        as (o & s2 & new & C2 & T & W & _).
      rewrite C' in C2. injection C2 as <- <-. exists new. auto.
Qed.

Lemma image_decode_failure_leaves_window_witness :
  let env := Demo.world Demo.no_fault in
  run (process_image env "~/clips/notes.txt") (initial []) =
    (Return tt,
     mk_State [] []
       [Done (stdout "Trying to access: /home/user/clips/notes.txt");
        Done (os_path_exists "/home/user/clips/notes.txt");
        Done (os_access_R_OK "/home/user/clips/notes.txt");
        Done (cv2_namedWindow "Fire and Smoke Detection System" 0);
        Done (cv2_resizeWindow "Fire and Smoke Detection System" 1280 720);
        Done (stdout "Loading image from: /home/user/clips/notes.txt");
        Done (cv2_imread "/home/user/clips/notes.txt");
        Done (stdout "Error: Unable to load image from /home/user/clips/notes.txt")]).
Proof.
  exact (proj1 (image_decode_failure_leaves_window (Demo.world Demo.no_fault)
                  "~/clips/notes.txt" "/home/user/clips/notes.txt" (initial []) _
                  eq_refl eq_refl eq_refl eq_refl eq_refl)).
Defined.

(** An image with a detection: one alarm, then the window is closed on the
    escape key. *)
Example process_image_detection :
  exists s',
    run (process_image (Demo.world Demo.no_fault) "../clips/fire.jpg")
        (initial [(-1)%Z; 27%Z]) = (Return tt, s')
    /\ alarm_calls (trace s') = 1
    /\ last_entry (trace s') = Some (Done cv2_destroyAllWindows).
Proof.
  eexists. split; [vm_compute; reflexivity | ]. split; vm_compute; reflexivity.
Qed.

(** Without the escape key the poll of [process_image] never ends. *)
Example process_image_waits_for_escape :
  fst (run (process_image (Demo.world Demo.no_fault) "../clips/fire.jpg")
           (initial [(-1)%Z; 13%Z])) = Diverge.
Proof. vm_compute. reflexivity. Qed.

(** ** The overlay renderer *)

(** What one call of [add_status_bar] does, step by step. *)
Lemma add_status_bar_run (env : World) (image : ref) (text : string) (alert : bool)
      (s : State) :
  image < length (heap s) ->
  let img := nth image (heap s) nd_empty in
  let w := nd_w img in
  let size := fst (getTextSize env text 0 1%Q 2) in
  let org := ((Z.of_nat w - fst size) / 2, (60 + snd size) / 2)%Z in
  let bg := if alert then BGR_red else BGR_green in
  let fg := if alert then BGR_white else BGR_black in
  let bar := nd_draw (text_ink env text 0 1%Q 2) (fst org) (snd org) fg
               (nd_fill bg (np_zeros 60 w)) in
  add_status_bar env image text alert s =
    (Return (S (length (heap s))),
     mk_State (heap s ++ [bar; mk_ndarray w (nd_rows img ++ nd_rows bar)]) (keys s)
       (trace s ++ [Done (cv2_putText (length (heap s)) text org 0 1%Q fg 2)])).
Proof.
  intros V img w size org bg fg bar.
  unfold add_status_bar, putText, np_vstack, FONT_HERSHEY_SIMPLEX.
  step. fold img. fold w. step.
  destruct alert; repeat step;
    repeat (rewrite nth_last || rewrite set_nth_last);
    rewrite (app_nth1 _ _ nd_empty V); fold img; fold w;
    match goal with
    | |- context [(?a =? nd_w ?b)%nat] => change (nd_w b) with a
    end;
    rewrite Nat.eqb_refl, run_alloc; cbn [heap keys trace];
    rewrite length_app, Nat.add_comm, <- app_assoc; reflexivity.
Qed.

Lemma pixel_draw (ink : Z -> Z -> bool) (x y : Z) (col : Pixel) (a : ndarray) (c r : nat) :
  r < nd_h a -> c < length (nth r (nd_rows a) []) ->
  pixel (nd_draw ink x y col a) c r =
    if ink (Z.of_nat c - x)%Z (Z.of_nat r - y)%Z then col else pixel a c r.
Proof.
  intros Hr Hc. unfold pixel, nd_draw; cbn [nd_rows].
  rewrite (nth_mapi_from _ _ 0 r [] []) by exact Hr.
  rewrite (nth_mapi_from _ _ 0 c _ (0, 0, 0)%Z) by exact Hc.
  reflexivity.
Qed.

Lemma map_const_repeat {A B : Type} (b : B) (x : A) (n : nat) :
  map (fun _ => b) (repeat x n) = repeat b n.
Proof. induction n as [ | n IH]; simpl; [reflexivity | rewrite IH; reflexivity]. Qed.

Lemma bar_rows (b : Pixel) (w : nat) :
  nd_rows (nd_fill b (np_zeros 60 w)) = repeat (repeat b w) 60.
Proof.
  unfold nd_fill, np_zeros; cbn [nd_rows nd_w].
  rewrite <- (map_const_repeat b (0, 0, 0)%Z w).
  generalize 60. intros n. induction n as [ | n IH]; simpl; [reflexivity | ].
  rewrite IH. reflexivity.
Qed.

(** The picture of the status bar: text colour where the text is inked,
    background elsewhere. *)
Lemma pixel_status_bar (ink : Z -> Z -> bool) (x y : Z) (bg fg : Pixel) (w c r : nat) :
  r < 60 -> c < w ->
  pixel (nd_draw ink x y fg (nd_fill bg (np_zeros 60 w))) c r =
    if ink (Z.of_nat c - x)%Z (Z.of_nat r - y)%Z then fg else bg.
Proof.
  intros Hr Hc.
  assert (R : nth r (nd_rows (nd_fill bg (np_zeros 60 w))) [] = repeat bg w).
  { rewrite bar_rows. apply nth_repeat_lt. exact Hr. }
  rewrite pixel_draw.
  - unfold pixel. rewrite R, nth_repeat_lt by exact Hc. reflexivity.
  - unfold nd_h. rewrite bar_rows, repeat_length. exact Hr.
  - rewrite R, repeat_length. exact Hc.
Qed.

Lemma status_bar_height (ink : Z -> Z -> bool) (x y : Z) (bg fg : Pixel) (w : nat) :
  length (nd_rows (nd_draw ink x y fg (nd_fill bg (np_zeros 60 w)))) = 60.
Proof.
  unfold nd_draw; cbn [nd_rows]. rewrite mapi_from_length, bar_rows, repeat_length.
  reflexivity.
Qed.

Lemma Forall_mapi_from {A B : Type} (Q : B -> Prop) (f : nat -> A -> B) (l : list A) (i : nat) :
  (forall j x, In x l -> Q (f j x)) -> Forall Q (mapi_from f i l).
Proof.
  revert i. induction l as [ | x l IH]; intros i H; simpl; constructor.
  - apply H. left. reflexivity.
  - apply IH. intros j y Hy. apply H. right. exact Hy.
Qed.

Lemma status_bar_wf (ink : Z -> Z -> bool) (x y : Z) (bg fg : Pixel) (w : nat) :
  Forall (fun row => length row = w)
         (nd_rows (nd_draw ink x y fg (nd_fill bg (np_zeros 60 w)))).
Proof.
  unfold nd_draw; cbn [nd_rows]. apply Forall_mapi_from.
  intros j row Hin. rewrite mapi_from_length.
  rewrite bar_rows in Hin. apply repeat_spec in Hin. subst row. apply repeat_length.
Qed.

(** C7: [add_status_bar] returns an image of height h + 60 and width w
    whose top h rows are the input image and whose bottom 60 rows are the
    bar: text colour where the status text is inked and background colour
    elsewhere, red and white when [is_alert], green and black otherwise. *)
Theorem add_status_bar_appends_bar (env : World) (image : ref) (text : string)
        (is_alert : bool) (s : State) :
  image < length (heap s) ->
  let img := nth image (heap s) nd_empty in
  let h := nd_h img in
  let w := nd_w img in
  let bg := if is_alert then BGR_red else BGR_green in
  let fg := if is_alert then BGR_white else BGR_black in
  exists out s',
    run (add_status_bar env image text is_alert) s = (Return out, s')
    /\ let res := nth out (heap s') nd_empty in
       nd_h res = h + 60
       /\ nd_w res = w
       /\ (nd_wf img -> nd_wf res)
       /\ firstn h (nd_rows res) = nd_rows img
       /\ exists x y,
            In (Done (cv2_putText (length (heap s)) text (x, y) 0 1%Q fg 2)) (trace s')
            /\ forall r c, r < 60 -> c < w ->
                 pixel res c (h + r) =
                   if text_ink env text 0 1%Q 2 (Z.of_nat c - x)%Z (Z.of_nat r - y)%Z
                   then fg else bg.
Proof.
  intros V img h w bg fg. unfold run.
  rewrite (add_status_bar_run env image text is_alert s V).
  fold img. fold w. fold bg. fold fg.
  eexists _, _. split; [reflexivity | ]. cbn [heap trace].
  cbv zeta.
  replace (S (length (heap s))) with (length (heap s) + 1) by lia.
  rewrite app_nth2_plus. cbn [nth nd_rows nd_w].
  repeat split.
  - unfold nd_h; cbn [nd_rows]. rewrite length_app, status_bar_height. reflexivity.
  - intros Wf. unfold nd_wf; cbn [nd_rows nd_w]. apply Forall_app. split.
    + exact Wf.
    + apply status_bar_wf.
  - unfold h, nd_h. rewrite firstn_app, Nat.sub_diag, firstn_all. cbn [firstn].
    apply app_nil_r.
  - eexists _, _. split.
    + apply in_or_app. right. left. reflexivity.
    + intros r c Hr Hc. unfold pixel at 1. cbn [nd_rows].
      unfold h, nd_h. rewrite app_nth2_plus.
      apply (pixel_status_bar _ _ _ bg fg w c r Hr Hc).
Qed.

Lemma add_status_bar_appends_bar_witness :
  let env := Demo.world Demo.no_fault in
  let s := mk_State [Demo.dark] [] [] in
  exists out s',
    run (add_status_bar env 0 "No Fire Detected" false) s = (Return out, s')
    /\ let res := nth out (heap s') nd_empty in
       nd_h res = 32 + 60
       /\ nd_w res = 16
       /\ (nd_wf Demo.dark -> nd_wf res)
       /\ firstn 32 (nd_rows res) = nd_rows Demo.dark
       /\ exists x y,
            In (Done (cv2_putText 1 "No Fire Detected" (x, y) 0 1%Q BGR_black 2)) (trace s')
            /\ forall r c, r < 60 -> c < 16 ->
                 pixel res c (32 + r) =
                   if Demo.block_ink "No Fire Detected" 0 1%Q 2
                        (Z.of_nat c - x)%Z (Z.of_nat r - y)%Z
                   then BGR_black else BGR_green.
Proof.
  exact (add_status_bar_appends_bar (Demo.world Demo.no_fault) 0 "No Fire Detected" false
           (mk_State [Demo.dark] [] []) (le_n 1)).
Defined.

(** C4: the status text is drawn at the horizontal position
    (barWidth - measuredTextWidth) / 2, rounded down, where the bar is as
    wide as the image and the width of the text is the one
    [cv2.getTextSize] measures. *)
Theorem status_text_is_centered (env : World) (image : ref) (text : string)
        (is_alert : bool) (s : State) :
  image < length (heap s) ->
  let w := nd_w (nth image (heap s) nd_empty) in
  let text_width := fst (fst (getTextSize env text 0 1%Q 2)) in
  exists out s' bar y color,
    run (add_status_bar env image text is_alert) s = (Return out, s')
    /\ nd_w (nth bar (heap s') nd_empty) = w
    /\ trace s' = trace s ++
         [Done (cv2_putText bar text ((Z.of_nat w - text_width) / 2, y)%Z 0 1%Q color 2)].
Proof.
  intros V w text_width. unfold run.
  rewrite (add_status_bar_run env image text is_alert s V).
  eexists _, _, (length (heap s)), _, _. split; [reflexivity | ].
  cbn [heap trace]. split; [ | reflexivity].
  replace (length (heap s)) with (length (heap s) + 0) at 1 by lia.
  rewrite app_nth2_plus. reflexivity.
Qed.

Lemma status_text_is_centered_witness :
  exists out s' bar y color,
    run (add_status_bar (Demo.world Demo.no_fault) 0 "FIRE/SMOKE DETECTED!" true)
        (mk_State [Demo.dark] [] []) = (Return out, s')
    /\ nd_w (nth bar (heap s') nd_empty) = 16
    /\ trace s' = [Done (cv2_putText bar "FIRE/SMOKE DETECTED!" ((16 - 20) / 2, y)%Z
                          0 1%Q color 2)].
Proof.
  exact (status_text_is_centered (Demo.world Demo.no_fault) 0 "FIRE/SMOKE DETECTED!" true
           (mk_State [Demo.dark] [] []) (le_n 1)).
Defined.

Lemma set_nth_set_nth {A : Type} (l : list A) (i : nat) (x y : A) :
  set_nth i y (set_nth i x l) = set_nth i y l.
Proof.
  revert i. induction l as [ | z l IH]; intros i; simpl.
  - destruct i; reflexivity.
  - destruct i; simpl; [reflexivity | rewrite IH; reflexivity].
Qed.

Lemma set_nth_nth_id {A : Type} (l : list A) (i : nat) (d : A) :
  set_nth i (nth i l d) l = l.
Proof.
  revert i. induction l as [ | z l IH]; intros i; simpl.
  - destruct i; reflexivity.
  - destruct i; simpl; [reflexivity | rewrite IH; reflexivity].
Qed.

Lemma overlay_lines_run (env : World) (image : ref) (lines : list (nat * string)) :
  forall s, image < length (heap s) ->
  exists new,
    for_each lines (fun '(i, line) =>
      let y := (30 + Z.of_nat i * 25)%Z in
      putText env image line (10%Z, y) FONT_HERSHEY_SIMPLEX (6 # 10)%Q
              (255, 255, 255)%Z (1 + 1)%Z ;;
      putText env image line (10%Z, y) FONT_HERSHEY_SIMPLEX (6 # 10)%Q
              (0, 0, 0)%Z 1%Z) s =
    (Return tt,
     mk_State (set_nth image (fold_left (overlay_line env) lines
                                (nth image (heap s) nd_empty)) (heap s))
              (keys s) (trace s ++ new))
    /\ Forall is_putText new.
Proof.
  induction lines as [ | [i line] lines IH]; intros s V.
  - exists []. cbn [for_each fold_left]. rewrite set_nth_nth_id, app_nil_r.
    destruct s; split; [reflexivity | constructor].
  - cbn [for_each]. unfold putText at 1 2. repeat step.
    rewrite nth_set_nth_same by exact V. rewrite set_nth_set_nth.
    match goal with
    | |- context [for_each lines ?body ?st] =>
        destruct (IH st) as (new & E & F);
        [cbn [heap]; rewrite set_nth_length; exact V | ]
    end.
    eexists. split.
    + etransitivity; [exact E | ]. cbn [heap keys trace].
      rewrite nth_set_nth_same by exact V. rewrite set_nth_set_nth.
      rewrite <- !app_assoc. reflexivity.
    + repeat constructor. exact F.
Qed.

Lemma add_info_overlay_run (env : World) (image : ref) (info_text : string) (s : State) :
  image < length (heap s) ->
  exists new,
    add_info_overlay env image info_text s =
      (Return image,
       mk_State (set_nth image (overlay_picture env info_text (nth image (heap s) nd_empty))
                         (heap s))
                (keys s) (trace s ++ new))
    /\ Forall is_putText new.
Proof.
  intros V. unfold add_info_overlay.
  destruct (overlay_lines_run env image (enumerate (PyStr.split PyStr.LF info_text)) s V)
    as (new & E & F).
  exists new. split; [ | exact F].
  erewrite bind_return by exact E. reflexivity.
Qed.


Lemma alarm_calls_app (t u : list Entry) :
  alarm_calls (t ++ u) = alarm_calls t + alarm_calls u.
Proof. unfold alarm_calls. rewrite filter_app, length_app. reflexivity. Qed.

Lemma alarm_calls_putText (t : list Entry) : Forall is_putText t -> alarm_calls t = 0.
Proof.
  induction 1 as [ | en t H _ IH]; [reflexivity | ].
  destruct en as [[] | ]; try contradiction. exact IH.
Qed.

(** [add_status_bar_run] with the text origin kept abstract. *)
Lemma add_status_bar_run_at (env : World) (image : ref) (text : string) (is_alert : bool)
      (s : State) :
  image < length (heap s) ->
  exists x y : Z,
    add_status_bar env image text is_alert s =
      (Return (S (length (heap s))),
       mk_State
         (heap s ++
          [nd_draw (text_ink env text 0 1%Q 2) x y
             (if is_alert then BGR_white else BGR_black)
             (nd_fill (if is_alert then BGR_red else BGR_green)
                (np_zeros 60 (nd_w (nth image (heap s) nd_empty))));
           mk_ndarray (nd_w (nth image (heap s) nd_empty))
             (nd_rows (nth image (heap s) nd_empty) ++
              nd_rows
                (nd_draw (text_ink env text 0 1%Q 2) x y
                   (if is_alert then BGR_white else BGR_black)
                   (nd_fill (if is_alert then BGR_red else BGR_green)
                      (np_zeros 60 (nd_w (nth image (heap s) nd_empty))))))])
         (keys s)
         (trace s ++
          [Done (cv2_putText (length (heap s)) text (x, y) 0 1%Q
                   (if is_alert then BGR_white else BGR_black) 2)])).
Proof.
  intros V. eexists _, _. exact (add_status_bar_run env image text is_alert s V).
Qed.




(** C3 (as the code has it): [add_status_bar] returns a new image and
    leaves every image that existed before, its input included, as it was;
    [add_info_overlay] returns the very image it was given, allocates
    nothing, and that image now holds the drawn text; no other image
    changes. *)
Theorem rendering_effects_on_input (env : World) (image : ref)
        (status_text info_text : string) (is_alert : bool) (s : State) :
  image < length (heap s) ->
  (exists out s',
     run (add_status_bar env image status_text is_alert) s = (Return out, s')
     /\ length (heap s) <= out < length (heap s')
     /\ forall r, r < length (heap s) -> nth r (heap s') nd_empty = nth r (heap s) nd_empty)
  /\ (exists s',
        run (add_info_overlay env image info_text) s = (Return image, s')
        /\ length (heap s') = length (heap s)
        /\ nth image (heap s') nd_empty
           = overlay_picture env info_text (nth image (heap s) nd_empty)
        /\ forall r, r <> image -> nth r (heap s') nd_empty = nth r (heap s) nd_empty).
Proof.
  intros V. unfold run. split.
  - destruct (add_status_bar_run_at env image status_text is_alert s V) as (x & y & E).
    rewrite E. eexists _, _. split; [reflexivity | ]. cbn [heap].
    split.
    + rewrite length_app. cbn [length]. lia.
    + intros r Hr. apply app_nth1. exact Hr.
  - destruct (add_info_overlay_run env image info_text s V) as (new & E & _).
    rewrite E. eexists. split; [reflexivity | ]. cbn [heap].
    split; [apply set_nth_length | ]. split.
    + apply nth_set_nth_same. exact V.
    + intros r Hr. apply nth_set_nth_other. auto.
Qed.

Lemma rendering_effects_on_input_witness :
  let env := Demo.world Demo.no_fault in
  let s := mk_State [Demo.dark] [] [] in
  (exists out s',
     run (add_status_bar env 0 "No Fire Detected" false) s = (Return out, s')
     /\ 1 <= out < length (heap s')
     /\ forall r, r < 1 -> nth r (heap s') nd_empty = nth r (heap s) nd_empty)
  /\ (exists s',
        run (add_info_overlay env 0 "File: fire.mp4") s = (Return 0, s')
        /\ length (heap s') = 1
        /\ nth 0 (heap s') nd_empty = overlay_picture env "File: fire.mp4" Demo.dark
        /\ forall r, r <> 0 -> nth r (heap s') nd_empty = nth r (heap s) nd_empty).
Proof.
  exact (rendering_effects_on_input (Demo.world Demo.no_fault) 0 "No Fire Detected"
           "File: fire.mp4" false (mk_State [Demo.dark] [] []) (le_n 1)).
Defined.

(** C3 as stated fails: on a black 32 x 16 image, [add_info_overlay]
    returns the reference it was given, allocates no image, and the pixel
    at column 10, row 29 of that image has turned from black to white. *)
Lemma add_info_overlay_changes_input :
  let env := Demo.world Demo.no_fault in
  let s := mk_State [Demo.dark] [] [] in
  exists s',
    run (add_info_overlay env 0 "File: fire.mp4") s = (Return 0, s')
    /\ length (heap s') = length (heap s)
    /\ pixel (nth 0 (heap s) nd_empty) 10 29 = (0, 0, 0)%Z
    /\ pixel (nth 0 (heap s') nd_empty) 10 29 = (255, 255, 255)%Z.
Proof.
  eexists. split; [vm_compute; reflexivity | ]. vm_compute. auto.
Qed.

(** ** Detection on one frame *)




(** ** Video mode *)

Lemma emits_play_alarm (env : World) : emits (fun _ => True) (play_alarm env).
Proof. unfold play_alarm. emit_steps; exact I. Qed.

Lemma emits_putText (env : World) img text org font scale color thickness :
  emits (fun _ => True) (putText env img text org font scale color thickness).
Proof. unfold putText. emit_steps; exact I. Qed.

Lemma emits_add_status_bar (env : World) image text is_alert :
  emits (fun _ => True) (add_status_bar env image text is_alert).
Proof.
  unfold add_status_bar, np_vstack.
  apply emits_bind; [apply emits_load | intros img].
  apply emits_bind; [apply emits_alloc | intros bar].
  apply emits_bind; [destruct is_alert; emit_steps | intros color].
  apply emits_bind; [apply emits_putText | intros _].
  emit_steps.
Qed.

Lemma emits_add_info_overlay (env : World) image info_text :
  emits (fun _ => True) (add_info_overlay env image info_text).
Proof.
  unfold add_info_overlay.
  apply emits_bind; [ | intros _; apply emits_ret].
  apply emits_for_each. intros [i line].
  apply emits_bind; [apply emits_putText | intros _; apply emits_putText].
Qed.

Lemma emits_detect_and_annotate (env : World) frame info_text :
  emits (fun _ => True) (detect_and_annotate env frame info_text).
Proof.
  unfold detect_and_annotate, model, plot.
  apply emits_bind; [emit_steps; exact I | intros res].
  apply emits_bind; [emit_steps; exact I | intros annotated].
  apply emits_bind; [apply emits_add_info_overlay | intros annotated'].
  destruct (0 <? length (boxes res))%nat.
  - apply emits_bind; [apply emits_add_status_bar | intros display].
    apply emits_bind; [apply emits_play_alarm | intros _; apply emits_ret].
  - apply emits_add_status_bar.
Qed.

Lemma emits_video_loop (env : World) (fixed_path window_name : string)
      (frames : list ndarray) :
  forall frame_count,
    emits (fun _ => True) (video_loop env fixed_path window_name frames frame_count).
Proof.
  induction frames as [ | a frames IH]; intros frame_count; cbn [video_loop].
  - emit_steps; exact I.
  - apply emits_bind; [emit_steps; exact I | intros _].
    apply emits_bind; [apply emits_alloc | intros frame].
    apply emits_bind; [apply emits_detect_and_annotate | intros display].
    apply emits_bind; [unfold imshow; emit_steps; exact I | intros _].
    apply emits_bind; [unfold waitKey; emit_steps; exact I | intros key].
    destruct (key =? 27)%Z; [apply emits_ret | apply IH].
Qed.

Lemma window_created_app (t u : list Entry) :
  window_created (t ++ u) = window_created t || window_created u.
Proof. apply existsb_app. Qed.

Lemma handler_entered_app (t u : list Entry) :
  handler_entered (t ++ u) = handler_entered t || handler_entered u.
Proof. apply existsb_app. Qed.

Lemma open_failed_app (t u : list Entry) :
  open_failed (t ++ u) = open_failed t || open_failed u.
Proof. apply existsb_app. Qed.

Lemma no_window_call_not_created (t : list Entry) :
  Forall (fun en => is_window_call en = false) t -> window_created t = false.
Proof.
  induction 1 as [ | en t H _ IH]; [reflexivity | ].
  unfold window_created in *. cbn [existsb]. rewrite IH, orb_false_r.
  destruct en as [[] | ]; try reflexivity. discriminate H.
Qed.

(** The [try] block of [process_video] either raises, or reports that the
    capture did not open, or ends with the release of the capture and the
    destruction of the windows. *)
Lemma video_try_cases (env : World) (fixed_path window_name : string) (s : State) :
  exists o s1 new,
    (ext env (cv2_VideoCapture fixed_path) ;;
     let cap := video_file env fixed_path in
     ext env cap_isOpened ;;
     match cap with
     | None => print ("Error: Unable to open video from " ++ fixed_path)
     | Some frames =>
         video_loop env fixed_path window_name frames 0 ;;
         ext env cap_release ;;
         ext env cv2_destroyAllWindows
     end) s = (o, s1)
    /\ trace s1 = trace s ++ new
    /\ match o with
       | Return _ =>
           open_failed new = true
           \/ exists pre, new = pre ++ [Done cap_release; Done cv2_destroyAllWindows]
       | Raise _ => True
       | Diverge => False
       end.
Proof.
  cbv zeta.
  destruct (fault env (length (trace s))) as [e0 | ] eqn:F0.
  { erewrite bind_raise by (apply ext_failed; exact F0).
    eexists _, _, [_]. split; [reflexivity | ]. split; [reflexivity | exact I]. }
  erewrite bind_return by (apply ext_done; exact F0).
  match goal with
  | |- context [bind (ext env cap_isOpened) _ ?st] =>
      destruct (fault env (length (trace st))) as [e1 | ] eqn:F1
  end.
  { erewrite bind_raise by (apply ext_failed; exact F1).
    eexists _, _, [_; _]. split; [reflexivity | ]. unfold record; cbn [trace].
    rewrite <- app_assoc. split; [reflexivity | exact I]. }
  erewrite bind_return by (apply ext_done; exact F1).
  unfold record at 1 2; cbn [heap keys trace].
  destruct (video_file env fixed_path) as [frames | ].
  2:{ unfold print, log, record; cbn [heap keys trace].
      eexists _, _, [_; _; _]. split; [reflexivity | ]. cbn [trace].
      rewrite <- !app_assoc. split; [reflexivity | ]. left. reflexivity. }
  match goal with
  | |- context [bind (video_loop env fixed_path window_name frames 0) _ ?st] =>
      destruct (emits_video_loop env fixed_path window_name frames 0 st)
        as (o1 & s2 & newl & L & T & _ & D)
  end.
  cbn [trace] in T.
  destruct o1 as [[] | e | ]; [ | | contradiction].
  2:{ erewrite bind_raise by exact L.
      eexists _, _, _. split; [reflexivity | ]. rewrite T, <- !app_assoc.
      split; [reflexivity | exact I]. }
  erewrite bind_return by exact L.
  destruct (fault env (length (trace s2))) as [e2 | ] eqn:F2.
  { erewrite bind_raise by (apply ext_failed; exact F2).
    eexists _, _, _. split; [reflexivity | ]. unfold record; cbn [trace].
    rewrite T, <- !app_assoc. split; [reflexivity | exact I]. }
  erewrite bind_return by (apply ext_done; exact F2).
  match goal with
  | |- context [ext env cv2_destroyAllWindows ?st] =>
      destruct (fault env (length (trace st))) as [e3 | ] eqn:F3
  end.
  { rewrite (ext_failed env _ _ _ F3).
    eexists _, _, _. split; [reflexivity | ]. unfold record; cbn [trace].
    rewrite T, <- !app_assoc. split; [reflexivity | exact I]. }
  rewrite (ext_done env _ _ F3).
  eexists _, _, _. split; [reflexivity | ]. unfold record; cbn [trace].
  rewrite T, <- !app_assoc. split; [reflexivity | ].
  right. exists ([Done (cv2_VideoCapture fixed_path); Done cap_isOpened] ++ newl).
  rewrite <- !app_assoc. reflexivity.
Qed.

(** C1 (as the code has it): when video mode gets as far as its window
    and the run then ends without the capture failing to open and without
    the handler of the mode being entered, that is at the end of the
    stream or on the escape key, [process_video] returns normally and its
    last two actions are the release of the capture and the destruction
    of the windows. *)
Theorem process_video_closes_on_normal_end (env : World) (video_path : string)
        (s s' : State) (out : Outcome unit) :
  run (process_video env video_path) s = (out, s') ->
  exists new,
    trace s' = trace s ++ new
    /\ (window_created new = true ->
        open_failed new = false ->
        handler_entered new = false ->
        out = Return tt
        /\ exists pre, new = pre ++ [Done cap_release; Done cv2_destroyAllWindows]).
Proof.
  unfold run, process_video. intros E.
  destruct (emits_check_permission_no_window env video_path s)
    as (o & s1 & new1 & C & T1 & W1 & _).
  apply no_window_call_not_created in W1.
  destruct o as [[b p] | e | ].
  2:{ erewrite bind_raise in E by exact C. injection E as <- <-.
      exists new1. split; [exact T1 | ]. intros H. rewrite W1 in H. discriminate H. }
  2:{ unfold bind in E. rewrite C in E. injection E as <- <-.
      exists new1. split; [exact T1 | ]. intros H. rewrite W1 in H. discriminate H. }
  erewrite bind_return in E by exact C.
  destruct b; [destruct p as [fixed_path | ] | ].
  2,3: injection E as <- <-; exists new1; (split; [exact T1 | ]);
       intros H; rewrite W1 in H; discriminate H.
  unfold create_window in E. rewrite !bind_assoc in E.
  destruct (fault env (length (trace s1))) as [e0 | ] eqn:F0.
  { erewrite bind_raise in E by (apply ext_failed; exact F0). injection E as <- <-.
    exists (new1 ++ [Failed (cv2_namedWindow default_window_name WINDOW_NORMAL) e0]).
    unfold record; cbn [trace]. rewrite T1, <- app_assoc. split; [reflexivity | ].
    intros H. rewrite window_created_app, W1 in H. discriminate H. }
  erewrite bind_return in E by (apply ext_done; exact F0).
  rewrite !bind_assoc in E.
  match type of E with
  | bind (ext env ?c) _ ?st = _ =>
      destruct (fault env (length (trace st))) as [e1 | ] eqn:F1
  end.
  { erewrite bind_raise in E by (apply ext_failed; exact F1). injection E as <- <-.
    exists (new1 ++ [Done (cv2_namedWindow default_window_name WINDOW_NORMAL);
                     Failed (cv2_resizeWindow default_window_name default_width
                               default_height) e1]).
    unfold record; cbn [trace]. rewrite T1, <- !app_assoc. split; [reflexivity | ].
    intros H. rewrite window_created_app, W1 in H. discriminate H. }
  erewrite bind_return in E by (apply ext_done; exact F1).
  step_in E. unfold try_except in E.
  match type of E with
  | context [bind (ext env (cv2_VideoCapture _)) _ ?st] =>
      destruct (video_try_cases env fixed_path default_window_name st)
        as (o2 & s2 & new2 & B & T2 & H2)
  end.
  cbv zeta in B. rewrite B in E.
  unfold record in T2; cbn [trace] in T2. rewrite T1, <- !app_assoc in T2.
  destruct o2 as [[] | e | ]; [ | | contradiction].
  - injection E as <- <-. eexists. split; [exact T2 | ].
    intros _ Ho _. split; [reflexivity | ].
    destruct H2 as [H2 | (pre & H2)].
    + rewrite !open_failed_app, H2, !orb_true_r in Ho. discriminate Ho.
    + eexists. rewrite H2, !app_assoc. reflexivity.
  - unfold print, log, record in E; cbn [heap keys trace] in E. injection E as <- <-.
    cbn [trace]. rewrite T2, <- !app_assoc. eexists. split; [reflexivity | ].
    intros _ _ Hh. rewrite !handler_entered_app in Hh.
    cbn in Hh. rewrite !orb_true_r in Hh. discriminate Hh.
Qed.

Lemma process_video_closes_on_normal_end_witness :
  exists pre s',
    run (process_video (Demo.world Demo.no_fault) " ~/cli\ps/fire.mp4 ")
        (initial [(-1)%Z; 27%Z]) = (Return tt, s')
    /\ trace s' = pre ++ [Done cap_release; Done cv2_destroyAllWindows].
Proof.
  pose (r := run (process_video (Demo.world Demo.no_fault) " ~/cli\ps/fire.mp4 ")
                 (initial [(-1)%Z; 27%Z])).
  destruct (process_video_closes_on_normal_end (Demo.world Demo.no_fault)
              " ~/cli\ps/fire.mp4 " (initial [(-1)%Z; 27%Z]) (snd r) (fst r)
              (surjective_pairing r))
    as (new & T & H).
  cbn [initial trace app] in T.
  destruct H as (Ho & pre & Hp).
  - rewrite <- T. vm_compute. reflexivity.
  - rewrite <- T. vm_compute. reflexivity.
  - rewrite <- T. vm_compute. reflexivity.
  - exists pre, (snd r). split.
    + rewrite <- Ho. apply surjective_pairing.
    + rewrite T. exact Hp.
Defined.

(** The stream ends before any key is pressed: the same closing. *)
Example process_video_end_of_stream :
  exists s',
    run (process_video (Demo.world Demo.no_fault) "~/clips/fire.mp4") (initial [])
      = (Return tt, s')
    /\ alarm_calls (trace s') = 1
    /\ skipn (length (trace s') - 3) (trace s')
       = [Done cap_read; Done cap_release; Done cv2_destroyAllWindows].
Proof.
  eexists. split; [vm_compute; reflexivity | ].
  split; vm_compute; reflexivity.
Qed.

(** C1 as stated fails: the model raises on the first frame; the handler
    of the mode prints the error and [process_video] returns, with the
    window created and the capture opened, and neither the release of the
    capture nor the destruction of the windows was executed. *)
Lemma process_video_error_skips_release :
  exists s',
    run (process_video (Demo.world (Demo.fault_at 8 "CUDA error")) "~/clips/fire.mp4")
        (initial [(-1)%Z; 27%Z]) = (Return tt, s')
    /\ trace s' =
         [Done (stdout "Trying to access: /home/user/clips/fire.mp4");
          Done (os_path_exists "/home/user/clips/fire.mp4");
          Done (os_access_R_OK "/home/user/clips/fire.mp4");
          Done (cv2_namedWindow "Fire and Smoke Detection System" 0);
          Done (cv2_resizeWindow "Fire and Smoke Detection System" 1280 720);
          Done (cv2_VideoCapture "/home/user/clips/fire.mp4");
          Done cap_isOpened;
          Done cap_read;
          Failed (model_call 0) "CUDA error";
          Done (stdout "Error processing video: CUDA error")]
    /\ ~ In (Done cap_release) (trace s')
    /\ ~ In (Done cv2_destroyAllWindows) (trace s').
Proof.
  eexists. split; [vm_compute; reflexivity | ]. cbn [trace].
  split; [reflexivity | ].
  split; intros H; repeat (destruct H as [H | H]; [discriminate H | ]); exact H.
Qed.

(** ** Further properties of the resolver *)

(** X1: a path that exists but is not readable is rejected with
    [(False, None)], after the check of its existence, with the message
    that names the file and the [chmod] hint. *)
Theorem check_permission_unreadable (env : World) (path fixed : string) (s s1 : State) :
  run (fix_path env path) s = (Return fixed, s1) ->
  path_exists env fixed = true ->
  fault env (2 + length (trace s1)) = None ->
  access_R_OK env fixed = false ->
  run (check_permission env path) s =
    (Return (false, None),
     mk_State (heap s1) (keys s1)
       (trace s1 ++ [Done (stdout ("Trying to access: " ++ fixed)%string);
                     Done (os_path_exists fixed);
                     Done (os_access_R_OK fixed);
                     Done (stdout ("Cannot access file: " ++ fixed)%string);
                     Done (stdout ("Try running: chmod +r '" ++ fixed ++ "'")%string)])).
Proof.
  unfold run. intros E Ex F Ac.
  rewrite (check_permission_after_fix env path fixed s s1 E), Ex, F, Ac. reflexivity.
Qed.

(** X2: a path that exists and is readable is accepted: the result is
    [True] with the normalized path, and nothing is printed but the line
    that names the path. *)
Theorem check_permission_accepts (env : World) (path fixed : string) (s s1 : State) :
  run (fix_path env path) s = (Return fixed, s1) ->
  path_exists env fixed = true ->
  fault env (2 + length (trace s1)) = None ->
  access_R_OK env fixed = true ->
  run (check_permission env path) s =
    (Return (true, Some fixed),
     mk_State (heap s1) (keys s1)
       (trace s1 ++ [Done (stdout ("Trying to access: " ++ fixed)%string);
                     Done (os_path_exists fixed);
                     Done (os_access_R_OK fixed)])).
Proof.
  unfold run. intros E Ex F Ac.
  rewrite (check_permission_after_fix env path fixed s s1 E), Ex, F, Ac. reflexivity.
Qed.

Lemma lstrip_by_all (f : ascii -> bool) (s : string) :
  all_chars f s = true -> PyStr.lstrip_by f s = EmptyString.
Proof.
  unfold all_chars. induction s as [ | c s IH]; cbn [list_ascii_of_string forallb PyStr.lstrip_by];
    [reflexivity | ].
  intros H. apply andb_prop in H. destruct H as [Hc Hs]. rewrite Hc. apply IH. exact Hs.
Qed.

Lemma strip_blank (s : string) :
  all_chars PyStr.isspace s = true -> PyStr.strip s = EmptyString.
Proof. intros H. unfold PyStr.strip. rewrite (lstrip_by_all _ _ H). reflexivity. Qed.

Lemma split_not_nil (c : ascii) (s : string) : PyStr.split c s <> [].
Proof.
  induction s as [ | d s IH]; cbn [PyStr.split]; [discriminate | ].
  destruct (Ascii.eqb d c); [discriminate | ].
  destruct (PyStr.split c s); [contradiction | discriminate].
Qed.

Lemma split_trailing_sep (c : ascii) (s : string) :
  PyStr.split c (s ++ String c EmptyString)%string = PyStr.split c s ++ [EmptyString].
Proof.
  induction s as [ | d s IH]; cbn [append PyStr.split].
  - rewrite Ascii.eqb_refl. reflexivity.
  - destruct (Ascii.eqb d c); [rewrite IH; reflexivity | ].
    rewrite IH. pose proof (split_not_nil c s) as N.
    destruct (PyStr.split c s) as [ | w ws]; [contradiction | reflexivity].
Qed.

Lemma startswith_slashes_trailing (n : nat) (a : string) :
  PyStr.is_empty a = false ->
  PyStr.endswith_char "/" a = false ->
  PyStr.startswith (PyStr.repeat_str "/" n) (a ++ "/")%string
  = PyStr.startswith (PyStr.repeat_str "/" n) a.
Proof.
  revert n. induction a as [ | c a IH]; intros n E S; [discriminate E | ].
  destruct n as [ | n]; [reflexivity | ].
  cbn [PyStr.repeat_str append PyStr.startswith].
  destruct a as [ | d a].
  - cbn [PyStr.endswith_char] in S. rewrite Ascii.eqb_sym, S. reflexivity.
  - f_equal. apply IH; [reflexivity | exact S].
Qed.

Lemma normpath_trailing_sep (a : string) :
  PyStr.is_empty a = false ->
  PyStr.endswith_char "/" a = false ->
  PosixPath.normpath (a ++ "/")%string = PosixPath.normpath a.
Proof.
  intros E S. unfold PosixPath.normpath, PosixPath.sep.
  rewrite E. destruct a as [ | c a]; [discriminate E | ]. cbn [append PyStr.is_empty].
  change (String c (a ++ "/")%string) with (String c a ++ "/")%string.
  rewrite (startswith_slashes_trailing 1 _ E S : PyStr.startswith "/" _ = _).
  rewrite (startswith_slashes_trailing 2 _ E S : PyStr.startswith "//" _ = _).
  rewrite (startswith_slashes_trailing 3 _ E S : PyStr.startswith "///" _ = _).
  rewrite (split_trailing_sep "/" (String c a)), fold_left_app.
  reflexivity.
Qed.

Lemma join2_empty (a : string) :
  PyStr.is_empty a = false ->
  PosixPath.normpath (PosixPath.join2 a EmptyString) = PosixPath.normpath a.
Proof.
  intros E. unfold PosixPath.join2. cbn [PyStr.startswith]. rewrite E. cbn [orb].
  unfold PosixPath.sep.
  destruct (PyStr.endswith_char "/" a) eqn:S.
  - f_equal. clear. induction a as [ | c a IH]; [reflexivity | ].
    cbn [append]. rewrite IH. reflexivity.
  - apply normpath_trailing_sep; assumption.
Qed.

(** X3: an empty or all-whitespace input is not rejected by [fix_path]:
    it is normalized to the working directory. *)
Theorem blank_path_is_working_directory (env : World) (path : string) (s : State) :
  all_chars PyStr.isspace path = true ->
  PyStr.is_empty (cwd env) = false ->
  run (fix_path env path) s
  = run (ext env os_getcwd ;; ret (PosixPath.normpath (cwd env))) s.
Proof.
  intros B C. unfold run, fix_path. rewrite (strip_blank path B).
  cbn [PyStr.replace expanduser]. erewrite bind_return by apply run_ret.
  unfold abspath. cbn [PosixPath.isabs PyStr.startswith].
  rewrite !bind_assoc. unfold bind, ext.
  destruct (fault env (length (trace s))); [reflexivity | ].
  unfold ret. rewrite (join2_empty _ C). reflexivity.
Qed.

Lemma blank_path_is_working_directory_witness :
  run (fix_path (Demo.world Demo.no_fault) "   ") (initial [])
  = (Return "/home/user/firealarm", mk_State [] [] [Done os_getcwd]).
Proof.
  rewrite (blank_path_is_working_directory (Demo.world Demo.no_fault) "   " (initial [])
             eq_refl eq_refl).
  reflexivity.
Defined.

Lemma check_permission_unreadable_witness :
  let env :=
    mk_World (Some "/home/user") None (fun _ => None) "/" (fun _ => true) (fun _ => false)
      (fun _ => None) (fun _ => None) Demo.block_size Demo.block_ink Demo.detector
      (fun a _ => a) Demo.no_fault in
  run (check_permission env "/etc/shadow") (initial []) =
    (Return (false, None),
     mk_State [] []
       [Done (stdout "Trying to access: /etc/shadow");
        Done (os_path_exists "/etc/shadow");
        Done (os_access_R_OK "/etc/shadow");
        Done (stdout "Cannot access file: /etc/shadow");
        Done (stdout "Try running: chmod +r '/etc/shadow'")]).
Proof.
  intros env.
  exact (check_permission_unreadable env "/etc/shadow" "/etc/shadow" (initial []) (initial [])
           eq_refl eq_refl eq_refl eq_refl).
Defined.

Lemma check_permission_accepts_witness :
  run (check_permission (Demo.world Demo.no_fault) "~/clips/fire.jpg") (initial []) =
    (Return (true, Some "/home/user/clips/fire.jpg"),
     mk_State [] []
       [Done (stdout "Trying to access: /home/user/clips/fire.jpg");
        Done (os_path_exists "/home/user/clips/fire.jpg");
        Done (os_access_R_OK "/home/user/clips/fire.jpg")]).
Proof.
  exact (check_permission_accepts (Demo.world Demo.no_fault) "~/clips/fire.jpg"
           "/home/user/clips/fire.jpg" (initial []) (initial [])
           eq_refl eq_refl eq_refl eq_refl).
Defined.

(** ** Failures around the window and the capture *)

Lemma last_entry_app (t : list Entry) (en : Entry) : last_entry (t ++ [en]) = Some en.
Proof. unfold last_entry. rewrite rev_app_distr. reflexivity. Qed.

Lemma check_permission_returns (env : World) (path : string) (s : State) :
  exists r s1, check_permission env path s = (Return r, s1).
Proof.
  destruct (fix_path_ends env path s) as (out & s1 & E & D).
  destruct out as [fixed | e | ]; [ | | contradiction].
  - rewrite (check_permission_after_fix env path fixed s s1 E).
    destruct (negb (path_exists env fixed)); [eexists _, _; reflexivity | ].
    destruct (fault env (2 + length (trace s1))); [eexists _, _; reflexivity | ].
    destruct (negb (access_R_OK env fixed)); eexists _, _; reflexivity.
  - rewrite (check_permission_fix_raises env path e s s1 E). eexists _, _; reflexivity.
Qed.

(** [create_window] returns the name it was given, or raises what one of
    its two calls raised. *)
Lemma create_window_cases (env : World) (name : string) (w h : Z) (s : State) :
  exists o s1,
    create_window env name w h s = (o, s1)
    /\ match o with
       | Return n => n = name
       | Raise e =>
           exists c, is_window_call (Failed c e) = true
                     /\ last_entry (trace s1) = Some (Failed c e)
       | Diverge => False
       end.
Proof.
  unfold create_window.
  destruct (fault env (length (trace s))) as [e0 | ] eqn:F0.
  { erewrite bind_raise by (apply ext_failed; exact F0).
    eexists _, _. split; [reflexivity | ].
    exists (cv2_namedWindow name WINDOW_NORMAL). split; [reflexivity | ].
    apply last_entry_app. }
  erewrite bind_return by (apply ext_done; exact F0).
  match goal with
  | |- context [bind (ext env ?c) _ ?st] =>
      destruct (fault env (length (trace st))) as [e1 | ] eqn:F1
  end.
  { erewrite bind_raise by (apply ext_failed; exact F1).
    eexists _, _. split; [reflexivity | ].
    exists (cv2_resizeWindow name w h). split; [reflexivity | ].
    apply last_entry_app. }
  erewrite bind_return by (apply ext_done; exact F1).
  eexists _, _. split; [reflexivity | reflexivity].
Qed.

Lemma process_video_outcomes (env : World) (video_path : string) (s s' : State)
      (out : Outcome unit) :
  run (process_video env video_path) s = (out, s') ->
  out <> Diverge
  /\ forall e, out = Raise e ->
       exists c, is_window_call (Failed c e) = true
                 /\ last_entry (trace s') = Some (Failed c e).
Proof.
  unfold run, process_video. intros E.
  destruct (check_permission_returns env video_path s) as ([b p] & s1 & C).
  erewrite bind_return in E by exact C.
  destruct b; [destruct p as [fixed_path | ] | ].
  2,3: injection E as <- <-; split; [discriminate | intros e H; discriminate H].
  destruct (create_window_cases env default_window_name default_width default_height s1)
    as (o & s2 & W & H).
  destruct o as [name | e | ]; [ | | contradiction].
  - erewrite bind_return in E by exact W. unfold try_except in E.
    match type of E with
    | context [bind (ext env (cv2_VideoCapture _)) _ ?st] =>
        destruct (video_try_cases env fixed_path name st) as (o2 & s3 & new & B & _ & H2)
    end.
    cbv zeta in B. rewrite B in E.
    destruct o2 as [[] | e | ]; [ | | contradiction].
    + injection E as <- <-. split; [discriminate | intros e H'; discriminate H'].
    + unfold print, log in E. injection E as <- <-.
      split; [discriminate | intros e' H'; discriminate H'].
  - erewrite bind_raise in E by exact W. injection E as <- <-.
    split; [discriminate | ]. intros e' H'. injection H' as <-. exact H.
Qed.

Lemma process_image_outcomes (env : World) (image_path : string) (s s' : State)
      (out : Outcome unit) :
  run (process_image env image_path) s = (out, s') ->
  forall e, out = Raise e ->
    exists c, is_window_call (Failed c e) = true
              /\ last_entry (trace s') = Some (Failed c e).
Proof.
  unfold run, process_image. intros E.
  destruct (check_permission_returns env image_path s) as ([b p] & s1 & C).
  erewrite bind_return in E by exact C.
  destruct b; [destruct p as [fixed_path | ] | ].
  2,3: injection E as <- <-; intros e H; discriminate H.
  destruct (create_window_cases env default_window_name default_width default_height s1)
    as (o & s2 & W & H).
  destruct o as [name | e | ]; [ | | contradiction].
  - erewrite bind_return in E by exact W. unfold try_except in E.
    match type of E with
    | match ?body ?st with _ => _ end = _ => destruct (body st) as [[[] | e | ] s3]
    end.
    + injection E as <- <-. intros e H'; discriminate H'.
    + unfold print, log in E. injection E as <- <-. intros e' H'; discriminate H'.
    + injection E as <- <-. intros e H'; discriminate H'.
  - erewrite bind_raise in E by exact W. injection E as <- <-.
    intros e' H'. injection H' as <-. exact H.
Qed.

(** X4: every exception raised inside the [try] block of video mode is
    caught: [process_video] always ends, and when it raises, the exception
    is the one a window call of [create_window] raised, which is made
    before the [try]. *)
Theorem process_video_exceptions (env : World) (video_path : string) (s s' : State)
        (out : Outcome unit) :
  run (process_video env video_path) s = (out, s') ->
  out <> Diverge
  /\ forall e, out = Raise e ->
       exists c, is_window_call (Failed c e) = true
                 /\ last_entry (trace s') = Some (Failed c e).
Proof. exact (process_video_outcomes env video_path s s' out). Qed.

(** X5: the same for image mode, which may also wait for the escape key
    for ever: when [process_image] raises, the exception is the one a
    window call raised. *)
Theorem process_image_exceptions (env : World) (image_path : string) (s s' : State)
        (out : Outcome unit) :
  run (process_image env image_path) s = (out, s') ->
  forall e, out = Raise e ->
    exists c, is_window_call (Failed c e) = true
              /\ last_entry (trace s') = Some (Failed c e).
Proof. exact (process_image_outcomes env image_path s s' out). Qed.

Lemma process_video_exceptions_witness :
  exists c s',
    run (process_video (Demo.world (Demo.fault_at 4 "cannot resize")) "~/clips/fire.mp4")
        (initial []) = (Raise "cannot resize", s')
    /\ is_window_call (Failed c "cannot resize") = true
    /\ last_entry (trace s') = Some (Failed c "cannot resize").
Proof.
  pose (r := run (process_video (Demo.world (Demo.fault_at 4 "cannot resize"))
                    "~/clips/fire.mp4") (initial [])).
  destruct (process_video_exceptions _ _ _ (snd r) (fst r) (surjective_pairing r))
    as [_ H].
  destruct (H "cannot resize" eq_refl) as (c & W & L).
  exists c, (snd r). split; [reflexivity | ]. split; [exact W | exact L].
Defined.

Lemma process_image_exceptions_witness :
  exists c s',
    run (process_image (Demo.world (Demo.fault_at 3 "no display")) "~/clips/fire.jpg")
        (initial []) = (Raise "no display", s')
    /\ is_window_call (Failed c "no display") = true
    /\ last_entry (trace s') = Some (Failed c "no display").
Proof.
  pose (r := run (process_image (Demo.world (Demo.fault_at 3 "no display"))
                    "~/clips/fire.jpg") (initial [])).
  destruct (process_image_exceptions _ _ _ (snd r) (fst r) (surjective_pairing r)
              "no display" eq_refl) as (c & W & L).
  exists c, (snd r). split; [reflexivity | ]. split; [exact W | exact L].
Defined.

(** X6: the window is created outside the [try] block, so a failure to
    create it is not caught by the handler of the mode: once the path is
    validated, an exception raised by [cv2.namedWindow] leaves
    [process_image] and [process_video] as it is, with nothing printed. *)
Theorem window_failure_escapes (env : World) (path fixed : string) (e : Exception)
        (s s1 : State) :
  run (check_permission env path) s = (Return (true, Some fixed), s1) ->
  fault env (length (trace s1)) = Some e ->
  let s' := record (Failed (cv2_namedWindow "Fire and Smoke Detection System" 0) e) s1 in
  run (process_image env path) s = (Raise e, s')
  /\ run (process_video env path) s = (Raise e, s').
Proof.
  intros C F s'. unfold run in *. split.
  - unfold process_image. erewrite bind_return by exact C. cbv iota beta.
    unfold create_window. rewrite !bind_assoc.
    erewrite bind_raise by (apply ext_failed; exact F). reflexivity.
  - unfold process_video. erewrite bind_return by exact C. cbv iota beta.
    unfold create_window. rewrite !bind_assoc.
    erewrite bind_raise by (apply ext_failed; exact F). reflexivity.
Qed.

Lemma window_failure_escapes_witness :
  let env := Demo.world (Demo.fault_at 3 "no display") in
  let s' :=
    mk_State [] []
      [Done (stdout "Trying to access: /home/user/clips/fire.mp4");
       Done (os_path_exists "/home/user/clips/fire.mp4");
       Done (os_access_R_OK "/home/user/clips/fire.mp4");
       Failed (cv2_namedWindow "Fire and Smoke Detection System" 0) "no display"] in
  run (process_image env "~/clips/fire.mp4") (initial []) = (Raise "no display", s')
  /\ run (process_video env "~/clips/fire.mp4") (initial []) = (Raise "no display", s').
Proof.
  exact (window_failure_escapes (Demo.world (Demo.fault_at 3 "no display"))
           "~/clips/fire.mp4" "/home/user/clips/fire.mp4" "no display" (initial []) _
           eq_refl eq_refl).
Defined.

(** X7: a validated path that does not open as a video: [process_video]
    prints the error and returns; the window it created is left open and
    the capture is not released. *)
Theorem video_open_failure_leaves_window (env : World) (path fixed : string)
        (s s1 : State) :
  run (check_permission env path) s = (Return (true, Some fixed), s1) ->
  (forall k, k < 4 -> fault env (k + length (trace s1)) = None) ->
  video_file env fixed = None ->
  run (process_video env path) s =
    (Return tt,
     mk_State (heap s1) (keys s1)
       (trace s1 ++
        [Done (cv2_namedWindow "Fire and Smoke Detection System" 0);
         Done (cv2_resizeWindow "Fire and Smoke Detection System" 1280 720);
         Done (cv2_VideoCapture fixed);
         Done cap_isOpened;
         Done (stdout ("Error: Unable to open video from " ++ fixed)%string)])).
Proof.
  unfold run. intros C F V.
  unfold process_video. rewrite (bind_return _ _ _ _ _ C). cbv iota beta.
  rewrite (bind_return _ _ _ _ _
             (create_window_done env _ _ _ s1 (F 0 ltac:(lia)) (F 1 ltac:(lia)))).
  unfold try_except. rewrite V.
  erewrite bind_return.
  2:{ apply ext_done. cbn [trace]. rewrite length_app, Nat.add_comm. apply (F 2). lia. }
  erewrite bind_return.
  2:{ apply ext_done. unfold record; cbn [trace]. rewrite !length_app. cbn [length].
      replace (length (trace s1) + 2 + 1) with (3 + length (trace s1)) by lia.
      apply (F 3). lia. }
  unfold print, log, record; cbn [heap keys trace]. rewrite <- !app_assoc. reflexivity.
Qed.

Lemma video_open_failure_leaves_window_witness :
  run (process_video (Demo.world Demo.no_fault) "~/clips/notes.txt") (initial []) =
    (Return tt,
     mk_State [] []
       [Done (stdout "Trying to access: /home/user/clips/notes.txt");
        Done (os_path_exists "/home/user/clips/notes.txt");
        Done (os_access_R_OK "/home/user/clips/notes.txt");
        Done (cv2_namedWindow "Fire and Smoke Detection System" 0);
        Done (cv2_resizeWindow "Fire and Smoke Detection System" 1280 720);
        Done (cv2_VideoCapture "/home/user/clips/notes.txt");
        Done cap_isOpened;
        Done (stdout "Error: Unable to open video from /home/user/clips/notes.txt")]).
Proof.
  exact (video_open_failure_leaves_window (Demo.world Demo.no_fault)
           "~/clips/notes.txt" "/home/user/clips/notes.txt" (initial []) _
           eq_refl (fun _ _ => eq_refl) eq_refl).
Defined.

(** ** Waiting for the escape key *)

Lemma ext_fault_free (env : World) (c : Call) (s : State) :
  fault_free env -> ext env c s = (Return tt, record (Done c) s).
Proof. intros F. apply ext_done. apply F. Qed.

Lemma fault_free_end (env : World) : fault_free env -> fault_end env = 0.
Proof.
  intros F. unfold fault_end. destruct (faults env) as [ | [n e] l] eqn:E; [reflexivity | ].
  specialize (F n). unfold fault in F. rewrite E in F. cbn [find fst] in F.
  rewrite Nat.eqb_refl in F. discriminate F.
Qed.

Lemma fault_beyond_end (env : World) (n : nat) : fault_end env <= n -> fault env n = None.
Proof.
  unfold fault, fault_end. induction (faults env) as [ | [m e] l IH]; intros L.
  - reflexivity.
  - cbn [fold_right fst] in L. cbn [find fst].
    destruct (Nat.eqb_spec m n) as [-> | _]; [lia | ]. apply IH. lia.
Qed.

(** When [wait_for_escape] answers that the loop never ends, it is right:
    no key is pending and no later call raises. *)
Lemma poll_escape_idle (env : World) :
  forall rounds s s',
    length (keys s) + (fault_end env - length (trace s)) <= rounds ->
    poll_escape env rounds s = (Diverge, s') ->
    keys s' = [] /\ fault_end env <= length (trace s').
Proof.
  induction rounds as [ | rounds IH]; intros s s' L E.
  - cbn [poll_escape] in E. unfold diverge in E. injection E as <-.
    split; [ | lia]. destruct (keys s); [reflexivity | cbn [length] in L; lia].
  - cbn [poll_escape] in E. unfold waitKey, bind, ext in E.
    destruct (fault env (length (trace s))); [discriminate E | ].
    unfold next_key, record in E; cbn [heap keys trace] in E.
    destruct (keys s) as [ | k ks] eqn:K.
    + destruct (Z.land (-1) 255 =? 27)%Z; [discriminate E | ].
      eapply IH; [ | exact E]. cbn [heap keys trace]. rewrite length_app.
      cbn [length] in *. lia.
    + destruct (Z.land k 255 =? 27)%Z; [discriminate E | ].
      eapply IH; [ | exact E]. cbn [heap keys trace]. rewrite length_app.
      cbn [length] in *. lia.
Qed.

Lemma wait_for_escape_idle (env : World) (s s' : State) :
  run (wait_for_escape env) s = (Diverge, s') ->
  keys s' = [] /\ forall n, length (trace s') <= n -> fault env n = None.
Proof.
  unfold run, wait_for_escape. intros E.
  destruct (poll_escape_idle env _ s s' (le_n _) E) as [K L].
  split; [exact K | ]. intros n Hn. apply fault_beyond_end. lia.
Qed.

Lemma waitKey_fault_free (env : World) (delay k : Z) (ks : list Z) (s : State) :
  fault_free env ->
  keys s = k :: ks ->
  waitKey env delay s
  = (Return k, mk_State (heap s) ks (trace s ++ [Done (cv2_waitKey delay)])).
Proof.
  intros F K. unfold waitKey.
  erewrite bind_return by (apply ext_fault_free; exact F).
  unfold next_key, record; cbn [heap keys trace]. rewrite K. reflexivity.
Qed.

Lemma poll_escape_returns (env : World) (k : Z) (rest : list Z) :
  fault_free env ->
  Z.land k 255 = 27%Z ->
  forall pre rounds s,
    length pre < rounds ->
    keys s = pre ++ k :: rest ->
    Forall (fun x => Z.land x 255 <> 27%Z) pre ->
    poll_escape env rounds s
    = (Return tt,
       mk_State (heap s) rest
         (trace s ++ repeat (Done (cv2_waitKey 1)) (S (length pre)))).
Proof.
  intros F Hk. induction pre as [ | x pre IH]; intros rounds s L K P.
  - destruct rounds as [ | rounds]; [cbn [length] in L; lia | ].
    cbn [poll_escape]. erewrite bind_return by (apply waitKey_fault_free; eassumption).
    rewrite Hk. reflexivity.
  - destruct rounds as [ | rounds]; [cbn [length] in L; lia | ].
    cbn [poll_escape]. erewrite bind_return by (apply waitKey_fault_free; eassumption).
    inversion P as [ | ? ? Hx P']; subst.
    destruct (Z.eqb_spec (Z.land x 255) 27) as [E | _]; [contradiction | ].
    rewrite (IH rounds); cbn [heap keys trace length] in *; [ | lia | reflexivity | exact P'].
    rewrite <- app_assoc. reflexivity.
Qed.

Lemma wait_for_escape_run (env : World) (s : State) (pre rest : list Z) (k : Z) :
  fault_free env ->
  keys s = pre ++ k :: rest ->
  Forall (fun x => Z.land x 255 <> 27%Z) pre ->
  Z.land k 255 = 27%Z ->
  run (wait_for_escape env) s
  = (Return tt,
     mk_State (heap s) rest (trace s ++ repeat (Done (cv2_waitKey 1)) (S (length pre)))).
Proof.
  intros F K P Hk. unfold run, wait_for_escape.
  apply (poll_escape_returns env k rest F Hk pre); [ | exact K | exact P].
  rewrite K, length_app. cbn [length]. lia.
Qed.

(** X8: image mode closes on the first pending key whose low byte is 27:
    the poll consumes the keys up to and including that one, one
    [cv2.waitKey(1)] call each, and leaves the others in the queue. *)
Theorem wait_for_escape_returns (env : World) (s : State) (pre rest : list Z) (k : Z) :
  fault_free env ->
  keys s = pre ++ k :: rest ->
  Forall (fun x => Z.land x 255 <> 27%Z) pre ->
  Z.land k 255 = 27%Z ->
  run (wait_for_escape env) s
  = (Return tt,
     mk_State (heap s) rest (trace s ++ repeat (Done (cv2_waitKey 1)) (S (length pre)))).
Proof. exact (wait_for_escape_run env s pre rest k). Qed.

Lemma wait_for_escape_returns_witness :
  run (wait_for_escape (Demo.world Demo.no_fault)) (initial [(-1)%Z; 13%Z; 283%Z; 27%Z])
  = (Return tt,
     mk_State [] [27%Z]
       [Done (cv2_waitKey 1); Done (cv2_waitKey 1); Done (cv2_waitKey 1)]).
Proof.
  refine (wait_for_escape_returns (Demo.world Demo.no_fault)
            (initial [(-1)%Z; 13%Z; 283%Z; 27%Z]) [(-1)%Z; 13%Z] [27%Z] 283%Z
            (fun _ => eq_refl) eq_refl _ eq_refl).
  repeat constructor; discriminate.
Defined.

Lemma poll_escape_diverges (env : World) :
  fault_free env ->
  forall ks s,
    keys s = ks ->
    Forall (fun x => Z.land x 255 <> 27%Z) ks ->
    poll_escape env (length ks) s
    = (Diverge,
       mk_State (heap s) [] (trace s ++ repeat (Done (cv2_waitKey 1)) (length ks))).
Proof.
  intros F. induction ks as [ | x ks IH]; intros s K P.
  - cbn [length poll_escape repeat]. unfold diverge. rewrite app_nil_r.
    destruct s as [h k t]. cbn [keys] in K. subst k. reflexivity.
  - cbn [length poll_escape].
    erewrite bind_return by (apply waitKey_fault_free; eassumption).
    inversion P as [ | ? ? Hx P']; subst.
    destruct (Z.eqb_spec (Z.land x 255) 27) as [E | _]; [contradiction | ].
    rewrite IH; cbn [heap keys trace]; [ | reflexivity | exact P'].
    rewrite <- app_assoc. reflexivity.
Qed.

(** X9: when no pending key has the low byte 27, the poll of image mode
    uses up the queue and never ends. *)
Theorem wait_for_escape_diverges (env : World) (s : State) :
  fault_free env ->
  Forall (fun x => Z.land x 255 <> 27%Z) (keys s) ->
  run (wait_for_escape env) s
  = (Diverge,
     mk_State (heap s) []
       (trace s ++ repeat (Done (cv2_waitKey 1)) (length (keys s)))).
Proof.
  intros F P. unfold run, wait_for_escape.
  rewrite (fault_free_end env F), Nat.sub_0_l, Nat.add_0_r.
  apply (poll_escape_diverges env F (keys s) s eq_refl P).
Qed.

Lemma wait_for_escape_diverges_witness :
  run (wait_for_escape (Demo.world Demo.no_fault)) (initial [(-1)%Z; 13%Z])
  = (Diverge, mk_State [] [] [Done (cv2_waitKey 1); Done (cv2_waitKey 1)]).
Proof.
  refine (wait_for_escape_diverges (Demo.world Demo.no_fault) (initial [(-1)%Z; 13%Z])
            (fun _ => eq_refl) _).
  repeat constructor; discriminate.
Defined.

Lemma fault_below_end (env : World) (n : nat) (e : Exception) :
  fault env n = Some e -> n < fault_end env.
Proof.
  intros H. destruct (le_lt_dec (fault_end env) n) as [L | L]; [ | exact L].
  rewrite (fault_beyond_end env n L) in H. discriminate H.
Qed.

Lemma poll_escape_raises (env : World) (e : Exception) :
  forall m rounds s,
    m < rounds ->
    Forall (fun x => Z.land x 255 <> 27%Z) (firstn m (keys s)) ->
    (forall j, j < m -> fault env (length (trace s) + j) = None) ->
    fault env (length (trace s) + m) = Some e ->
    poll_escape env rounds s
    = (Raise e,
       mk_State (heap s) (skipn m (keys s))
         (trace s ++ repeat (Done (cv2_waitKey 1)) m ++ [Failed (cv2_waitKey 1) e])).
Proof.
  induction m as [ | m IH]; intros rounds s L P N F;
    (destruct rounds as [ | rounds]; [lia | ]); cbn [poll_escape]; unfold waitKey.
  - rewrite Nat.add_0_r in F. rewrite bind_assoc.
    rewrite (bind_raise _ _ _ _ _ (ext_failed env _ s e F)). reflexivity.
  - pose proof (N 0 ltac:(lia)) as F0. rewrite Nat.add_0_r in F0. rewrite bind_assoc.
    rewrite (bind_return _ _ _ _ _ (ext_done env _ s F0)).
    unfold bind at 1. unfold next_key, record; cbn [heap keys trace].
    assert (N' : forall t : list Entry, length t = length (trace s) + 1 ->
                 (forall j, j < m -> fault env (length t + j) = None)
                 /\ fault env (length t + m) = Some e).
    { intros t Ht. rewrite Ht. split.
      - intros j Hj. replace (length (trace s) + 1 + j) with (length (trace s) + S j) by lia.
        apply N. lia.
      - replace (length (trace s) + 1 + m) with (length (trace s) + S m) by lia. exact F. }
    destruct (keys s) as [ | k ks] eqn:K.
    + change (Z.land (-1) 255 =? 27)%Z with false. cbv iota.
      destruct (N' (trace s ++ [Done (cv2_waitKey 1)])
                  ltac:(rewrite length_app; reflexivity)) as [Na Fa].
      rewrite (IH rounds); cbn [heap keys trace];
        [ | lia | rewrite firstn_nil; constructor | exact Na | exact Fa].
      rewrite !skipn_nil. cbn [repeat app]. rewrite <- app_assoc. reflexivity.
    + cbn [firstn] in P. inversion P as [ | ? ? Hk P']; subst.
      destruct (Z.eqb_spec (Z.land k 255) 27) as [E | _]; [contradiction | ].
      destruct (N' (trace s ++ [Done (cv2_waitKey 1)])
                  ltac:(rewrite length_app; reflexivity)) as [Na Fa].
      rewrite (IH rounds); cbn [heap keys trace];
        [ | lia | exact P' | exact Na | exact Fa].
      cbn [skipn repeat app]. rewrite <- app_assoc. reflexivity.
Qed.

(** X24: the wait loop of image mode is ended by a poll that raises, also
    when no key is pending any more: if the poll number m (from 0) is the
    first call to fail and none of the keys read before it has the low
    byte 27, the loop makes m polls, the next one raises, and the
    exception leaves the loop with the keys not yet read still pending. *)
Theorem wait_for_escape_raises (env : World) (s : State) (m : nat) (e : Exception) :
  Forall (fun x => Z.land x 255 <> 27%Z) (firstn m (keys s)) ->
  (forall j, j < m -> fault env (length (trace s) + j) = None) ->
  fault env (length (trace s) + m) = Some e ->
  run (wait_for_escape env) s
  = (Raise e,
     mk_State (heap s) (skipn m (keys s))
       (trace s ++ repeat (Done (cv2_waitKey 1)) m ++ [Failed (cv2_waitKey 1) e])).
Proof.
  intros P N F. unfold run, wait_for_escape.
  apply (poll_escape_raises env e m); [ | exact P | exact N | exact F].
  pose proof (fault_below_end env _ e F). lia.
Qed.

Lemma wait_for_escape_raises_witness :
  run (wait_for_escape (Demo.world (Demo.fault_at 3 "display lost"))) (initial [13%Z])
  = (Raise "display lost",
     mk_State [] []
       [Done (cv2_waitKey 1); Done (cv2_waitKey 1); Done (cv2_waitKey 1);
        Failed (cv2_waitKey 1) "display lost"]).
Proof.
  refine (wait_for_escape_raises (Demo.world (Demo.fault_at 3 "display lost"))
            (initial [13%Z]) 3 "display lost" _ _ eq_refl).
  - repeat constructor; discriminate.
  - intros [ | [ | [ | j]]] Hj; [reflexivity | reflexivity | reflexivity | lia].
Defined.

(** Image mode with the one key 13 pending and the call number 21 failing:
    the loop polls for the key and twice more, the fourth poll raises, and
    the handler of the mode prints the error; [process_image] returns, with
    the windows not destroyed. *)
Example process_image_wait_ended_by_failure :
  exists s',
    run (process_image (Demo.world (Demo.fault_at 21 "display lost")) "~/clips/fire.jpg")
        (initial [13%Z]) = (Return tt, s')
    /\ keys s' = []
    /\ skipn 17 (trace s')
       = [Done (cv2_imshow "Fire and Smoke Detection System" 3);
          Done (cv2_waitKey 1); Done (cv2_waitKey 1); Done (cv2_waitKey 1);
          Failed (cv2_waitKey 1) "display lost";
          Done (stdout "Error processing image: display lost")].
Proof. eexists. split; [vm_compute; reflexivity | ]. split; vm_compute; reflexivity. Qed.

(** ** The calls of the overlay *)

Lemma overlay_lines_trace (env : World) (image : ref) (lines : list (nat * string)) :
  forall s,
  exists s',
    for_each lines (fun '(i, line) =>
      let y := (30 + Z.of_nat i * 25)%Z in
      putText env image line (10%Z, y) FONT_HERSHEY_SIMPLEX (6 # 10)%Q
              (255, 255, 255)%Z (1 + 1)%Z ;;
      putText env image line (10%Z, y) FONT_HERSHEY_SIMPLEX (6 # 10)%Q
              (0, 0, 0)%Z 1%Z) s = (Return tt, s')
    /\ trace s' = trace s ++ flat_map (overlay_line_calls image) lines
    /\ keys s' = keys s.
Proof.
  induction lines as [ | [i line] lines IH]; intros s.
  - exists s. cbn [for_each flat_map]. rewrite app_nil_r. auto.
  - cbn [for_each]. unfold putText at 1 2. repeat step.
    match goal with
    | |- context [for_each lines ?body ?st] => destruct (IH st) as (s' & E & T & K)
    end.
    exists s'. split; [exact E | ]. cbn [trace keys] in T, K. split; [ | exact K].
    rewrite T. cbn [flat_map]. rewrite <- !app_assoc. reflexivity.
Qed.

Lemma add_info_overlay_trace (env : World) (image : ref) (info_text : string)
      (s : State) :
  exists s',
    run (add_info_overlay env image info_text) s = (Return image, s')
    /\ trace s' = trace s ++ overlay_calls image info_text
    /\ keys s' = keys s
    /\ length (overlay_calls image info_text)
       = 2 * length (PyStr.split PyStr.LF info_text).
Proof.
  unfold run, add_info_overlay.
  destruct (overlay_lines_trace env image (enumerate (PyStr.split PyStr.LF info_text)) s)
    as (s' & E & T & K).
  exists s'. split; [erewrite bind_return by exact E; reflexivity | ].
  split; [exact T | ]. split; [exact K | ].
  unfold overlay_calls, enumerate.
  assert (L : forall (l : list string) n,
             length (flat_map (overlay_line_calls image) (combine (seq n (length l)) l))
             = 2 * length l).
  { induction l as [ | x l IH]; intros n; [reflexivity | ].
    cbn [length seq combine flat_map]. rewrite length_app, IH.
    cbn [overlay_line_calls length]. lia. }
  apply L.
Qed.

(** X10: [add_info_overlay] draws every line of the text twice at the left
    padding 10 and at the height 30 + 25 i for line number i: first the
    white outline with thickness 2, then the black fill with thickness 1.
    It makes no other call, touches no key, and returns its argument. *)
Theorem add_info_overlay_calls (env : World) (image : ref) (info_text : string)
        (s : State) :
  exists s',
    run (add_info_overlay env image info_text) s = (Return image, s')
    /\ trace s' = trace s ++ overlay_calls image info_text
    /\ keys s' = keys s
    /\ length (overlay_calls image info_text)
       = 2 * length (PyStr.split PyStr.LF info_text).
Proof. exact (add_info_overlay_trace env image info_text s). Qed.

Lemma add_info_overlay_exact (env : World) (image : ref) (info_text : string) (s : State) :
  image < length (heap s) ->
  add_info_overlay env image info_text s =
    (Return image,
     mk_State (set_nth image (overlay_picture env info_text (nth image (heap s) nd_empty))
                       (heap s))
              (keys s) (trace s ++ overlay_calls image info_text)).
Proof.
  intros V.
  destruct (add_info_overlay_run env image info_text s V) as (new & E & _).
  destruct (add_info_overlay_trace env image info_text s) as (s' & E' & T & _).
  unfold run in E'. rewrite E in E'. injection E' as <-. cbn [trace] in T.
  apply app_inv_head in T. subst new. exact E.
Qed.

(** ** The shape of the image under the overlay *)

Lemma nd_draw_wf (ink : Z -> Z -> bool) (x y : Z) (c : Pixel) (a : ndarray) :
  nd_wf a -> nd_wf (nd_draw ink x y c a).
Proof.
  unfold nd_wf, nd_draw; cbn [nd_w nd_rows]. intros W.
  apply Forall_mapi_from. intros j row Hin. rewrite mapi_from_length.
  rewrite Forall_forall in W. apply W. exact Hin.
Qed.

Lemma nd_draw_h (ink : Z -> Z -> bool) (x y : Z) (c : Pixel) (a : ndarray) :
  nd_h (nd_draw ink x y c a) = nd_h a.
Proof. unfold nd_h, nd_draw; cbn [nd_rows]. apply mapi_from_length. Qed.

Lemma overlay_picture_shape (env : World) (info_text : string) (a : ndarray) :
  nd_h (overlay_picture env info_text a) = nd_h a
  /\ nd_w (overlay_picture env info_text a) = nd_w a
  /\ (nd_wf a -> nd_wf (overlay_picture env info_text a)).
Proof.
  unfold overlay_picture.
  generalize (enumerate (PyStr.split PyStr.LF info_text)). intros l. revert a.
  induction l as [ | il l IH]; intros a; cbn [fold_left]; [auto | ].
  destruct (IH (overlay_line env a il)) as (H & W & F).
  unfold overlay_line in *. rewrite H, W, !nd_draw_h. cbn [nd_draw nd_w] in *.
  repeat split; try reflexivity.
  intros Wf. apply F. apply nd_draw_wf, nd_draw_wf. exact Wf.
Qed.

(** X11: the overlay is drawn on the image as it is: after
    [add_info_overlay] the image has the height and the width it had, and
    rows of that width if it had them; the heap holds as many images as
    before. *)
Theorem add_info_overlay_keeps_shape (env : World) (image : ref) (info_text : string)
        (s : State) :
  image < length (heap s) ->
  exists s',
    run (add_info_overlay env image info_text) s = (Return image, s')
    /\ length (heap s') = length (heap s)
    /\ nd_h (nth image (heap s') nd_empty) = nd_h (nth image (heap s) nd_empty)
    /\ nd_w (nth image (heap s') nd_empty) = nd_w (nth image (heap s) nd_empty)
    /\ (nd_wf (nth image (heap s) nd_empty) -> nd_wf (nth image (heap s') nd_empty)).
Proof.
  intros V. unfold run. rewrite (add_info_overlay_exact env image info_text s V).
  eexists. split; [reflexivity | ]. cbn [heap].
  rewrite set_nth_length, nth_set_nth_same by exact V.
  split; [reflexivity | ]. apply overlay_picture_shape.
Qed.

Lemma add_info_overlay_keeps_shape_witness :
  exists s',
    run (add_info_overlay (Demo.world Demo.no_fault) 0 "File: fire.mp4")
        (mk_State [Demo.dark] [] []) = (Return 0, s')
    /\ length (heap s') = 1
    /\ nd_h (nth 0 (heap s') nd_empty) = 32
    /\ nd_w (nth 0 (heap s') nd_empty) = 16
    /\ (nd_wf Demo.dark -> nd_wf (nth 0 (heap s') nd_empty)).
Proof.
  exact (add_info_overlay_keeps_shape (Demo.world Demo.no_fault) 0 "File: fire.mp4"
           (mk_State [Demo.dark] [] []) (le_n 1)).
Defined.

(** ** One frame when no call fails *)

Lemma play_alarm_fault_free (env : World) (s : State) :
  fault_free env ->
  play_alarm env s
  = (Return tt, mk_State (heap s) (keys s) (trace s ++ alarm_ok_calls)).
Proof.
  intros F. unfold play_alarm, try_except.
  erewrite bind_return by (apply ext_fault_free; exact F).
  erewrite bind_return by (apply ext_fault_free; exact F).
  rewrite (ext_fault_free env _ _ F). unfold record; cbn [heap keys trace].
  rewrite <- !app_assoc. reflexivity.
Qed.

(** The step on one frame: its result, the images it allocates and the
    calls it makes. *)
Lemma detect_and_annotate_fault_free (env : World) (frame : ref) (info_text : string)
      (s : State) :
  fault_free env ->
  frame < length (heap s) ->
  let alert := fire_detected env (nth frame (heap s) nd_empty) in
  exists (annotated bar stacked : ndarray) (x y : Z),
    detect_and_annotate env frame info_text s =
      (Return (2 + length (heap s)),
       mk_State (heap s ++ [annotated; bar; stacked]) (keys s)
         (trace s ++
          [Done (model_call frame); Done results_plot]
          ++ overlay_calls (length (heap s)) info_text
          ++ [Done (cv2_putText (1 + length (heap s))
                      (if alert then "FIRE/SMOKE DETECTED!" else "No Fire Detected")
                      (x, y) 0 1%Q (if alert then BGR_white else BGR_black) 2)]
          ++ (if alert then alarm_ok_calls else []))).
Proof.
  intros F V alert. unfold detect_and_annotate, model, plot.
  rewrite !bind_assoc. erewrite bind_return by (apply ext_fault_free; exact F).
  repeat step. unfold record; cbn [heap keys trace boxes orig_img].
  rewrite ?bind_assoc. erewrite bind_return by (apply ext_fault_free; exact F).
  unfold record; cbn [heap keys trace]. step.
  erewrite bind_return.
  2:{ apply add_info_overlay_exact. cbn [heap]. rewrite length_app. cbn [length]. lia. }
  cbn [heap]. rewrite nth_last, set_nth_last.
  fold (fire_detected env (nth frame (heap s) nd_empty)). fold alert.
  destruct alert.
  - match goal with
    | |- context [bind (add_status_bar env ?r ?text true) _ ?st] =>
        destruct (add_status_bar_run_at env r text true st) as (x & y & E2);
        [cbn [heap]; rewrite length_app; cbn [length]; lia | ]
    end.
    erewrite bind_return by exact E2.
    erewrite bind_return by (apply play_alarm_fault_free; exact F).
    cbn [heap keys trace]. unfold ret.
    eexists _, _, _, x, y. rewrite !length_app. cbn [length].
    replace (length (heap s) + 1) with (1 + length (heap s)) by lia.
    rewrite <- !app_assoc. reflexivity.
  - match goal with
    | |- context [add_status_bar env ?r ?text false ?st] =>
        destruct (add_status_bar_run_at env r text false st) as (x & y & E2);
        [cbn [heap]; rewrite length_app; cbn [length]; lia | ]
    end.
    rewrite E2. cbn [heap keys trace].
    eexists _, _, _, x, y. rewrite !length_app. cbn [length].
    replace (length (heap s) + 1) with (1 + length (heap s)) by lia.
    rewrite <- !app_assoc, app_nil_r. reflexivity.
Qed.

(** ** Counting along a trace *)

Lemma fill_texts_app (t u : list Entry) : fill_texts (t ++ u) = fill_texts t ++ fill_texts u.
Proof. apply flat_map_app. Qed.

Lemma imshow_calls_app (t u : list Entry) :
  imshow_calls (t ++ u) = imshow_calls t + imshow_calls u.
Proof. unfold imshow_calls. rewrite filter_app, length_app. reflexivity. Qed.

Lemma overlay_calls_putText (image : ref) (info_text : string) :
  Forall is_putText (overlay_calls image info_text).
Proof.
  unfold overlay_calls. generalize (enumerate (PyStr.split PyStr.LF info_text)).
  intros l. induction l as [ | il l IH]; cbn [flat_map]; [constructor | ].
  repeat constructor. exact IH.
Qed.

Lemma imshow_calls_putText (t : list Entry) : Forall is_putText t -> imshow_calls t = 0.
Proof.
  induction 1 as [ | en t H _ IH]; [reflexivity | ].
  destruct en as [[] | ]; try contradiction. exact IH.
Qed.

Lemma fill_texts_overlay (image : ref) (info_text : string) :
  fill_texts (overlay_calls image info_text) = PyStr.split PyStr.LF info_text.
Proof.
  unfold overlay_calls, enumerate. generalize (PyStr.split PyStr.LF info_text).
  intros l. generalize 0 at 1.
  induction l as [ | x l IH]; intros n; [reflexivity | ].
  cbn [length seq combine flat_map]. rewrite fill_texts_app, IH. reflexivity.
Qed.

(** What the calls of one frame step count for. *)
Lemma frame_calls_count (frame base : ref) (info_text text : string) (org : Z * Z)
      (color : Pixel) (alert : bool) :
  let calls :=
    [Done (model_call frame); Done results_plot]
    ++ overlay_calls base info_text
    ++ [Done (cv2_putText (1 + base) text org 0 1%Q color 2)]
    ++ (if alert then alarm_ok_calls else []) in
  alarm_calls calls = (if alert then 1 else 0)
  /\ fill_texts calls = PyStr.split PyStr.LF info_text
  /\ imshow_calls calls = 0.
Proof.
  cbv zeta. repeat split.
  - rewrite !alarm_calls_app, (alarm_calls_putText _ (overlay_calls_putText _ _)).
    destruct alert; reflexivity.
  - rewrite !fill_texts_app, fill_texts_overlay. destruct alert; cbn; apply app_nil_r.
  - rewrite !imshow_calls_app, (imshow_calls_putText _ (overlay_calls_putText _ _)).
    destruct alert; reflexivity.
Qed.

(** The step on one frame, with what its calls count for. *)
Lemma frame_step_fault_free (env : World) (frame : ref) (info_text : string) (s : State) :
  fault_free env ->
  frame < length (heap s) ->
  exists h3 calls,
    detect_and_annotate env frame info_text s =
      (Return (2 + length (heap s)),
       mk_State (heap s ++ h3) (keys s) (trace s ++ calls))
    /\ length h3 = 3
    /\ alarm_calls calls
       = (if fire_detected env (nth frame (heap s) nd_empty) then 1 else 0)
    /\ fill_texts calls = PyStr.split PyStr.LF info_text
    /\ imshow_calls calls = 0.
Proof.
  intros F V.
  destruct (detect_and_annotate_fault_free env frame info_text s F V)
    as (p1 & p2 & p3 & x & y & D).
  eexists [p1; p2; p3], _. split; [exact D | ]. split; [reflexivity | ].
  apply frame_calls_count.
Qed.

Lemma alarm_calls_cons (en : Entry) (t : list Entry) :
  alarm_calls (en :: t) = (if is_alarm_call en then 1 else 0) + alarm_calls t.
Proof. unfold alarm_calls. cbn [filter]. destruct (is_alarm_call en); reflexivity. Qed.

Lemma imshow_calls_cons (en : Entry) (t : list Entry) :
  imshow_calls (en :: t)
  = (match en with Done (cv2_imshow _ _) => 1 | _ => 0 end) + imshow_calls t.
Proof.
  unfold imshow_calls. cbn [filter].
  destruct en as [[] | ]; reflexivity.
Qed.

(** ** The loop of video mode when no call fails *)

Lemma waitKey_fault_free_empty (env : World) (delay : Z) (s : State) :
  fault_free env ->
  keys s = [] ->
  waitKey env delay s
  = (Return (-1)%Z, mk_State (heap s) [] (trace s ++ [Done (cv2_waitKey delay)])).
Proof.
  intros F K. unfold waitKey.
  erewrite bind_return by (apply ext_fault_free; exact F).
  unfold next_key, record; cbn [heap keys trace]. rewrite K. reflexivity.
Qed.

(** The counts of one round of the loop followed by the rest. *)
Lemma round_counts (calls new : list Entry) (window_name : string) (display : ref) :
  let t := Done cap_read :: calls ++ Done (cv2_imshow window_name display)
             :: Done (cv2_waitKey 1) :: new in
  alarm_calls t = alarm_calls calls + alarm_calls new
  /\ imshow_calls t = imshow_calls calls + 1 + imshow_calls new
  /\ fill_texts t = fill_texts calls ++ fill_texts new.
Proof.
  cbv zeta. repeat split.
  - rewrite alarm_calls_cons, alarm_calls_app, !alarm_calls_cons. reflexivity.
  - rewrite imshow_calls_cons, imshow_calls_app, !imshow_calls_cons. lia.
  - change (Done cap_read :: calls ++ Done (cv2_imshow window_name display)
              :: Done (cv2_waitKey 1) :: new)
      with ([Done cap_read] ++ calls ++ [Done (cv2_imshow window_name display);
                                        Done (cv2_waitKey 1)] ++ new).
    rewrite !fill_texts_app. reflexivity.
Qed.

Lemma video_loop_fault_free (env : World) (fixed_path window_name : string) :
  fault_free env ->
  forall frames frame_count s,
  exists s' new,
    video_loop env fixed_path window_name frames frame_count s = (Return tt, s')
    /\ trace s' = trace s ++ new
    /\ keys s' = skipn (length (shown frames (keys s))) (keys s)
    /\ alarm_calls new = length (filter (fire_detected env) (shown frames (keys s)))
    /\ imshow_calls new = length (shown frames (keys s))
    /\ fill_texts new
       = flat_map (fun k => PyStr.split PyStr.LF (video_info_text fixed_path k))
                  (seq (S frame_count) (length (shown frames (keys s)))).
Proof.
  intros F. induction frames as [ | a frames IH]; intros frame_count s;
    cbn [video_loop].
  - erewrite bind_return by (apply ext_fault_free; exact F).
    eexists _, [_]. split; [reflexivity | ]. unfold record; cbn [heap keys trace shown].
    repeat split.
  - erewrite bind_return by (apply ext_fault_free; exact F).
    unfold record; cbn [heap keys trace]. step.
    fold (video_info_text fixed_path (S frame_count)).
    match goal with
    | |- context [bind (detect_and_annotate env ?fr ?info) _ ?st] =>
        destruct (frame_step_fault_free env fr info st F)
          as (h3 & calls & D & _ & CA & CF & CI);
        [cbn [heap]; rewrite length_app; cbn [length]; lia | ]
    end.
    cbn [heap keys trace] in D, CA. rewrite nth_last in CA.
    erewrite bind_return by exact D. unfold imshow.
    erewrite bind_return by (apply ext_fault_free; exact F).
    unfold record; cbn [heap keys trace].
    destruct (keys s) as [ | k ks] eqn:K.
    + erewrite bind_return by (apply waitKey_fault_free_empty; [exact F | reflexivity]).
      cbn [heap keys trace]. change ((-1 =? 27)%Z) with false. cbv iota.
      match goal with
      | |- context [video_loop env fixed_path window_name frames (S frame_count) ?st] =>
          destruct (IH (S frame_count) st) as (s' & new & L & T & Ks & A & I & Tx)
      end.
      cbn [heap keys trace] in *.
      destruct (round_counts calls new window_name (2 + length (heap s ++ [a])))
        as (RA & RI & RT).
      exists s'. eexists. split; [exact L | ]. rewrite T, <- !app_assoc. cbn [app].
      split; [reflexivity | ]. cbn [shown length skipn].
      split; [rewrite Ks; apply skipn_nil | ].
      rewrite RA, RI, RT, A, I, Tx, CA, CF, CI. cbn [filter seq flat_map].
      destruct (fire_detected env a); cbn [length]; repeat split; lia.
    + erewrite bind_return by (apply waitKey_fault_free; [exact F | reflexivity]).
      cbn [heap keys trace].
      destruct (k =? 27)%Z eqn:E27.
      * destruct (round_counts calls [] window_name (2 + length (heap s ++ [a])))
          as (RA & RI & RT).
        eexists _, _. split; [reflexivity | ]. cbn [trace keys]. rewrite <- !app_assoc.
        cbn [app].
        split; [reflexivity | ]. cbn [shown length skipn]. rewrite E27. cbn [length skipn].
        split; [reflexivity | ].
        rewrite RA, RI, RT, CA, CF, CI. cbn [filter seq flat_map].
        destruct (fire_detected env a); cbn [length]; repeat split; lia.
      * match goal with
        | |- context [video_loop env fixed_path window_name frames (S frame_count) ?st] =>
            destruct (IH (S frame_count) st) as (s' & new & L & T & Ks & A & I & Tx)
        end.
        cbn [heap keys trace] in *.
        destruct (round_counts calls new window_name (2 + length (heap s ++ [a])))
          as (RA & RI & RT).
        exists s'. eexists. split; [exact L | ]. rewrite T, <- !app_assoc. cbn [app].
        split; [reflexivity | ]. cbn [shown length skipn]. rewrite E27. cbn [length skipn].
        split; [exact Ks | ].
        rewrite RA, RI, RT, A, I, Tx, CA, CF, CI. cbn [filter seq flat_map].
        destruct (fire_detected env a); cbn [length]; repeat split; lia.
Qed.

Lemma shown_without_escape (frames : list ndarray) (ks : list Z) :
  Forall (fun k => k <> 27%Z) ks -> shown frames ks = frames.
Proof.
  revert ks. induction frames as [ | a frames IH]; intros ks P; cbn [shown];
    [reflexivity | ].
  destruct ks as [ | k ks].
  - rewrite IH by constructor. reflexivity.
  - inversion P as [ | ? ? Hk P']; subst.
    destruct (Z.eqb_spec k 27) as [E | _]; [contradiction | ].
    rewrite IH by exact P'. reflexivity.
Qed.

(** Video mode on a validated path that opens, when no call fails. *)
Lemma process_video_fault_free (env : World) (path fixed : string)
      (frames : list ndarray) (s s1 : State) :
  fault_free env ->
  check_permission env path s = (Return (true, Some fixed), s1) ->
  video_file env fixed = Some frames ->
  exists s' new,
    process_video env path s = (Return tt, s')
    /\ trace s' = trace s1 ++ new
    /\ keys s' = skipn (length (shown frames (keys s1))) (keys s1)
    /\ alarm_calls new = length (filter (fire_detected env) (shown frames (keys s1)))
    /\ imshow_calls new = length (shown frames (keys s1))
    /\ fill_texts new
       = flat_map (fun k => PyStr.split PyStr.LF (video_info_text fixed k))
                  (seq 1 (length (shown frames (keys s1)))).
Proof.
  intros F C V. unfold process_video.
  rewrite (bind_return _ _ _ _ _ C). cbv iota beta.
  rewrite (bind_return _ _ _ _ _ (create_window_done env _ _ _ s1 (F _) (F _))).
  unfold try_except. rewrite V.
  erewrite bind_return by (apply ext_fault_free; exact F).
  erewrite bind_return by (apply ext_fault_free; exact F).
  unfold record; cbn [heap keys trace].
  match goal with
  | |- context [bind (video_loop env fixed ?w frames 0) _ ?st] =>
      destruct (video_loop_fault_free env fixed w F frames 0 st)
        as (s2 & new & L & T & K & A & I & Tx)
  end.
  cbn [heap keys trace] in *.
  erewrite bind_return by exact L.
  erewrite bind_return by (apply ext_fault_free; exact F).
  rewrite (ext_fault_free env _ _ F). unfold record; cbn [heap keys trace].
  eexists _, _. split; [reflexivity | ]. cbn [trace keys]. rewrite T, <- !app_assoc.
  split; [reflexivity | ]. split; [exact K | ].
  cbn [app].
  rewrite !alarm_calls_cons, alarm_calls_app, !imshow_calls_cons, imshow_calls_app.
  change (Done (cv2_namedWindow default_window_name 0)
          :: Done (cv2_resizeWindow default_window_name default_width default_height)
          :: Done (cv2_VideoCapture fixed) :: Done cap_isOpened
          :: new ++ [Done cap_release; Done cv2_destroyAllWindows])
    with ([Done (cv2_namedWindow default_window_name 0);
           Done (cv2_resizeWindow default_window_name default_width default_height);
           Done (cv2_VideoCapture fixed); Done cap_isOpened]
          ++ new ++ [Done cap_release; Done cv2_destroyAllWindows]).
  rewrite !fill_texts_app, A, I, Tx. cbn. rewrite app_nil_r. repeat split; lia.
Qed.

(** X12: in video mode with no failing call, the frames displayed are
    those up to and including the one after which the key 27 is read; one
    key is taken from the queue per displayed frame, and the alarm is
    played exactly once for each displayed frame for which the model
    reports a box, with no debouncing. *)
Theorem video_alarm_per_detecting_frame (env : World) (path fixed : string)
        (frames : list ndarray) (s s1 : State) :
  fault_free env ->
  run (check_permission env path) s = (Return (true, Some fixed), s1) ->
  video_file env fixed = Some frames ->
  exists s' new,
    run (process_video env path) s = (Return tt, s')
    /\ trace s' = trace s1 ++ new
    /\ imshow_calls new = length (shown frames (keys s1))
    /\ keys s' = skipn (length (shown frames (keys s1))) (keys s1)
    /\ alarm_calls new = length (filter (fire_detected env) (shown frames (keys s1)))
    /\ (Forall (fun k => k <> 27%Z) (keys s1) -> shown frames (keys s1) = frames).
Proof.
  unfold run. intros F C V.
  destruct (process_video_fault_free env path fixed frames s s1 F C V)
    as (s' & new & E & T & K & A & I & _).
  exists s', new. repeat split; auto. apply shown_without_escape.
Qed.

Lemma video_alarm_per_detecting_frame_witness :
  exists s' new,
    run (process_video (Demo.world Demo.no_fault) "~/clips/fire.mp4") (initial [13%Z])
      = (Return tt, s')
    /\ trace s' = [Done (stdout "Trying to access: /home/user/clips/fire.mp4");
                   Done (os_path_exists "/home/user/clips/fire.mp4");
                   Done (os_access_R_OK "/home/user/clips/fire.mp4")] ++ new
    /\ imshow_calls new = 2
    /\ keys s' = []
    /\ alarm_calls new = 1.
Proof.
  destruct (video_alarm_per_detecting_frame (Demo.world Demo.no_fault) "~/clips/fire.mp4"
              "/home/user/clips/fire.mp4" [Demo.dark; Demo.bright] (initial [13%Z]) _
              (fun _ => eq_refl) eq_refl eq_refl)
    as (s' & new & E & T & I & K & A & _).
  exists s', new. repeat split; assumption.
Defined.

(** X13: in video mode with no failing call, the overlays carry the
    running frame counter: the lines drawn over the displayed frames are,
    in order, those of the text for frame 1, then for frame 2, and so on,
    one text per displayed frame. *)
Theorem video_frame_counter (env : World) (path fixed : string)
        (frames : list ndarray) (s s1 : State) :
  fault_free env ->
  run (check_permission env path) s = (Return (true, Some fixed), s1) ->
  video_file env fixed = Some frames ->
  exists s' new,
    run (process_video env path) s = (Return tt, s')
    /\ trace s' = trace s1 ++ new
    /\ fill_texts new
       = flat_map (fun k => PyStr.split PyStr.LF (video_info_text fixed k))
                  (seq 1 (length (shown frames (keys s1)))).
Proof.
  unfold run. intros F C V.
  destruct (process_video_fault_free env path fixed frames s s1 F C V)
    as (s' & new & E & T & _ & _ & _ & Tx).
  exists s', new. auto.
Qed.

Lemma video_frame_counter_witness :
  exists s' new,
    run (process_video (Demo.world Demo.no_fault) "~/clips/fire.mp4") (initial [])
      = (Return tt, s')
    /\ trace s' = [Done (stdout "Trying to access: /home/user/clips/fire.mp4");
                   Done (os_path_exists "/home/user/clips/fire.mp4");
                   Done (os_access_R_OK "/home/user/clips/fire.mp4")] ++ new
    /\ fill_texts new
       = ["File: fire.mp4"; "Frame: 1"; "Press 'ESC' to exit";
          "File: fire.mp4"; "Frame: 2"; "Press 'ESC' to exit"].
Proof.
  destruct (video_frame_counter (Demo.world Demo.no_fault) "~/clips/fire.mp4"
              "/home/user/clips/fire.mp4" [Demo.dark; Demo.bright] (initial []) _
              (fun _ => eq_refl) eq_refl eq_refl)
    as (s' & new & E & T & Tx).
  exists s', new. repeat split; assumption.
Defined.

(** ** Image mode when no call fails *)



(** ** Images are not shared between rounds *)

Section Keeps.

Variable env : World.
Variable n : nat.

Lemma keeps_ret {A : Type} (Q : A -> Prop) (a : A) : Q a -> keeps n Q (ret a).
Proof.
  intros H s L. cbn. repeat split; auto. intros b E. injection E as <-. exact H.
Qed.

Lemma keeps_raise {A : Type} (Q : A -> Prop) (e : Exception) : keeps n Q (raise e).
Proof. intros s L. cbn. repeat split; auto. intros b E. discriminate E. Qed.

Lemma keeps_weaken {A : Type} (Q R : A -> Prop) (c : M A) :
  keeps n Q c -> (forall a, Q a -> R a) -> keeps n R c.
Proof.
  intros H W s L. destruct (H s L) as (H1 & H2 & H3). repeat split; auto.
Qed.

Lemma keeps_bind {A B : Type} (Q : A -> Prop) (R : B -> Prop) (c : M A) (k : A -> M B) :
  keeps n Q c -> (forall a, Q a -> keeps n R (k a)) -> keeps n R (bind c k).
Proof.
  intros Hc Hk s L. destruct (Hc s L) as (L1 & P1 & Q1). unfold bind.
  destruct (c s) as [[a | e | ] s1]; cbn [fst snd] in *.
  - destruct (Hk a (Q1 a eq_refl) s1 L1) as (L2 & P2 & Q2).
    repeat split; auto. rewrite P2. exact P1.
  - repeat split; auto. intros b E. discriminate E.
  - repeat split; auto. intros b E. discriminate E.
Qed.

Lemma keeps_try_except {A : Type} (Q : A -> Prop) (body : M A)
      (handler : Exception -> M A) :
  keeps n Q body -> (forall e, keeps n Q (handler e)) -> keeps n Q (try_except body handler).
Proof.
  intros Hc Hk s L. destruct (Hc s L) as (L1 & P1 & Q1). unfold try_except.
  destruct (body s) as [[a | e | ] s1]; cbn [fst snd] in *.
  - repeat split; auto.
  - destruct (Hk e s1 L1) as (L2 & P2 & Q2). repeat split; auto. rewrite P2. exact P1.
  - repeat split; auto.
Qed.

Lemma keeps_ext (c : Call) : keeps n (fun _ => True) (ext env c).
Proof.
  intros s L. unfold ext. destruct (fault env (length (trace s))); cbn; auto.
Qed.

Lemma keeps_log (c : Call) : keeps n (fun _ => True) (log c).
Proof. intros s L. cbn. auto. Qed.

Lemma keeps_load (r : ref) : keeps n (fun _ => True) (load r).
Proof. intros s L. cbn. auto. Qed.

Lemma keeps_next_key : keeps n (fun _ => True) next_key.
Proof. intros s L. unfold next_key. destruct (keys s); cbn; auto. Qed.

Lemma keeps_alloc (a : ndarray) : keeps n (fun r => n <= r) (alloc a).
Proof.
  intros s L. cbn. rewrite length_app. repeat split.
  - lia.
  - rewrite firstn_app. replace (n - length (heap s)) with 0 by lia.
    cbn [firstn]. apply app_nil_r.
  - intros r E. injection E as <-. exact L.
Qed.

Lemma firstn_set_nth {A : Type} (l : list A) (i m : nat) (x : A) :
  m <= i -> firstn m (set_nth i x l) = firstn m l.
Proof.
  revert i m. induction l as [ | y l IH]; intros i m H; cbn [set_nth].
  - destruct i; reflexivity.
  - destruct i as [ | i].
    + replace m with 0 by lia. reflexivity.
    + destruct m as [ | m]; [reflexivity | ]. cbn [firstn set_nth].
      rewrite IH by lia. reflexivity.
Qed.

Lemma keeps_modify (r : ref) (f : ndarray -> ndarray) :
  n <= r -> keeps n (fun _ => True) (modify r f).
Proof.
  intros H s L. cbn. rewrite set_nth_length. repeat split; auto.
  apply firstn_set_nth. exact H.
Qed.

Lemma keeps_for_each {A : Type} (l : list A) (body : A -> M unit) :
  (forall x, keeps n (fun _ => True) (body x)) -> keeps n (fun _ => True) (for_each l body).
Proof.
  intros Hb. induction l as [ | x l IH]; cbn [for_each].
  - apply keeps_ret. exact I.
  - eapply keeps_bind; [apply Hb | intros _ _; exact IH].
Qed.

Lemma keeps_putText img text org font scale color thickness :
  n <= img -> keeps n (fun _ => True) (putText env img text org font scale color thickness).
Proof.
  intros H. unfold putText.
  eapply keeps_bind; [apply keeps_log | intros _ _; apply keeps_modify; exact H].
Qed.

Lemma keeps_add_status_bar image text is_alert :
  keeps n (fun r => n <= r) (add_status_bar env image text is_alert).
Proof.
  unfold add_status_bar, np_vstack.
  eapply keeps_bind; [apply keeps_load | intros img _].
  eapply keeps_bind; [apply keeps_alloc | intros bar Hb]. cbv beta in Hb.
  eapply keeps_bind with (Q := fun _ => True).
  { destruct is_alert;
      (eapply keeps_bind; [apply keeps_modify; exact Hb | intros _ _; apply keeps_ret; exact I]). }
  intros color _.
  eapply keeps_bind; [apply keeps_putText; exact Hb | intros _ _].
  eapply keeps_bind; [apply keeps_load | intros x _].
  eapply keeps_bind; [apply keeps_load | intros y _].
  destruct (nd_w x =? nd_w y)%nat; [apply keeps_alloc | apply keeps_raise].
Qed.

Lemma keeps_add_info_overlay image info_text :
  n <= image -> keeps n (fun r => n <= r) (add_info_overlay env image info_text).
Proof.
  intros H. unfold add_info_overlay.
  eapply keeps_bind; [ | intros _ _; apply keeps_ret; exact H].
  apply keeps_for_each. intros [i line].
  eapply keeps_bind; [apply keeps_putText; exact H | intros _ _; apply keeps_putText; exact H].
Qed.

Lemma keeps_play_alarm : keeps n (fun _ => True) (play_alarm env).
Proof.
  unfold play_alarm. apply keeps_try_except.
  - eapply keeps_bind; [apply keeps_ext | intros _ _].
    eapply keeps_bind; [apply keeps_ext | intros _ _; apply keeps_ext].
  - intros e. apply keeps_log.
Qed.

Lemma keeps_detect_and_annotate frame info_text :
  keeps n (fun r => n <= r) (detect_and_annotate env frame info_text).
Proof.
  unfold detect_and_annotate, model, plot.
  eapply keeps_bind with (Q := fun _ => True).
  { eapply keeps_bind; [apply keeps_ext | intros _ _].
    eapply keeps_bind; [apply keeps_load | intros a _; apply keeps_ret; exact I]. }
  intros res _.
  eapply keeps_bind.
  { eapply keeps_bind; [apply keeps_ext | intros _ _; apply keeps_alloc]. }
  intros annotated Ha. cbv beta in Ha.
  eapply keeps_bind; [apply keeps_add_info_overlay; exact Ha | intros annotated' Ha'].
  destruct (0 <? length (boxes res))%nat.
  - eapply keeps_bind; [apply keeps_add_status_bar | intros display Hd].
    eapply keeps_bind; [apply keeps_play_alarm | intros _ _; apply keeps_ret; exact Hd].
  - apply keeps_add_status_bar.
Qed.

Lemma keeps_video_loop fixed_path window_name frames :
  forall frame_count,
    keeps n (fun _ => True) (video_loop env fixed_path window_name frames frame_count).
Proof.
  induction frames as [ | a frames IH]; intros frame_count; cbn [video_loop].
  - eapply keeps_bind; [apply keeps_ext | intros _ _; apply keeps_ret; exact I].
  - eapply keeps_bind; [apply keeps_ext | intros _ _].
    eapply keeps_bind; [apply keeps_alloc | intros frame _].
    eapply keeps_bind; [apply keeps_detect_and_annotate | intros display _].
    eapply keeps_bind; [unfold imshow; apply keeps_ext | intros _ _].
    eapply keeps_bind with (Q := fun _ => True).
    { unfold waitKey. eapply keeps_bind; [apply keeps_ext | intros _ _; apply keeps_next_key]. }
    intros key _. destruct (key =? 27)%Z; [apply keeps_ret; exact I | apply IH].
Qed.

End Keeps.

Lemma keeps_prefix {A : Type} (c : M A) (Q : A -> Prop) (s : State) :
  keeps (length (heap s)) Q c ->
  length (heap s) <= length (heap (snd (c s)))
  /\ forall r, r < length (heap s) ->
       nth r (heap (snd (c s))) nd_empty = nth r (heap s) nd_empty.
Proof.
  intros K. destruct (K s (le_n _)) as (L & P & _). split; [exact L | ].
  intros r Hr.
  rewrite <- (firstn_skipn (length (heap s)) (heap (snd (c s)))).
  rewrite app_nth1 by (rewrite length_firstn; lia).
  rewrite P, firstn_all. reflexivity.
Qed.

(** X15: frames are not shared between the rounds of the loop of video
    mode.  Whatever fails, the loop over the remaining frames only adds
    images to the heap: every image that exists when it starts, the
    displayed images of the earlier rounds among them, is unchanged when
    it ends. *)
Theorem video_loop_keeps_images (env : World) (fixed_path window_name : string)
        (frames : list ndarray) (frame_count : nat) (s : State) :
  let s' := snd (run (video_loop env fixed_path window_name frames frame_count) s) in
  length (heap s) <= length (heap s')
  /\ forall r, r < length (heap s) -> nth r (heap s') nd_empty = nth r (heap s) nd_empty.
Proof.
  cbv zeta. unfold run.
  apply keeps_prefix with (Q := fun _ => True). apply keeps_video_loop.
Qed.

(** X16: the step on one frame never draws on the frame it is given: it
    returns a reference to a new image, and the frame, like every image
    that existed before, is unchanged, whatever fails. *)
Theorem detect_and_annotate_keeps_frame (env : World) (frame : ref) (info_text : string)
        (s : State) :
  let r := run (detect_and_annotate env frame info_text) s in
  length (heap s) <= length (heap (snd r))
  /\ (forall i, i < length (heap s) ->
        nth i (heap (snd r)) nd_empty = nth i (heap s) nd_empty)
  /\ forall display, fst r = Return display -> length (heap s) <= display.
Proof.
  cbv zeta. unfold run.
  pose proof (keeps_detect_and_annotate env (length (heap s)) frame info_text) as K.
  destruct (keeps_prefix _ _ s K) as [L P]. split; [exact L | ]. split; [exact P | ].
  apply (K s (le_n _)).
Qed.

(** ** Webcam mode *)

Section EmitsFrames.

Variable env : World.
Variable P : Entry -> Prop.
Hypothesis P_frames : forall en, is_resolver_call en = false -> P en.

Lemma emits_detect_and_annotate_frames frame info_text :
  emits P (detect_and_annotate env frame info_text).
Proof.
  unfold detect_and_annotate, model, plot, add_info_overlay, add_status_bar, np_vstack,
    play_alarm, putText.
  emit_steps; apply P_frames; reflexivity.
Qed.

Lemma emits_webcam_loop window_name frames :
  forall frame_count, emits P (webcam_loop env window_name frames frame_count).
Proof.
  induction frames as [ | a frames IH]; intros frame_count; cbn [webcam_loop].
  - emit_steps; apply P_frames; reflexivity.
  - apply emits_bind; [emit_steps; apply P_frames; reflexivity | intros _].
    apply emits_bind; [apply emits_alloc | intros frame].
    apply emits_bind; [apply emits_detect_and_annotate_frames | intros display].
    apply emits_bind; [unfold imshow; emit_steps; apply P_frames; reflexivity | intros _].
    apply emits_bind; [unfold waitKey; emit_steps; apply P_frames; reflexivity | intros key].
    destruct (key =? 27)%Z; [apply emits_ret | apply IH].
Qed.

Lemma emits_process_webcam camera : emits P (process_webcam env camera).
Proof.
  unfold process_webcam, create_window.
  apply emits_bind; [emit_steps; apply P_frames; reflexivity | intros name].
  apply emits_try_except; [ | intros e; emit_steps; apply P_frames; reflexivity].
  apply emits_bind; [emit_steps; apply P_frames; reflexivity | intros _].
  apply emits_bind; [emit_steps; apply P_frames; reflexivity | intros _].
  destruct camera as [frames | ]; [ | emit_steps; apply P_frames; reflexivity].
  apply emits_bind; [apply emits_webcam_loop | intros _].
  emit_steps; apply P_frames; reflexivity.
Qed.

End EmitsFrames.

(** X17: webcam mode has no validation step: whatever the camera delivers
    and whatever fails, [process_webcam] makes no call of the path
    resolver; it looks nothing up and checks no file. *)
Theorem process_webcam_no_resolver (env : World) (camera : option (list ndarray))
        (s : State) :
  exists new,
    trace (snd (run (process_webcam env camera) s)) = trace s ++ new
    /\ Forall (fun en => is_resolver_call en = false) new.
Proof.
  destruct (emits_process_webcam env (fun en => is_resolver_call en = false)
              (fun en H => H) camera s) as (out & s' & new & E & T & F & _).
  exists new. unfold run. rewrite E. auto.
Qed.

(** X18: a camera that cannot be opened: [process_webcam] says so and
    returns; the window it created is left open and nothing is released. *)
Theorem webcam_unavailable (env : World) (s : State) :
  (forall k, k < 4 -> fault env (k + length (trace s)) = None) ->
  run (process_webcam env None) s =
    (Return tt,
     mk_State (heap s) (keys s)
       (trace s ++
        [Done (cv2_namedWindow "Fire and Smoke Detection System" 0);
         Done (cv2_resizeWindow "Fire and Smoke Detection System" 1280 720);
         Done (cv2_VideoCapture "0");
         Done cap_isOpened;
         Done (stdout "Error: Unable to access webcam")])).
Proof.
  unfold run. intros F. unfold process_webcam.
  rewrite (bind_return _ _ _ _ _
             (create_window_done env _ _ _ s (F 0 ltac:(lia)) (F 1 ltac:(lia)))).
  unfold try_except.
  erewrite bind_return.
  2:{ apply ext_done. cbn [trace]. rewrite length_app, Nat.add_comm. apply (F 2). lia. }
  erewrite bind_return.
  2:{ apply ext_done. unfold record; cbn [trace]. rewrite !length_app. cbn [length].
      replace (length (trace s) + 2 + 1) with (3 + length (trace s)) by lia.
      apply (F 3). lia. }
  unfold print, log, record; cbn [heap keys trace]. rewrite <- !app_assoc. reflexivity.
Qed.

Lemma webcam_unavailable_witness :
  run (process_webcam (Demo.world Demo.no_fault) None) (initial []) =
    (Return tt,
     mk_State [] []
       [Done (cv2_namedWindow "Fire and Smoke Detection System" 0);
        Done (cv2_resizeWindow "Fire and Smoke Detection System" 1280 720);
        Done (cv2_VideoCapture "0");
        Done cap_isOpened;
        Done (stdout "Error: Unable to access webcam")]).
Proof.
  exact (webcam_unavailable (Demo.world Demo.no_fault) (initial []) (fun _ _ => eq_refl)).
Defined.

(** ** The menu *)

(** A session: a wrong choice, a video that is missing, then quit. *)
Example demo_menu :
  run (main (Demo.world Demo.no_fault) None
         [Line "7"; Line " 2 "; Line "~/clips/missing.mp4"; Line "4"; Line "1"])
      (initial [])
  = (Return tt,
     mk_State [] []
       (menu_entries
        ++ [Done (stdout "Invalid choice. Please enter a number between 1-4.")]
        ++ menu_entries
        ++ [Done (stdout "Enter video path: ");
            Done (stdout "Trying to access: /home/user/clips/missing.mp4");
            Done (os_path_exists "/home/user/clips/missing.mp4");
            Done (stdout "File not found: /home/user/clips/missing.mp4");
            Done (stdout "Please check if the path is correct and the file exists")]
        ++ menu_entries
        ++ [Done (stdout "Exiting program...")])).
Proof. vm_compute. reflexivity. Qed.


Lemma process_webcam_outcomes (env : World) (camera : option (list ndarray))
      (s s' : State) (out : Outcome unit) :
  process_webcam env camera s = (out, s') ->
  forall e, out = Raise e ->
    exists c, is_window_call (Failed c e) = true
              /\ last_entry (trace s') = Some (Failed c e).
Proof.
  unfold process_webcam. intros E.
  destruct (create_window_cases env default_window_name default_width default_height s)
    as (o & s2 & W & H).
  destruct o as [name | e | ]; [ | | contradiction].
  - erewrite bind_return in E by exact W. unfold try_except in E.
    match type of E with
    | match ?body ?st with _ => _ end = _ => destruct (body st) as [[[] | e | ] s3]
    end.
    + injection E as <- <-. intros e H'; discriminate H'.
    + unfold print, log in E. injection E as <- <-. intros e' H'; discriminate H'.
    + injection E as <- <-. intros e H'; discriminate H'.
  - erewrite bind_raise in E by exact W. injection E as <- <-.
    intros e' H'. injection H' as <-. exact H.
Qed.

(** The state after the menu and the prompt for the choice. *)
Lemma main_menu (env : World) (camera : option (list ndarray)) (s : State)
      (k : M unit) :
  (print_menu ;; log (stdout "Enter your choice (1-4): ") ;; k) s
  = k (mk_State (heap s) (keys s) (trace s ++ menu_entries)).
Proof.
  unfold print_menu, print. repeat step. rewrite <- !app_assoc. reflexivity.
Qed.

(** X19: the choice is compared after trimming, and [4] ends the program:
    the menu and the prompt are printed, then the farewell, and [main]
    returns without reading the rest of the input. *)
Theorem main_quit (env : World) (camera : option (list ndarray)) (line : string)
        (rest : list Input) (s : State) :
  PyStr.strip line = "4" ->
  run (main env camera (Line line :: rest)) s =
    (Return tt,
     mk_State (heap s) (keys s)
       (trace s ++ menu_entries ++ [Done (stdout "Exiting program...")])).
Proof.
  intros H. unfold run. cbn [main]. rewrite (main_menu env camera). rewrite H.
  cbn [String.eqb Ascii.eqb Bool.eqb andb]. unfold print, log, record; cbn [heap keys trace].
  rewrite <- app_assoc. reflexivity.
Qed.

Lemma main_quit_witness :
  run (main (Demo.world Demo.no_fault) None [Line "  4 "; Line "1"; Line "x.jpg"])
      (initial []) =
    (Return tt, mk_State [] [] (menu_entries ++ [Done (stdout "Exiting program...")])).
Proof.
  exact (main_quit (Demo.world Demo.no_fault) None "  4 " [Line "1"; Line "x.jpg"]
           (initial []) eq_refl).
Defined.

(** X20: a choice that is none of 1, 2, 3, 4 after trimming is answered by
    the message about the valid range, and the next round of the menu goes
    on with the rest of the input. *)
Theorem main_invalid_choice (env : World) (camera : option (list ndarray))
        (line : string) (rest : list Input) (s : State) :
  ~ In (PyStr.strip line) ["1"; "2"; "3"; "4"] ->
  run (main env camera (Line line :: rest)) s =
    run (main env camera rest)
        (mk_State (heap s) (keys s)
           (trace s ++ menu_entries
            ++ [Done (stdout "Invalid choice. Please enter a number between 1-4.")])).
Proof.
  intros H. unfold run. cbn [main]. rewrite (main_menu env camera).
  assert (N : forall c, In c ["1"; "2"; "3"; "4"] -> String.eqb (PyStr.strip line) c = false).
  { intros c Hc. apply String.eqb_neq. intros E. apply H. rewrite E. exact Hc. }
  rewrite (N "1"), (N "2"), (N "3"), (N "4") by (cbn; auto).
  unfold print. step. rewrite <- app_assoc. reflexivity.
Qed.

Lemma main_invalid_choice_witness :
  run (main (Demo.world Demo.no_fault) None [Line "five"; Line "4"]) (initial []) =
    (Return tt,
     mk_State [] []
       (menu_entries
        ++ [Done (stdout "Invalid choice. Please enter a number between 1-4.")]
        ++ menu_entries ++ [Done (stdout "Exiting program...")])).
Proof.
  rewrite (main_invalid_choice (Demo.world Demo.no_fault) None "five" [Line "4"]
             (initial [])).
  - reflexivity.
  - cbn. intros [H | [H | [H | [H | []]]]]; discriminate H.
Defined.

Lemma menu_last (t : list Entry) :
  last_entry (t ++ menu_entries) = Some (Done (stdout "Enter your choice (1-4): ")).
Proof. unfold last_entry. rewrite rev_app_distr. reflexivity. Qed.

(** How a run of the menu can end. *)
Lemma main_outcomes (env : World) (camera : option (list ndarray)) :
  forall n stdin, length stdin <= n ->
  forall s out s',
    main env camera stdin s = (out, s') ->
    match out with
    | Return _ => last_entry (trace s') = Some (Done (stdout "Exiting program..."))
    | Raise e =>
        ((e = EOFError \/ In (ReadError e) stdin)
         /\ exists p, last_entry (trace s') = Some p /\ is_prompt p = true)
        \/ (exists c, is_window_call (Failed c e) = true
                      /\ last_entry (trace s') = Some (Failed c e))
    | Diverge => True
    end.
Proof.
  assert (Up : forall (stdin0 stdin : list Input) out (s' : State),
             (forall e, In (ReadError e) stdin0 -> In (ReadError e) stdin) ->
             match out : Outcome unit with
             | Return _ => last_entry (trace s') = Some (Done (stdout "Exiting program..."))
             | Raise e =>
                 ((e = EOFError \/ In (ReadError e) stdin0)
                  /\ exists p, last_entry (trace s') = Some p /\ is_prompt p = true)
                 \/ (exists c, is_window_call (Failed c e) = true
                               /\ last_entry (trace s') = Some (Failed c e))
             | Diverge => True
             end ->
             match out with
             | Return _ => last_entry (trace s') = Some (Done (stdout "Exiting program..."))
             | Raise e =>
                 ((e = EOFError \/ In (ReadError e) stdin)
                  /\ exists p, last_entry (trace s') = Some p /\ is_prompt p = true)
                 \/ (exists c, is_window_call (Failed c e) = true
                               /\ last_entry (trace s') = Some (Failed c e))
             | Diverge => True
             end).
  { intros stdin0 stdin [[] | e | ] s' Sub H; [exact H | | exact H].
    destruct H as [[[H | H] P] | H]; [left | left | right; exact H].
    - split; [left; exact H | exact P].
    - split; [right; apply Sub; exact H | exact P]. }
  induction n as [ | n IH]; intros stdin L s out s' E.
  - destruct stdin; [ | cbn [length] in L; lia].
    cbn [main] in E. rewrite (main_menu env camera) in E. injection E as <- <-.
    left. split; [left; reflexivity | ]. eexists. split; [apply menu_last | reflexivity].
  - destruct stdin as [ | [line | e0] stdin1].
    { apply (IH [] (Nat.le_0_l _) s out s' E). }
    2:{ cbn [main] in E. rewrite (main_menu env camera) in E. injection E as <- <-.
        left. split; [right; left; reflexivity | ].
        eexists. split; [apply menu_last | reflexivity]. }
    cbn [length] in L. cbn [main] in E. rewrite (main_menu env camera) in E.
    destruct (String.eqb (PyStr.strip line) "1").
    { erewrite bind_return in E by apply run_log. cbn [heap keys trace] in E.
      destruct stdin1 as [ | [path | e1] stdin2].
      - injection E as <- <-. left. split; [left; reflexivity | ]. eexists.
        split; [apply last_entry_app | reflexivity].
      - unfold bind in E.
        destruct (process_image env path _) as [[[] | e | ] s2] eqn:PI.
        + apply (Up stdin2); [intros e He; right; right; exact He | ].
          apply (IH stdin2 ltac:(cbn [length] in L; lia) s2 out s' E).
        + injection E as <- <-. right.
          apply (process_image_outcomes env path _ _ _ PI e eq_refl).
        + injection E as <- <-. exact I.
      - injection E as <- <-. left. split; [right; right; left; reflexivity | ].
        eexists. split; [apply last_entry_app | reflexivity]. }
    destruct (String.eqb (PyStr.strip line) "2").
    { erewrite bind_return in E by apply run_log. cbn [heap keys trace] in E.
      destruct stdin1 as [ | [path | e1] stdin2].
      - injection E as <- <-. left. split; [left; reflexivity | ]. eexists.
        split; [apply last_entry_app | reflexivity].
      - unfold bind in E.
        destruct (process_video env path _) as [[[] | e | ] s2] eqn:PV.
        + apply (Up stdin2); [intros e He; right; right; exact He | ].
          apply (IH stdin2 ltac:(cbn [length] in L; lia) s2 out s' E).
        + injection E as <- <-. right.
          apply (process_video_outcomes env path _ _ _ PV). reflexivity.
        + injection E as <- <-. exact I.
      - injection E as <- <-. left. split; [right; right; left; reflexivity | ].
        eexists. split; [apply last_entry_app | reflexivity]. }
    destruct (String.eqb (PyStr.strip line) "3").
    { unfold bind in E.
      destruct (process_webcam env camera _) as [[[] | e | ] s2] eqn:PW.
      - apply (Up stdin1); [intros e He; right; exact He | ].
        apply (IH stdin1 ltac:(lia) s2 out s' E).
      - injection E as <- <-. right.
        apply (process_webcam_outcomes env camera _ _ _ PW e eq_refl).
      - injection E as <- <-. exact I. }
    destruct (String.eqb (PyStr.strip line) "4").
    { injection E as <- <-. apply last_entry_app. }
    unfold print in E. erewrite bind_return in E by apply run_log.
    apply (Up stdin1); [intros e He; right; exact He | ].
    apply (IH stdin1 ltac:(lia) _ out s' E).
Qed.

(** X21: webcam mode never lets an exception of the capture, the model,
    the drawing or the display escape: when [process_webcam] raises, the
    exception is the one a window call raised, and that failed call is the
    last thing that happened. *)
Theorem process_webcam_exceptions (env : World) (camera : option (list ndarray))
        (s s' : State) (out : Outcome unit) :
  run (process_webcam env camera) s = (out, s') ->
  forall e, out = Raise e ->
    exists c, is_window_call (Failed c e) = true
              /\ last_entry (trace s') = Some (Failed c e).
Proof. exact (process_webcam_outcomes env camera s s' out). Qed.

Lemma process_webcam_exceptions_witness :
  exists c s',
    run (process_webcam (Demo.world (Demo.fault_at 0 "no display")) None)
        (initial []) = (Raise "no display", s')
    /\ is_window_call (Failed c "no display") = true
    /\ last_entry (trace s') = Some (Failed c "no display").
Proof.
  pose (r := run (process_webcam (Demo.world (Demo.fault_at 0 "no display")) None)
                 (initial [])).
  destruct (process_webcam_exceptions _ _ _ (snd r) (fst r) (surjective_pairing r)
              "no display" eq_refl) as (c & W & L).
  exists c, (snd r). split; [reflexivity | ]. split; [exact W | exact L].
Defined.

(** X22: the only way out of the menu loop without an exception is the
    choice 4: whenever [main] returns, the last thing it did was to print
    the farewell. *)
Theorem main_returns_after_quit (env : World) (camera : option (list ndarray))
        (stdin : list Input) (s s' : State) :
  run (main env camera stdin) s = (Return tt, s') ->
  last_entry (trace s') = Some (Done (stdout "Exiting program...")).
Proof.
  intros E. exact (main_outcomes env camera (length stdin) stdin (le_n _) s _ s' E).
Qed.

Lemma main_returns_after_quit_witness :
  exists s',
    run (main (Demo.world Demo.no_fault) None
           [Line "3"; Line "2"; Line "~/clips/missing.mp4"; Line "4"])
        (initial []) = (Return tt, s')
    /\ last_entry (trace s') = Some (Done (stdout "Exiting program...")).
Proof.
  pose (r := run (main (Demo.world Demo.no_fault) None
                    [Line "3"; Line "2"; Line "~/clips/missing.mp4"; Line "4"])
                 (initial [])).
  exists (snd r). split; [reflexivity | ].
  apply (main_returns_after_quit (Demo.world Demo.no_fault) None
           [Line "3"; Line "2"; Line "~/clips/missing.mp4"; Line "4"] (initial [])).
  reflexivity.
Defined.

(** X23: an exception leaves [main] in two cases only.  Either [input]
    raised at one of the three prompts, which was the last thing written:
    [EOFError] when the standard input had ended, or the exception of a
    read that failed, as [UnicodeDecodeError].  Or a window call failed in
    one of the modes, and that failed call is the last thing that
    happened.  Writing to the console is taken not to fail. *)
Theorem main_exceptions (env : World) (camera : option (list ndarray))
        (stdin : list Input) (s s' : State) (e : Exception) :
  run (main env camera stdin) s = (Raise e, s') ->
  ((e = EOFError \/ In (ReadError e) stdin)
   /\ exists p, last_entry (trace s') = Some p /\ is_prompt p = true)
  \/ (exists c, is_window_call (Failed c e) = true
                /\ last_entry (trace s') = Some (Failed c e)).
Proof.
  intros E. exact (main_outcomes env camera (length stdin) stdin (le_n _) s _ s' E).
Qed.

Lemma main_exceptions_witness :
  let e := "'utf-8' codec can't decode byte 0xff in position 0: invalid start byte" in
  let stdin := [Line "seven"; Line " 1 "; ReadError e; Line "4"] in
  exists s',
    run (main (Demo.world Demo.no_fault) None stdin) (initial []) = (Raise e, s')
    /\ In (ReadError e) stdin
    /\ last_entry (trace s') = Some (Done (stdout "Enter image path: ")).
Proof.
  intros e stdin.
  pose (r := run (main (Demo.world Demo.no_fault) None stdin) (initial [])).
  exists (snd r). split; [reflexivity | ].
  destruct (main_exceptions (Demo.world Demo.no_fault) None stdin (initial []) (snd r) e
              eq_refl) as [[_ _] | (c & W & L)].
  - split; [right; right; left; reflexivity | reflexivity].
  - vm_compute in L. discriminate L.
Defined.
